(** * Generalised Sudoku: board model and backtracking solver

    A shallow embedding of [board.py] (class [SudokuBoard]), of
    [solver.py] (class [SudokuSolver]), of [generator.py] (class
    [SudokuGenerator], module [Generator]) and of [filter_key_steps] of
    [utils.py].

    Python integers are [Z].  A board object holds a list of references to
    row objects; the row objects (Python lists of integers) live in a heap,
    so that [copy], [from_list] and the in-place writes of [set] can be told
    apart.  Indices coming from the public interface are [Z] and follow
    Python's list indexing (negative indices count from the end, anything
    else out of range raises [IndexError]); indices produced by
    [range(board_size)] inside the two classes are [nat].  The box size is
    a [nat].

    The explanation log, the elapsed time and the Prolog validator are left
    out: the solver writes them and never reads them back to decide
    anything (the validator is only asked in order to word a log entry).
    The limits of the interpreter (recursion depth, memory) are not
    modelled.  [filter_key_steps] is modelled on any list of strings.

    The generator draws from Python's [random] module; the embedding takes
    the two draws it makes, [random.shuffle] and [random.uniform], as
    functions of an explicit generator state, and the properties of the
    generator hold for every such pair of functions, [shuffle] being
    assumed to return a permutation of its argument. *)

From Stdlib Require Import ZArith Ascii String Lia DecimalString.
From stdpp Require Import gmap list sorting.

Local Open Scope Z_scope.
Local Open Scope nat_scope.

(** ** Python values, errors and list indexing *)

Inductive error :=
| IndexError
| ValueError_length            (* "Puzzle must have ... characters" *)
| ValueError_value (val : Z)   (* "Invalid value ... for board size ..." *)
| ValueError_literal (c : ascii) (* int(c, 36) on a character it cannot read *)
| ValueError_dimensions.       (* "Board must be ...x..." *)

Inductive result (A : Type) :=
| Ok (a : A)
| Raise (e : error).
Arguments Ok {A} a.
Arguments Raise {A} e.

(** [l[i]] for a list of length [len]: the position that is read. *)
Definition py_index (len : nat) (i : Z) : option nat :=
  if ((0 <=? i) && (i <? Z.of_nat len))%Z then Some (Z.to_nat i)
  else if ((- Z.of_nat len <=? i) && (i <? 0))%Z then Some (Z.to_nat (Z.of_nat len + i))
  else None.

Definition py_getitem {A} (l : list A) (i : Z) : option A :=
  match py_index (length l) i with
  | Some k => l !! k
  | None => None
  end.

(** ** The heap of row objects and the board object *)

Abbreviation loc := positive.
Abbreviation Heap := (gmap positive (list Z)).
Abbreviation Grid := (list (list Z)).

Record SudokuBoard := {
  n : nat;              (* box size *)
  board_size : nat;     (* n * n *)
  board : list loc      (* references to the row lists *)
}.

Definition alloc (h : Heap) (row : list Z) : loc * Heap :=
  let l := fresh (dom h) in (l, <[l := row]> h).

(** A list comprehension building one new row object per element. *)
Fixpoint alloc_rows (h : Heap) (rows : Grid) : list loc * Heap :=
  match rows with
  | [] => ([], h)
  | row :: rest =>
      let '(l, h1) := alloc h row in
      let '(ls, h2) := alloc_rows h1 rest in
      (l :: ls, h2)
  end.

(** [SudokuBoard(size)] *)
Definition init (h : Heap) (size : nat) : Heap * SudokuBoard :=
  let side := size * size in
  let '(ls, h') := alloc_rows h (replicate side (replicate side 0%Z)) in
  (h', {| n := size; board_size := side; board := ls |}).

(** The contents of the rows a board refers to. *)
Definition view (h : Heap) (b : SudokuBoard) : Grid :=
  (fun l => h !!! l) <$> board b.

(** [from_list]: only the dimensions are checked; [self.board] is rebound to
    fresh copies of the rows. *)
Definition from_list (h : Heap) (b : SudokuBoard) (g : Grid)
  : result (Heap * SudokuBoard) :=
  if negb (length g =? board_size b)
     || existsb (fun row => negb (length row =? board_size b)) g
  then Raise ValueError_dimensions
  else
    let '(ls, h') := alloc_rows h g in
    Ok (h', {| n := n b; board_size := board_size b; board := ls |}).

Definition get (h : Heap) (b : SudokuBoard) (row col : Z) : result Z :=
  match py_getitem (board b) row with
  | None => Raise IndexError
  | Some l =>
      match py_getitem (h !!! l) col with
      | None => Raise IndexError
      | Some v => Ok v
      end
  end.

Definition set (h : Heap) (b : SudokuBoard) (row col : Z) (value : Z)
  : result Heap :=
  match py_getitem (board b) row with
  | None => Raise IndexError
  | Some l =>
      match py_index (length (h !!! l)) col with
      | None => Raise IndexError
      | Some c => Ok (<[l := <[c := value]> (h !!! l)]> h)
      end
  end.

Definition is_empty (h : Heap) (b : SudokuBoard) (row col : Z) : result bool :=
  match py_getitem (board b) row with
  | None => Raise IndexError
  | Some l =>
      match py_getitem (h !!! l) col with
      | None => Raise IndexError
      | Some v => Ok (v =? 0)%Z
      end
  end.

(** [copy]: a new board object ([SudokuBoard(self.n)] allocates its own zero
    rows) whose [board] is then rebound to fresh copies of the rows. *)
Definition copy (h : Heap) (b : SudokuBoard) : Heap * SudokuBoard :=
  let '(h1, new_board) := init h (n b) in
  let '(ls, h2) := alloc_rows h1 (view h1 b) in
  (h2, {| n := n new_board; board_size := board_size new_board; board := ls |}).

(** ** Reading a board

    The methods below only read the board; they are written over the
    current contents [g = view h b] of the rows.  Their indices come from
    [range(board_size)] and from the box ranges, so on a
    [board_size x board_size] grid every access is in range; [cell] is the
    access [self.board[r][c]] there (see [get_in_range]). *)

Definition cell (g : Grid) (r c : nat) : Z := nth c (nth r g []) 0%Z.

(** [self.board[row]] *)
Definition row_of (g : Grid) (row : nat) : list Z := nth row g [].

(** [self.board[r][col] for r in range(self.board_size)] *)
Definition column (b : SudokuBoard) (g : Grid) (col : nat) : list Z :=
  (fun r => cell g r col) <$> seq 0 (board_size b).

Definition get_box_index (b : SudokuBoard) (row col : nat) : nat * nat :=
  ((row / n b) * n b, (col / n b) * n b).

(** The cells visited by
    [for r in range(box_row, box_row + n): for c in range(box_col, box_col + n)]. *)
Definition box_cells (b : SudokuBoard) (g : Grid) (box_row box_col : nat) : list Z :=
  r ← seq box_row (n b); (fun c => cell g r c) <$> seq box_col (n b).

(** [range(0, stop, step)]; Python raises [ValueError] for [step = 0], which
    does not arise for a board with [0 < n]. *)
Definition range_step (stop step : nat) : list nat :=
  (fun k => k * step) <$> seq 0 ((stop + step - 1) / step).

(** The cells in the order of
    [for r in range(board_size): for c in range(board_size)]. *)
Definition positions (side : nat) : list (nat * nat) :=
  r ← seq 0 side; pair r <$> seq 0 side.

(** A Python set of integers is kept as the list of its elements in
    ascending order.  That is the order in which CPython enumerates
    [set(range(1, k))] and what remains of it after removals as long as
    the elements are smaller than the hash table of the set, which is so
    for the boards up to 9x9. *)
Definition discard (x : Z) (s : list Z) : list Z := filter (fun v => v <> x) s.

Definition get_candidates (b : SudokuBoard) (g : Grid) (row col : nat) : list Z :=
  if negb (cell g row col =? 0)%Z then []
  else
    let candidates := Z.of_nat <$> seq 1 (board_size b) in
    (* remove row conflicts *)
    let candidates := filter (fun v => v ∉ row_of g row) candidates in
    (* remove column conflicts *)
    let candidates := filter (fun v => v ∉ column b g col) candidates in
    (* remove box conflicts *)
    let '(box_row, box_col) := get_box_index b row col in
    foldl (fun cands x => discard x cands) candidates (box_cells b g box_row box_col).

Definition is_complete (b : SudokuBoard) (g : Grid) : bool :=
  forallb (fun '(r, c) => negb (cell g r c =? 0)%Z) (positions (board_size b)).

(** [len(set(l))] *)
Definition distinct_count (l : list Z) : nat := length (remove_dups l).

Definition is_valid_solution (b : SudokuBoard) (g : Grid) : bool :=
  if negb (is_complete b g) then false
  else
    forallb (fun i =>
               (distinct_count (row_of g i) =? board_size b)
               && (distinct_count (column b g i) =? board_size b))
            (seq 0 (board_size b))
    && forallb (fun box_r =>
                  forallb (fun box_c =>
                             distinct_count (box_cells b g box_r box_c) =? board_size b)
                          (range_step (board_size b) (n b)))
               (range_step (board_size b) (n b)).

(** ** The solver *)

Record SudokuSolver := {
  use_mrv : bool;
  use_forward_checking : bool
}.

(** What the search does, in order: a ghost record next to the two
    counters.  [Node g] is a call of [_backtrack] on a board with contents
    [g] (the board handed to [step_callback] when one is registered). *)
Inductive event :=
| Node (g : Grid)
| DeadEnd (row col : nat)
| Trial (row col : nat) (num : Z) (g : Grid)   (* after board.set(row, col, num) *)
| UndoForward (row col : nat) (g : Grid)       (* after board.set(row, col, 0), forward checking failed *)
| UndoFailed (row col : nat) (g : Grid).       (* after board.set(row, col, 0), the recursive call failed *)

Record State := {
  heap : Heap;
  nodes_explored : nat;
  backtrack_count : nat;
  trace : list event
}.

(** The MRV scan: [min_candidates] and [best_cell] are the loop state. *)
Fixpoint mrv_scan (b : SudokuBoard) (g : Grid) (cells : list (nat * nat))
    (min_candidates : nat) (best_cell : option (nat * nat)) : option (nat * nat) :=
  match cells with
  | [] => best_cell
  | (r, c) :: rest =>
      if (cell g r c =? 0)%Z then
        let num_candidates := length (get_candidates b g r c) in
        if num_candidates =? 0 then Some (r, c)
        else if num_candidates <? min_candidates
             then mrv_scan b g rest num_candidates (Some (r, c))
             else mrv_scan b g rest min_candidates best_cell
      else mrv_scan b g rest min_candidates best_cell
  end.

Definition _select_unassigned_variable (s : SudokuSolver) (b : SudokuBoard) (g : Grid)
  : option (nat * nat) :=
  if negb (use_mrv s) then
    List.find (fun '(r, c) => (cell g r c =? 0)%Z) (positions (board_size b))
  else
    mrv_scan b g (positions (board_size b)) (board_size b + 1) None.

Definition _is_consistent (b : SudokuBoard) (g : Grid) : bool :=
  forallb (fun '(r, c) =>
             if (cell g r c =? 0)%Z
             then negb (length (get_candidates b g r c) =? 0)
             else true)
          (positions (board_size b)).

(** The write [board.set(row, col, value)] for indices in range (see
    [set_in_range]). *)
Definition write (h : Heap) (b : SudokuBoard) (row col : nat) (value : Z) : Heap :=
  match board b !! row with
  | Some l => <[l := <[col := value]> (h !!! l)]> h
  | None => h
  end.

Definition enter (b : SudokuBoard) (st : State) : State :=
  {| heap := heap st;
     nodes_explored := nodes_explored st + 1;
     backtrack_count := backtrack_count st;
     trace := trace st ++ [Node (view (heap st) b)] |}.

Definition emit (e : event) (st : State) : State :=
  {| heap := heap st;
     nodes_explored := nodes_explored st;
     backtrack_count := backtrack_count st;
     trace := trace st ++ [e] |}.

Definition place (b : SudokuBoard) (row col : nat) (num : Z) (st : State) : State :=
  let h := write (heap st) b row col num in
  {| heap := h;
     nodes_explored := nodes_explored st;
     backtrack_count := backtrack_count st;
     trace := trace st ++ [Trial row col num (view h b)] |}.

(** [board.set(row, col, 0); self.backtrack_count += 1] *)
Definition undo (b : SudokuBoard) (row col : nat) (ev : nat -> nat -> Grid -> event)
    (st : State) : State :=
  let h := write (heap st) b row col 0%Z in
  {| heap := h;
     nodes_explored := nodes_explored st;
     backtrack_count := backtrack_count st + 1;
     trace := trace st ++ [ev row col (view h b)] |}.

(** The loop [for num in candidates] of [_backtrack]; [rec] is the
    recursive call. *)
Fixpoint trial_loop (rec : State -> option (bool * State)) (s : SudokuSolver)
    (b : SudokuBoard) (row col : nat) (candidates : list Z) (st : State)
  : option (bool * State) :=
  match candidates with
  | [] => Some (false, st)
  | num :: rest =>
      let st1 := place b row col num st in
      if use_forward_checking s && negb (_is_consistent b (view (heap st1) b)) then
        trial_loop rec s b row col rest (undo b row col UndoForward st1)
      else
        match rec st1 with
        | None => None
        | Some (true, st2) => Some (true, st2)
        | Some (false, st2) =>
            trial_loop rec s b row col rest (undo b row col UndoFailed st2)
        end
  end.

(** [_backtrack]; [None] only when the recursion depth [fuel] is used up. *)
Fixpoint _backtrack (fuel : nat) (s : SudokuSolver) (b : SudokuBoard) (st : State)
  : option (bool * State) :=
  match fuel with
  | O => None
  | S fuel' =>
      let st := enter b st in
      let g := view (heap st) b in
      match _select_unassigned_variable s b g with
      | None => Some (is_valid_solution b g, st)
      | Some (row, col) =>
          let candidates := get_candidates b g row col in
          if length candidates =? 0 then Some (false, emit (DeadEnd row col) st)
          else trial_loop (_backtrack fuel' s b) s b row col candidates st
      end
  end.

Definition count_empty (b : SudokuBoard) (g : Grid) : nat :=
  length (List.filter (fun '(r, c) => (cell g r c =? 0)%Z) (positions (board_size b))).

(** The counters are reset at the start of [solve]. *)
Definition initial_state (h : Heap) : State :=
  {| heap := h; nodes_explored := 0; backtrack_count := 0; trace := [] |}.

Record Solved := {
  success : bool;
  solved_board : option SudokuBoard;
  final : State
}.

Definition solve_fuel (fuel : nat) (s : SudokuSolver) (h : Heap) (b : SudokuBoard)
  : option Solved :=
  let '(h1, working_board) := copy h b in
  match _backtrack fuel s working_board (initial_state h1) with
  | None => None
  | Some (true, st') =>
      Some {| success := true; solved_board := Some working_board; final := st' |}
  | Some (false, st') =>
      Some {| success := false; solved_board := None; final := st' |}
  end.

(** Every recursive call fills one more empty cell, so the depth of the
    recursion is at most the number of empty cells plus one
    ([solve_total], [solve_fuel_enough]). *)
Definition solve (s : SudokuSolver) (h : Heap) (b : SudokuBoard) : option Solved :=
  solve_fuel (S (count_empty b (view h b))) s h b.

(** ** Well-formed boards

    What the constructor, [from_list] and [copy] establish and [set]
    preserves: a positive box size, [board_size = n * n], and
    [board_size] distinct row objects of [board_size] cells each. *)

Definition wf_grid (b : SudokuBoard) (g : Grid) : Prop :=
  length g = board_size b /\ Forall (fun row => length row = board_size b) g.

Definition wf_board (h : Heap) (b : SudokuBoard) : Prop :=
  0 < n b /\ board_size b = n b * n b /\
  NoDup (board b) /\
  length (board b) = board_size b /\
  Forall (fun l => exists row, h !! l = Some row /\ length row = board_size b) (board b).

(** The grid after [self.board[row][col] = value]. *)
Definition grid_set (g : Grid) (row col : nat) (value : Z) : Grid :=
  <[row := <[col := value]> (nth row g [])]> g.

(** Two cells that share a row, a column or an [n x n] box. *)
Definition related (b : SudokuBoard) (p q : nat * nat) : Prop :=
  p.1 = q.1 \/ p.2 = q.2 \/ (p.1 / n b = q.1 / n b /\ p.2 / n b = q.2 / n b).

Definition in_grid (b : SudokuBoard) (p : nat * nat) : Prop :=
  p.1 < board_size b /\ p.2 < board_size b.

(** ** Units: the cells of a row, of a column and of a box *)

Definition cellp (g : Grid) (p : nat * nat) : Z := cell g p.1 p.2.

Definition row_cells (side r : nat) : list (nat * nat) := pair r <$> seq 0 side.

Definition col_cells (side c : nat) : list (nat * nat) :=
  (fun r => (r, c)) <$> seq 0 side.

Definition box_positions (k box_row box_col : nat) : list (nat * nat) :=
  r ← seq box_row k; pair r <$> seq box_col k.

(** A property of the value lists of all rows, columns and boxes, visited
    as [is_valid_solution] visits them. *)
Definition all_units (b : SudokuBoard) (g : Grid) (P : list Z -> bool) : bool :=
  forallb (fun i => P (row_of g i) && P (column b g i)) (seq 0 (board_size b))
  && forallb (fun box_r =>
                forallb (fun box_c => P (box_cells b g box_r box_c))
                        (range_step (board_size b) (n b)))
             (range_step (board_size b) (n b)).

(** The consistency invariant: no row, column or box holds the same
    nonzero value twice. *)
Definition no_duplicates (l : list Z) : bool :=
  bool_decide (NoDup (filter (fun v => v <> 0%Z) l)).

Definition consistent (b : SudokuBoard) (g : Grid) : bool :=
  all_units b g no_duplicates.

(** ** The search as a derivation

    [bt g res g' dn db tr]: a call of [_backtrack] on a board with contents
    [g] returns [res] and leaves the contents [g'], after [dn] increments
    of [nodes_explored], [db] increments of [backtrack_count] and the
    events [tr]; [loop row col candidates ...] is the same for the loop
    over the candidates of the selected cell.  Every run of [_backtrack]
    is such a derivation ([backtrack_runs]); the properties of the search
    are proved by induction on it. *)

Section Search.
Variables (s : SudokuSolver) (b : SudokuBoard).

Definition forward_check_fails (g : Grid) : bool :=
  use_forward_checking s && negb (_is_consistent b g).

Inductive bt : Grid -> bool -> Grid -> nat -> nat -> list event -> Prop :=
| bt_filled g :
    _select_unassigned_variable s b g = None ->
    bt g (is_valid_solution b g) g 1 0 [Node g]
| bt_dead_end g row col :
    _select_unassigned_variable s b g = Some (row, col) ->
    length (get_candidates b g row col) = 0 ->
    bt g false g 1 0 [Node g; DeadEnd row col]
| bt_trials g row col res g' dn db tr :
    _select_unassigned_variable s b g = Some (row, col) ->
    length (get_candidates b g row col) <> 0 ->
    loop row col (get_candidates b g row col) g res g' dn db tr ->
    bt g res g' (S dn) db (Node g :: tr)
with loop : nat -> nat -> list Z -> Grid -> bool -> Grid ->
            nat -> nat -> list event -> Prop :=
| loop_done row col g :
    loop row col [] g false g 0 0 []
| loop_forward row col num rest g res g' dn db tr :
    forward_check_fails (grid_set g row col num) = true ->
    loop row col rest (grid_set (grid_set g row col num) row col 0) res g' dn db tr ->
    loop row col (num :: rest) g res g' dn (S db)
         (Trial row col num (grid_set g row col num)
          :: UndoForward row col (grid_set (grid_set g row col num) row col 0)
          :: tr)
| loop_found row col num rest g g' dn db tr :
    forward_check_fails (grid_set g row col num) = false ->
    bt (grid_set g row col num) true g' dn db tr ->
    loop row col (num :: rest) g true g' dn db
         (Trial row col num (grid_set g row col num) :: tr)
| loop_failed row col num rest g g1 res g' dn1 db1 tr1 dn2 db2 tr2 :
    forward_check_fails (grid_set g row col num) = false ->
    bt (grid_set g row col num) false g1 dn1 db1 tr1 ->
    loop row col rest (grid_set g1 row col 0) res g' dn2 db2 tr2 ->
    loop row col (num :: rest) g res g' (dn1 + dn2) (db1 + S db2)
         (Trial row col num (grid_set g row col num)
          :: tr1 ++ UndoFailed row col (grid_set g1 row col 0) :: tr2).

(** What a run from [st] to [st'] with result [res] satisfies, for a
    derivation [R] of the kind above. *)
Definition run_post
    (R : Grid -> bool -> Grid -> nat -> nat -> list event -> Prop)
    (st : State) (res : bool) (st' : State) : Prop :=
  exists dn db tr,
    wf_board (heap st') b /\
    (forall l, l ∉ board b -> heap st' !! l = heap st !! l) /\
    nodes_explored st' = nodes_explored st + dn /\
    backtrack_count st' = backtrack_count st + db /\
    trace st' = trace st ++ tr /\
    R (view (heap st) b) res (view (heap st') b) dn db tr /\
    (res = false -> view (heap st') b = view (heap st) b).
End Search.

Scheme bt_mut := Minimality for bt Sort Prop
  with loop_mut := Minimality for loop Sort Prop.
Combined Scheme bt_loop_ind from bt_mut, loop_mut.

(** ** Predicates used in the statements *)

(** [wf_board], as a test that can be run. *)
Definition wf_boardb (h : Heap) (b : SudokuBoard) : bool :=
  (0 <? n b) && (board_size b =? n b * n b)
  && bool_decide (NoDup (board b))
  && (length (board b) =? board_size b)
  && forallb (fun l => match h !! l with
                       | Some row => length row =? board_size b
                       | None => false
                       end) (board b).

(** Every cell holds 0 or a value in [1, board_size]. *)
Definition in_range (b : SudokuBoard) (g : Grid) : bool :=
  forallb (fun '(r, c) => (0 <=? cell g r c)%Z && (cell g r c <=? Z.of_nat (board_size b))%Z)
          (positions (board_size b)).

(** The values [1 .. board_size]; a list that holds each of them exactly
    once is a permutation of them. *)
Definition values (b : SudokuBoard) : list Z := Z.of_nat <$> seq 1 (board_size b).

Definition exactly_once (b : SudokuBoard) (l : list Z) : Prop := l ≡ₚ values b.

Definition units_exactly_once (b : SudokuBoard) (g : Grid) : Prop :=
  (forall i, i < board_size b ->
        exactly_once b (row_of g i) /\ exactly_once b (column b g i)) /\
  (forall box_r box_c,
      box_r ∈ range_step (board_size b) (n b) ->
      box_c ∈ range_step (board_size b) (n b) ->
      exactly_once b (box_cells b g box_r box_c)).

(** The grid an event shows, if any. *)
Definition event_grid (e : event) : option Grid :=
  match e with
  | Node g | Trial _ _ _ g | UndoForward _ _ g | UndoFailed _ _ g => Some g
  | DeadEnd _ _ => None
  end.

Definition is_node (e : event) : bool :=
  match e with Node _ => true | _ => false end.

Definition is_undo (e : event) : bool :=
  match e with UndoForward _ _ _ | UndoFailed _ _ _ => true | _ => false end.

Definition is_undo_forward (e : event) : bool :=
  match e with UndoForward _ _ _ => true | _ => false end.

Definition is_dead_end (e : event) : bool :=
  match e with DeadEnd _ _ => true | _ => false end.

(** [F] completes [g]: it keeps the filled cells and fills the empty ones
    with values in [1, board_size]. *)
Definition completes (b : SudokuBoard) (g F : Grid) : Prop :=
  wf_grid b F /\
  forall p, in_grid b p ->
       (cellp g p <> 0%Z -> cellp F p = cellp g p) /\
       (cellp g p = 0%Z -> (1 <= cellp F p <= Z.of_nat (board_size b))%Z).

(** [g] has a completion that [is_valid_solution] accepts. *)
Definition solvable (b : SudokuBoard) (g : Grid) : Prop :=
  exists F, completes b g F /\ is_valid_solution b F = true.


(** ** Example boards *)

(** [SudokuBoard(size).from_list(g)] in the empty heap. *)
Definition load (size : nat) (g : Grid) : Heap * SudokuBoard :=
  let '(h, b) := init ∅ size in
  match from_list h b g with
  | Ok hb => hb
  | Raise _ => (h, b)
  end.

(** The 4x4 puzzle ["1.3...1...4.4.2."] of the test suite. *)
Definition puzzle_4x4 : Grid :=
  [[1; 0; 3; 0]; [0; 0; 1; 0]; [0; 0; 4; 0]; [4; 0; 2; 0]]%Z.

(** A complete 4x4 grid with 5 in the place of 4. *)
Definition grid_with_5 : Grid :=
  [[1; 2; 3; 5]; [3; 5; 1; 2]; [2; 1; 5; 3]; [5; 3; 2; 1]]%Z.

(** A 4x4 grid whose cell (0, 3) has no candidate. *)
Definition dead_end_4x4 : Grid :=
  [[1; 2; 3; 0]; [0; 0; 0; 4]; [0; 0; 0; 0]; [0; 0; 0; 0]]%Z.

(** The puzzle, loaded. *)
Definition example_heap : Heap := (load 2 puzzle_4x4).1.
Definition example_board : SudokuBoard := (load 2 puzzle_4x4).2.

Definition mrv_fc : SudokuSolver := {| use_mrv := true; use_forward_checking := true |}.
Definition plain : SudokuSolver := {| use_mrv := false; use_forward_checking := false |}.



(** What the invariant asks of an event of the search. *)
Definition event_consistent (b : SudokuBoard) (e : event) : Prop :=
  (forall g, event_grid e = Some g -> consistent b g = true) /\
  (forall row col num g', e = Trial row col num g' ->
     exists g, consistent b g = true /\ num ∈ get_candidates b g row col /\
          g' = grid_set g row col num).


Definition is_trial (e : event) : bool :=
  match e with Trial _ _ _ _ => true | _ => false end.

(** The result of [solve] on [dead_end_4x4]. *)
Definition solved_dead_end : option Solved :=
  Eval vm_compute in solve mrv_fc (load 2 dead_end_4x4).1 (load 2 dead_end_4x4).2.

(** The solution of the easy 9x9 puzzle of the test suite. *)
Definition solved_9x9 : Grid :=
  [[5; 3; 4; 6; 7; 8; 9; 1; 2];
   [6; 7; 2; 1; 9; 5; 3; 4; 8];
   [1; 9; 8; 3; 4; 2; 5; 6; 7];
   [8; 5; 9; 7; 6; 1; 4; 2; 3];
   [4; 2; 6; 8; 5; 3; 7; 9; 1];
   [7; 1; 3; 9; 2; 4; 8; 5; 6];
   [9; 6; 1; 5; 3; 7; 2; 8; 4];
   [2; 8; 7; 4; 1; 9; 6; 3; 5];
   [3; 4; 5; 2; 8; 6; 1; 7; 9]]%Z.

(** The order of the scan [for r in range(side): for c in range(side)]. *)
Definition row_major_lt (p q : nat * nat) : Prop :=
  p.1 < q.1 \/ (p.1 = q.1 /\ p.2 < q.2).

(** [len(board.get_candidates(r, c))] *)
Definition candidate_count (b : SudokuBoard) (g : Grid) (p : nat * nat) : nat :=
  length (get_candidates b g p.1 p.2).

(** An empty cell without candidates. *)
Definition dead_cell (b : SudokuBoard) (g : Grid) (p : nat * nat) : Prop :=
  cellp g p = 0%Z /\ candidate_count b g p = 0.

#[global] Instance dead_cell_dec b g p : Decision (dead_cell b g p).
Proof. unfold dead_cell. apply _. Defined.

(** The position Python reads for an index [i] in [-side, side). *)
Definition wrap (side : nat) (i : Z) : nat :=
  Z.to_nat (if (i <? 0)%Z then Z.of_nat side + i else i).

(** A 4x4 grid with a 5 in it. *)
Definition grid_out_of_range : Grid :=
  [[5; 0; 0; 0]; [0; 0; 0; 0]; [0; 0; 0; 0]; [0; 0; 0; 0]]%Z.

(** ** Loading a string

    A Python [str] whose code points are all below 256 is a Rocq string,
    one [ascii] per code point.  [isalnum] and [int36] are [str.isalnum]
    and [int(c, 36)] on one such character: besides the ASCII digits and
    letters, [isalnum] holds for the Latin-1 letters and numeric signs
    (the feminine and masculine ordinals, the superscripts 1 to 3, micro,
    the fractions, and the accented letters), none of which [int] reads. *)

Definition code (c : ascii) : nat := nat_of_ascii c.

Definition between (lo hi k : nat) : bool := (lo <=? k) && (k <=? hi).

Definition is_ascii (c : ascii) : bool := code c <? 128.

Definition isalnum (c : ascii) : bool :=
  let k := code c in
  between 48 57 k || between 65 90 k || between 97 122 k
  || (k =? 170) || (k =? 178) || (k =? 179) || (k =? 181) || (k =? 185) || (k =? 186)
  || between 188 190 k || between 192 214 k || between 216 246 k || between 248 255 k.

Definition int36 (c : ascii) : result Z :=
  let k := code c in
  if between 48 57 k then Ok (Z.of_nat k - 48)%Z
  else if between 65 90 k then Ok (Z.of_nat k - 55)%Z
  else if between 97 122 k then Ok (Z.of_nat k - 87)%Z
  else Raise (ValueError_literal c).

(** [puzzle.replace(".", "0").replace(" ", "").replace("\n", "")] *)
Definition strip (puzzle : list ascii) : list ascii :=
  List.filter (fun c => negb (Ascii.eqb c " ") && negb (Ascii.eqb c "010"))
              (map (fun c => if Ascii.eqb c "." then "0"%char else c) puzzle).

(** [int(puzzle[idx], 36) if puzzle[idx].isalnum() else 0] *)
Definition read_digit (c : ascii) : result Z :=
  if isalnum c then int36 c else Ok 0%Z.

(** The two loops of [from_string] over the cells, on the stripped
    string; the rows of the board are written in place, and the cells
    written before a failure stay written. *)
Fixpoint fill (b : SudokuBoard) (puzzle : list ascii) (cells : list (nat * nat))
    (h : Heap) : Heap * result unit :=
  match cells with
  | [] => (h, Ok tt)
  | (i, j) :: rest =>
      match puzzle !! (i * board_size b + j) with
      | None => (h, Raise IndexError)
      | Some ch =>
          match read_digit ch with
          | Raise e => (h, Raise e)
          | Ok val =>
              if (val >? Z.of_nat (board_size b))%Z
              then (h, Raise (ValueError_value val))
              else fill b puzzle rest (write h b i j val)
          end
      end
  end.

Definition from_string (h : Heap) (b : SudokuBoard) (puzzle : string)
  : Heap * result unit :=
  let puzzle := strip (list_ascii_of_string puzzle) in
  if negb (length puzzle =? board_size b * board_size b)
  then (h, Raise ValueError_length)
  else fill b puzzle (positions (board_size b)) h.

(** The value of a character of an ASCII string: its base-36 digit value,
    0 for any other character. *)
Definition digit_value (c : ascii) : Z :=
  match read_digit c with
  | Ok v => v
  | Raise _ => 0%Z
  end.

(** A 4x4 puzzle that starts with the letter e with an acute accent
    (code point 233). *)
Definition puzzle_with_accent : string :=
  String "233" "...............".

(** The 4x4 puzzle of the test suite with the section sign (code point
    167, not alphanumeric) in the place of its first character. *)
Definition puzzle_with_section_sign : string :=
  String "167" ".3...1...4.4.2.".

(** What a caller sees of a [solve] call: the flag, the contents of the
    returned board, [nodes_explored] and [backtrack_count]. *)
Definition outcome (s : SudokuSolver) (h : Heap) (b : SudokuBoard)
  : option (bool * option Grid * nat * nat) :=
  match solve s h b with
  | Some r =>
      Some (success r, (fun wb => view (heap (final r)) wb) <$> solved_board r,
            nodes_explored (final r), backtrack_count (final r))
  | None => None
  end.

(** The easy 9x9 puzzle of the test suite. *)
Definition easy_9x9 : string :=
  "53..7....6..195....98....6.8...6...34..8.3..17...2...6.6....28....419..5....8..79".

(** ** Checking a placement *)

(** [is_valid]: [num in self.board[row]], then the column, then the box. *)
Definition is_valid (b : SudokuBoard) (g : Grid) (row col : nat) (num : Z) : bool :=
  if bool_decide (num ∈ row_of g row) then false
  else if existsb (fun v => (v =? num)%Z) (column b g col) then false
  else
    let '(box_row, box_col) := get_box_index b row col in
    negb (existsb (fun v => (v =? num)%Z) (box_cells b g box_row box_col)).

(** ** Writing a board as a string *)

(** [chr(k)], for a code point below 256: the strings here hold no other
    character ([None] above that; Python's [chr] itself fails only on a
    negative number or one above 0x10FFFF). *)
Definition chr (k : Z) : option ascii :=
  if ((0 <=? k) && (k <? 256))%Z then Some (ascii_of_nat (Z.to_nat k)) else None.

(** [str(v)] for an integer: its decimal numeral, with a minus sign for a
    negative one. *)
Definition str (v : Z) : string := NilZero.string_of_int (Z.to_int v).

(** The body of the inner loop of [to_string], [result += ...], with
    [result] as the loop state. *)
Definition to_string_step (result : option string) (val : Z) : option string :=
  result ← result;
  if (val =? 0)%Z then Some (result ++ ".")%string
  else if (val <? 10)%Z then Some (result ++ str val)%string
  else ch ← chr (55 + val); Some (result ++ String ch "")%string.

(** [to_string]: the two loops [for row in self.board: for val in row]. *)
Definition to_string (g : Grid) : option string :=
  foldl (fun result row => foldl to_string_step result row) (Some ""%string) g.

(** [_format_value] of the solver ([ord("A")] is 65). *)
Definition _format_value (value : Z) (n : nat) : option string :=
  if (value =? 0)%Z then Some "."%string
  else if (value <=? 9)%Z then Some (str value)
  else ch ← chr (65 + value - 10); Some (String ch "").

(** The character [to_string] writes for a value in [0, 200]. *)
Definition cell_char (v : Z) : ascii :=
  if (v =? 0)%Z then "."%char
  else if (v <? 10)%Z then ascii_of_nat (Z.to_nat (48 + v))
  else ascii_of_nat (Z.to_nat (55 + v)).

(** The character [from_string] reads where [to_string] wrote
    [cell_char v]: the dot has become a zero. *)
Definition stripped_char (v : Z) : ascii :=
  if (v =? 0)%Z then "0"%char else cell_char v.

(** The empty 36x36 board with 36 written into its first cell. *)
Definition board_36x36 : Heap * SudokuBoard :=
  let '(h, b) := init ∅ 6 in (write h b 0 0 36%Z, b).

(** The text of the cells with [_format_value], one after the other. *)
Definition format_cells (vals : list Z) (n : nat) : option string :=
  foldl (fun result val =>
           result ← result; text ← _format_value val n; Some (result ++ text)%string)
        (Some ""%string) vals.

(** ** Filtering the explanation log ([utils.py])

    The log is a list of strings. *)

(** [needle in hay] for two strings. *)
Fixpoint contains (needle hay : string) : bool :=
  String.prefix needle hay
  || match hay with
     | EmptyString => false
     | String _ rest => contains needle rest
     end.

(** A bound [i] of a slice of a list of length [len]: a negative bound
    counts from the end, and a bound beyond an end is that end. *)
Definition slice_bound (len : nat) (i : Z) : nat :=
  if (i <? 0)%Z then Z.to_nat (Z.max 0 (Z.of_nat len + i))
  else Nat.min (Z.to_nat i) len.

(** [l[start:stop]]; [None] is a bound that is left out. *)
Definition slice {A} (l : list A) (start stop : option Z) : list A :=
  let lo := match start with Some i => slice_bound (length l) i | None => 0 end in
  let hi := match stop with Some i => slice_bound (length l) i | None => length l end in
  drop lo (take hi l).

(** [enumerate(l, start=start)] *)
Definition enumerate {A} (l : list A) (start : nat) : list (nat * A) :=
  zip (seq start (length l)) l.

(** [f"... [Milestone: Step {i+1}] ..."] *)
Definition milestone (i : nat) : string :=
  ("... [Milestone: Step " ++ str (Z.of_nat i + 1) ++ "] ...")%string.

(** The body of the loop of [filter_key_steps]; the loop state is
    [key_steps] and [backtrack_count]. *)
Definition filter_step (max_backtracks_to_show : nat)
    (st : list string * nat) (item : nat * string) : list string * nat :=
  let '(key_steps, backtrack_count) := st in
  let '(i, exp) := item in
  if contains "[MRV]" exp then (key_steps ++ [exp], backtrack_count)
  else if contains "Forward checking failed" exp then (key_steps ++ [exp], backtrack_count)
  else if contains "Backtracking" exp then
    let backtrack_count := backtrack_count + 1 in
    if backtrack_count <=? max_backtracks_to_show
    then (key_steps ++ [exp], backtrack_count)
    else (key_steps, backtrack_count)
  else if i mod 50 =? 0 then (key_steps ++ [milestone i], backtrack_count)
  else (key_steps, backtrack_count).

Definition filter_key_steps (explanations : list string) : list string :=
  if length explanations <=? 100 then explanations
  else
    let max_backtracks_to_show := 30 in
    let init_steps := Nat.min 5 (length explanations) in
    let key_steps := slice explanations None (Some (Z.of_nat init_steps)) in
    let '(key_steps, _) :=
      foldl (filter_step max_backtracks_to_show) (key_steps, 0)
            (enumerate (slice explanations (Some (Z.of_nat init_steps)) (Some (-5)%Z))
                       init_steps) in
    key_steps ++ slice explanations (Some (-5)%Z) None.

(** The entries between the first five and the last five. *)
Definition middle (explanations : list string) : list string :=
  drop 5 (take (length explanations - 5) explanations).

(** An entry that is always kept: an MRV selection or a forward-checking
    failure. *)
Definition key_line (exp : string) : bool :=
  contains "[MRV]" exp || contains "Forward checking failed" exp.

(** An entry that counts towards the limit on backtracks. *)
Definition backtrack_line (exp : string) : bool :=
  negb (key_line exp) && contains "Backtracking" exp.

(** A log of 120 entries: decisions and backtracks in turn. *)
Definition long_log : list string :=
  mjoin (replicate 40 ["[MRV] Selected cell"; "  <- Backtracking from"; "-> Trying"]%string).

(** ** The puzzle generator ([generator.py])

    The generator draws from [random]: it shuffles lists and draws a
    share of the cells to keep.  The state of the random number generator
    is a value of a type [rng], threaded through the calls;
    [shuffle g l] is the list [random.shuffle] leaves in place of [l] and
    the next state, and [uniform_cells g total lo hi] is
    [int(total * random.uniform(lo / 100, hi / 100))] and the next state.
    Nothing else is known of them than [shuffle] permuting its list. *)

Module Generator.

Record SudokuGenerator := {
  n : nat;
  board_size : nat
}.

(** [SudokuGenerator(n)] *)
Definition __init__ (size : nat) : SudokuGenerator :=
  {| n := size; board_size := size * size |}.

(** What a method of the generator ends with: a value, an exception of a
    board method, or the [Exception] of [_generate_solution]. *)
Inductive generated (A : Type) :=
| Generated (a : A)
| Failed (e : error)
| GaveUp.                      (* "Failed to generate solution after 10 attempts" *)
Arguments Generated {A} a.
Arguments Failed {A} e.
Arguments GaveUp {A}.

Record Stats := {
  stats_board_size : nat;
  stats_n : nat;
  difficulty : string;
  clues : nat;
  empty_cells : Z
}.

Section Random.
Variable rng : Type.
Variable shuffle : forall A : Type, rng -> list A -> list A * rng.
Variable uniform_cells : rng -> nat -> nat -> nat -> Z * rng.

(** The two inner loops of [_fill_diagonal_boxes] over the cells of a
    box, with [idx] as the loop state. *)
Fixpoint fill_cells (b : SudokuBoard) (values : list Z) (cells : list (nat * nat))
    (idx : Z) (h : Heap) : result Heap :=
  match cells with
  | [] => Ok h
  | (r, c) :: rest =>
      match py_getitem values idx with
      | None => Raise IndexError
      | Some v =>
          match set h b (Z.of_nat r) (Z.of_nat c) v with
          | Raise e => Raise e
          | Ok h' => fill_cells b values rest (idx + 1)%Z h'
          end
      end
  end.

(** The loop [for box_idx in range(self.n)]. *)
Fixpoint fill_boxes (self : SudokuGenerator) (b : SudokuBoard) (boxes : list nat)
    (g : rng) (h : Heap) : result (Heap * rng) :=
  match boxes with
  | [] => Ok (h, g)
  | box_idx :: rest =>
      let start_row := box_idx * n self in
      let start_col := box_idx * n self in
      let values := Z.of_nat <$> seq 1 (board_size self) in
      let '(values, g) := shuffle Z g values in
      match fill_cells b values (box_positions (n self) start_row start_col) 0%Z h with
      | Raise e => Raise e
      | Ok h' => fill_boxes self b rest g h'
      end
  end.

Definition _fill_diagonal_boxes (self : SudokuGenerator) (b : SudokuBoard)
    (g : rng) (h : Heap) : result (Heap * rng) :=
  fill_boxes self b (seq 0 (n self)) g h.

(** The loop [for attempt in range(max_attempts)] of
    [_generate_solution]; [None] only if [solve] runs out of recursion
    depth, which it does not ([solve_total]). *)
Fixpoint attempts (self : SudokuGenerator) (todo : list nat) (g : rng) (h : Heap)
  : option (generated (Heap * SudokuBoard * rng)) :=
  match todo with
  | [] => Some GaveUp
  | attempt :: rest =>
      let '(h, b) := init h (n self) in
      match _fill_diagonal_boxes self b g h with
      | Raise e => Some (Failed e)
      | Ok (h, g) =>
          match solve mrv_fc h b with
          | None => None
          | Some r =>
              match success r, solved_board r with
              | true, Some solution => Some (Generated (heap (final r), solution, g))
              | _, _ => attempts self rest g (heap (final r))
              end
          end
      end
  end.

Definition _generate_solution (self : SudokuGenerator) (g : rng) (h : Heap)
  : option (generated (Heap * SudokuBoard * rng)) :=
  let max_attempts := 10 in
  attempts self (seq 0 max_attempts) g h.

(** The loop [for row, col in all_positions] of [_remove_cells], with
    [removed] as the loop state. *)
Fixpoint remove_loop (puzzle : SudokuBoard) (cells_to_remove : Z)
    (all_positions : list (nat * nat)) (removed : Z) (h : Heap) : result Heap :=
  match all_positions with
  | [] => Ok h
  | (row, col) :: rest =>
      if (removed >=? cells_to_remove)%Z then Ok h
      else
        match get h puzzle (Z.of_nat row) (Z.of_nat col) with
        | Raise e => Raise e
        | Ok value =>
            match set h puzzle (Z.of_nat row) (Z.of_nat col) 0%Z with
            | Raise e => Raise e
            | Ok h' => remove_loop puzzle cells_to_remove rest (removed + 1)%Z h'
            end
        end
  end.

(** [int(total_cells * random.uniform(lo, hi))] for the bounds of the
    difficulty. *)
Definition draw_cells_to_keep (self : SudokuGenerator) (difficulty : string)
    (total_cells : nat) (g : rng) : Z * rng :=
  if board_size self =? 16 then
    if String.eqb difficulty "easy" then uniform_cells g total_cells 60 70
    else if String.eqb difficulty "hard" then uniform_cells g total_cells 45 55
    else uniform_cells g total_cells 50 60
  else
    if String.eqb difficulty "easy" then uniform_cells g total_cells 50 60
    else if String.eqb difficulty "hard" then uniform_cells g total_cells 25 35
    else uniform_cells g total_cells 35 45.

(** [cells_to_keep], with the minimum for the 4x4 and the 9x9 boards. *)
Definition cells_to_keep (self : SudokuGenerator) (difficulty : string)
    (total_cells : nat) (g : rng) : Z * rng :=
  let '(cells_to_keep, g) := draw_cells_to_keep self difficulty total_cells g in
  (if board_size self =? 4 then Z.max cells_to_keep 6
   else if board_size self =? 9 then Z.max cells_to_keep 17
   else cells_to_keep,
   g).

Definition _remove_cells (self : SudokuGenerator) (solution : SudokuBoard)
    (difficulty : string) (g : rng) (h : Heap) : result (Heap * SudokuBoard * rng) :=
  let '(h, puzzle) := copy h solution in
  let total_cells := board_size self * board_size self in
  let '(cells_to_keep, g) := cells_to_keep self difficulty total_cells g in
  let cells_to_remove := (Z.of_nat total_cells - cells_to_keep)%Z in
  let all_positions := positions (board_size self) in
  let '(all_positions, g) := shuffle (nat * nat) g all_positions in
  match remove_loop puzzle cells_to_remove all_positions 0%Z h with
  | Raise e => Raise e
  | Ok h => Ok (h, puzzle, g)
  end.

Definition generate (self : SudokuGenerator) (difficulty : string) (g : rng) (h : Heap)
  : option (generated (Heap * SudokuBoard * rng)) :=
  match _generate_solution self g h with
  | None => None
  | Some (Generated (h, solution, g)) =>
      match _remove_cells self solution difficulty g h with
      | Raise e => Some (Failed e)
      | Ok r => Some (Generated r)
      end
  | Some (Failed e) => Some (Failed e)
  | Some GaveUp => Some GaveUp
  end.

(** The count [sum(1 for r ... for c ... if not puzzle.is_empty(r, c))]. *)
Fixpoint count_clues (puzzle : SudokuBoard) (h : Heap) (cells : list (nat * nat))
  : result nat :=
  match cells with
  | [] => Ok 0
  | (r, c) :: rest =>
      match is_empty h puzzle (Z.of_nat r) (Z.of_nat c) with
      | Raise e => Raise e
      | Ok empty =>
          match count_clues puzzle h rest with
          | Raise e => Raise e
          | Ok k => Ok (if negb empty then 1 + k else k)
          end
      end
  end.

Definition generate_with_stats (self : SudokuGenerator) (difficulty : string)
    (g : rng) (h : Heap) : option (generated (Heap * SudokuBoard * rng * Stats)) :=
  match generate self difficulty g h with
  | None => None
  | Some (Generated (h, puzzle, g)) =>
      match count_clues puzzle h (positions (board_size self)) with
      | Raise e => Some (Failed e)
      | Ok clues =>
          Some (Generated
                  (h, puzzle, g,
                   {| stats_board_size := board_size self;
                      stats_n := n self;
                      difficulty := difficulty;
                      clues := clues;
                      empty_cells :=
                        (Z.of_nat (board_size self) * Z.of_nat (board_size self)
                         - Z.of_nat clues)%Z |}))
      end
  | Some (Failed e) => Some (Failed e)
  | Some GaveUp => Some GaveUp
  end.

End Random.
End Generator.

(** A board without a filled cell. *)
Definition is_blank (b : SudokuBoard) (g : Grid) : bool :=
  forallb (fun '(r, c) => (cell g r c =? 0)%Z) (positions (board_size b)).

(** A generator that leaves every list in its order and keeps the lower
    share of the cells. *)
Definition shuffle_id (A : Type) (g : unit) (l : list A) : list A * unit := (l, g).

Definition uniform_low (g : unit) (total lo hi : nat) : Z * unit :=
  (Z.of_nat (total * lo / 100), g).

(** The solution of the 4x4 puzzle of the test suite. *)
Definition solved_4x4 : Grid :=
  [[1; 2; 3; 4]; [3; 4; 1; 2]; [2; 1; 4; 3]; [4; 3; 2; 1]]%Z.

(** ** Printing a board ([__str__]) *)

(** [s * k] for a string [s] *)
Definition times (s : string) (k : nat) : string := String.concat "" (replicate k s).

(** [h_line]; [sep.join(l)] is [String.concat sep l]. *)
Definition h_line (b : SudokuBoard) : string :=
  ("+" ++ String.concat "+" (replicate (n b) (times "-" (n b * 2 + 1))) ++ "+")%string.

(** The body of the inner loop of [__str__], with [row_str] as the loop
    state. *)
Definition row_step (b : SudokuBoard) (g : Grid) (i : nat)
    (row_str : option string) (j : nat) : option string :=
  row_str ← row_str;
  let row_str :=
    if (j mod n b =? 0) && (0 <? j) then (row_str ++ "|")%string else row_str in
  let val := cell g i j in
  if (val =? 0)%Z then Some (row_str ++ " .")%string
  else if (val <? 10)%Z then Some (row_str ++ (" " ++ str val))%string
  else ch ← chr (55 + val); Some (row_str ++ (" " ++ String ch ""))%string.

(** The body of the outer loop, with [lines] as the loop state. *)
Definition lines_step (b : SudokuBoard) (g : Grid)
    (lines : option (list string)) (i : nat) : option (list string) :=
  lines ← lines;
  let lines := if i mod n b =? 0 then lines ++ [h_line b] else lines in
  row_str ← foldl (row_step b g i) (Some "|"%string) (seq 0 (board_size b));
  Some (lines ++ [(row_str ++ " |")%string]).

(** The list [lines] that [__str__] joins. *)
Definition str_lines (b : SudokuBoard) (g : Grid) : option (list string) :=
  lines ← foldl (lines_step b g) (Some []) (seq 0 (board_size b));
  Some (lines ++ [h_line b]).

Definition __str__ (b : SudokuBoard) (g : Grid) : option string :=
  String.concat (String "010" "") <$> str_lines b g.

(** * Properties *)

(** ** Python indexing *)

Lemma py_index_nonneg len i :
  i < len -> py_index len (Z.of_nat i) = Some i.
Proof.
  intros Hi. unfold py_index.
  destruct (Z.leb_spec 0 (Z.of_nat i)); [|lia].
  destruct (Z.ltb_spec (Z.of_nat i) (Z.of_nat len)); [|lia].
  simpl. by rewrite Nat2Z.id.
Qed.

Lemma py_index_negative len (i : Z) :
  (- Z.of_nat len <= i < 0)%Z ->
  py_index len i = Some (len - Z.to_nat (- i)).
Proof.
  intros Hi. unfold py_index.
  destruct (Z.leb_spec 0 i); [lia|]. simpl.
  destruct (Z.leb_spec (- Z.of_nat len) i); [|lia].
  destruct (Z.ltb_spec i 0); [|lia].
  simpl. f_equal. lia.
Qed.

Lemma py_index_too_large len (i : Z) :
  (Z.of_nat len <= i)%Z -> py_index len i = None.
Proof.
  intros Hi. unfold py_index.
  destruct (Z.ltb_spec i (Z.of_nat len)); [lia|].
  rewrite andb_false_r.
  destruct (Z.ltb_spec i 0); [lia|]. by rewrite andb_false_r.
Qed.

Lemma py_index_too_small len (i : Z) :
  (i < - Z.of_nat len)%Z -> py_index len i = None.
Proof.
  intros Hi. unfold py_index.
  destruct (Z.leb_spec 0 i); [lia|]. simpl.
  destruct (Z.leb_spec (- Z.of_nat len) i); [lia|]. done.
Qed.

(** ** Allocation *)

Lemma alloc_fresh (h : Heap) row l h' :
  alloc h row = (l, h') -> h !! l = None /\ h' = <[l := row]> h.
Proof.
  unfold alloc. intros [= <- <-]. split; [|done].
  apply not_elem_of_dom. apply is_fresh.
Qed.

Lemma alloc_rows_spec rows : forall (h : Heap) ls h',
  alloc_rows h rows = (ls, h') ->
  NoDup ls /\
  (forall l, l ∈ ls -> h !! l = None) /\
  (forall l, l ∉ ls -> h' !! l = h !! l) /\
  Forall2 (fun l row => h' !! l = Some row) ls rows.
Proof.
  induction rows as [|row rest IH]; intros h ls h' Hal; cbn [alloc_rows] in Hal.
  - injection Hal as <- <-. repeat split; try constructor.
    intros l Hl. by apply elem_of_nil in Hl.
  - destruct (alloc h row) as [l h1] eqn:Ha.
    destruct (alloc_rows h1 rest) as [ls' h2] eqn:Hr.
    injection Hal as <- <-.
    apply alloc_fresh in Ha as [Hl ->].
    destruct (IH _ _ _ Hr) as (Hnd & Hnew & Hold & Hall).
    assert (Hlls : l ∉ ls').
    { intros Hin. apply Hnew in Hin. by rewrite lookup_insert_eq in Hin. }
    repeat split.
    + by constructor.
    + intros l' [->|Hin]%elem_of_cons; [done|].
      apply Hnew in Hin. destruct (decide (l = l')) as [->|Hne]; [done|].
      by rewrite lookup_insert_ne in Hin.
    + intros l' Hnin. apply not_elem_of_cons in Hnin as [Hne Hnin].
      rewrite (Hold _ Hnin). by rewrite lookup_insert_ne.
    + constructor; [|done]. rewrite (Hold _ Hlls). by rewrite lookup_insert_eq.
Qed.

Lemma alloc_rows_old rows (h : Heap) ls h' l :
  alloc_rows h rows = (ls, h') -> is_Some (h !! l) -> h' !! l = h !! l.
Proof.
  intros Hal Hl. destruct (alloc_rows_spec _ _ _ _ Hal) as (_ & Hnew & Hold & _).
  apply Hold. intros Hin. apply Hnew in Hin. rewrite Hin in Hl. by destruct Hl.
Qed.

Lemma alloc_rows_view rows (h : Heap) ls h' :
  alloc_rows h rows = (ls, h') -> (fun l => h' !!! l) <$> ls = rows.
Proof.
  intros Hal. destruct (alloc_rows_spec _ _ _ _ Hal) as (_ & _ & _ & Hall).
  clear Hal. induction Hall as [|l row ls rows Hl _ IH]; [done|].
  rewrite fmap_cons, IH. f_equal. by rewrite lookup_total_alt, Hl.
Qed.

(** ** Well-formed boards and their views *)

Lemma view_wf h b : wf_board h b -> wf_grid b (view h b).
Proof.
  intros (_ & _ & _ & Hlen & Hrows). split.
  - unfold view. by rewrite length_fmap.
  - unfold view. apply Forall_fmap. eapply Forall_impl; [exact Hrows|].
    intros l (row & Hl & Hr). simpl. by rewrite lookup_total_alt, Hl.
Qed.

Lemma view_ext h h' b :
  (forall l, l ∈ board b -> h' !! l = h !! l) -> view h' b = view h b.
Proof.
  intros Heq. unfold view. apply list_fmap_ext. intros i l Hl.
  rewrite !lookup_total_alt, Heq; [done|]. by eapply list_elem_of_lookup_2.
Qed.

Lemma wf_board_ext h h' b :
  (forall l, l ∈ board b -> h' !! l = h !! l) -> wf_board h b -> wf_board h' b.
Proof.
  intros Heq (Hn & Hs & Hnd & Hlen & Hrows). repeat split; try done.
  apply Forall_forall. intros l Hl.
  rewrite Forall_forall in Hrows. rewrite Heq by done. by apply Hrows.
Qed.

Lemma init_wf h size h' b :
  0 < size -> init h size = (h', b) ->
  wf_board h' b /\ n b = size /\
  (forall l, is_Some (h !! l) -> h' !! l = h !! l) /\
  (forall l, l ∈ board b -> h !! l = None).
Proof.
  intros Hsz. unfold init.
  destruct (alloc_rows _ _) as [ls h1] eqn:Hal. intros [= <- <-].
  destruct (alloc_rows_spec _ _ _ _ Hal) as (Hnd & Hnew & Hold & Hall).
  pose proof (Forall2_length _ _ _ Hall) as Hlen. rewrite length_replicate in Hlen.
  repeat split; simpl; try done.
  - apply Forall_forall. intros l Hl.
    apply list_elem_of_lookup in Hl as [i Hi].
    destruct (Forall2_lookup_l _ _ _ _ _ Hall Hi) as (row & Hrow & Hlk).
    exists row. split; [done|].
    apply lookup_replicate in Hrow as [-> _]. by rewrite length_replicate.
  - intros l Hl. by eapply alloc_rows_old.
Qed.

(** ** Cells of a grid and single-cell updates *)

Lemma cell_lookup (g : Grid) r c row :
  g !! r = Some row -> cell g r c = default 0%Z (row !! c).
Proof.
  intros Hr. unfold cell. rewrite !nth_lookup, Hr. done.
Qed.

Lemma wf_grid_row b (g : Grid) r :
  wf_grid b g -> r < board_size b ->
  exists row, g !! r = Some row /\ length row = board_size b.
Proof.
  intros [Hlen Hrows] Hr.
  destruct (lookup_lt_is_Some_2 g r) as [row Hrow]; [lia|].
  exists row. split; [done|].
  rewrite Forall_forall in Hrows. apply Hrows. by eapply list_elem_of_lookup_2.
Qed.

Lemma grid_set_wf b g r c v :
  wf_grid b g -> r < board_size b -> wf_grid b (grid_set g r c v).
Proof.
  intros Hwf Hr. destruct (wf_grid_row _ _ _ Hwf Hr) as (row & Hrow & Hlen).
  destruct Hwf as [Hg Hrows]. unfold grid_set. split.
  - by rewrite length_insert.
  - apply Forall_insert; [done|]. rewrite length_insert.
    by rewrite nth_lookup, Hrow.
Qed.

Lemma cell_grid_set b g r c v r' c' :
  wf_grid b g -> r < board_size b -> c < board_size b ->
  cell (grid_set g r c v) r' c' =
  if decide (r' = r /\ c' = c) then v else cell g r' c'.
Proof.
  intros Hwf Hr Hc. destruct (wf_grid_row _ _ _ Hwf Hr) as (row & Hrow & Hlen).
  unfold grid_set. rewrite nth_lookup, Hrow. simpl.
  destruct (decide (r' = r)) as [->|Hne].
  - erewrite cell_lookup; [|apply list_lookup_insert_eq; by eapply lookup_lt_Some].
    destruct (decide (c' = c)) as [->|Hnc].
    + rewrite list_lookup_insert_eq by lia. by rewrite decide_True.
    + rewrite list_lookup_insert_ne by done. rewrite decide_False by tauto.
      by erewrite cell_lookup.
  - rewrite decide_False by tauto. unfold cell.
    rewrite !(nth_lookup _ r'). by rewrite list_lookup_insert_ne.
Qed.

Lemma cell_grid_set_eq b g r c v :
  wf_grid b g -> r < board_size b -> c < board_size b ->
  cell (grid_set g r c v) r c = v.
Proof. intros. erewrite cell_grid_set by done. by rewrite decide_True. Qed.

Lemma cell_grid_set_ne b g r c v r' c' :
  wf_grid b g -> r < board_size b -> c < board_size b ->
  (r', c') <> (r, c) -> cell (grid_set g r c v) r' c' = cell g r' c'.
Proof.
  intros ??? Hne. erewrite cell_grid_set by done.
  rewrite decide_False; [done|]. intros [-> ->]. done.
Qed.

(** Two well-formed grids with the same cells are equal. *)
Lemma grid_ext b (g g' : Grid) :
  wf_grid b g -> wf_grid b g' ->
  (forall r c, r < board_size b -> c < board_size b -> cell g r c = cell g' r c) ->
  g = g'.
Proof.
  intros Hwf Hwf' Hcell. apply list_eq_same_length with (board_size b);
    [apply Hwf' | apply Hwf |].
  intros r row row' Hr Hrow Hrow'.
  destruct (wf_grid_row _ _ _ Hwf Hr) as (x & Hx & Hlx).
  destruct (wf_grid_row _ _ _ Hwf' Hr) as (x' & Hx' & Hlx').
  assert (x = row) by congruence. assert (x' = row') by congruence. subst.
  apply list_eq_same_length with (board_size b); [done..|].
  intros c v v' Hc Hv Hv'.
  specialize (Hcell r c Hr Hc).
  rewrite (cell_lookup _ _ _ _ Hrow), (cell_lookup _ _ _ _ Hrow'), Hv, Hv' in Hcell.
  done.
Qed.

Lemma grid_set_same b g r c :
  wf_grid b g -> r < board_size b -> c < board_size b ->
  grid_set g r c (cell g r c) = g.
Proof.
  intros Hwf Hr Hc. apply (grid_ext b); [by apply grid_set_wf | done |].
  intros r' c' _ _. erewrite cell_grid_set by done.
  case_decide as H; [by destruct H as [-> ->] | done].
Qed.

Lemma grid_set_twice b g r c v w :
  wf_grid b g -> r < board_size b -> c < board_size b ->
  grid_set (grid_set g r c v) r c w = grid_set g r c w.
Proof.
  intros Hwf Hr Hc.
  apply (grid_ext b); [by repeat apply grid_set_wf | by apply grid_set_wf |].
  intros r' c' _ _. erewrite !cell_grid_set by (done || by apply grid_set_wf).
  by case_decide.
Qed.

(** Undoing a trial assignment of an empty cell gives the grid back. *)
Lemma grid_set_undo b g r c v :
  wf_grid b g -> r < board_size b -> c < board_size b ->
  cell g r c = 0%Z ->
  grid_set (grid_set g r c v) r c 0 = g.
Proof.
  intros Hwf Hr Hc H0. erewrite grid_set_twice by done.
  rewrite <- H0. by eapply grid_set_same.
Qed.

(** ** Writes through the heap *)

Lemma wf_board_row h b r :
  wf_board h b -> r < board_size b ->
  exists l row, board b !! r = Some l /\ h !! l = Some row /\ length row = board_size b.
Proof.
  intros (_ & _ & _ & Hlen & Hrows) Hr.
  destruct (lookup_lt_is_Some_2 (board b) r) as [l Hl]; [lia|].
  rewrite Forall_forall in Hrows.
  destruct (Hrows l) as (row & Hrow & Hlr); [by eapply list_elem_of_lookup_2|].
  by exists l, row.
Qed.

Lemma view_lookup h b r l :
  board b !! r = Some l -> view h b !! r = Some (h !!! l).
Proof. intros Hl. unfold view. by rewrite list_lookup_fmap, Hl. Qed.

Lemma write_frame h b r c v l :
  l ∉ board b -> write h b r c v !! l = h !! l.
Proof.
  intros Hl. unfold write. destruct (board b !! r) as [l'|] eqn:Hr; [|done].
  rewrite lookup_insert_ne; [done|]. intros ->.
  apply Hl. by eapply list_elem_of_lookup_2.
Qed.

Lemma view_write h b r c v :
  wf_board h b -> r < board_size b ->
  view (write h b r c v) b = grid_set (view h b) r c v.
Proof.
  intros Hwf Hr. destruct (wf_board_row _ _ _ Hwf Hr) as (l & row & Hl & Hrow & Hlen).
  destruct Hwf as (_ & _ & Hnd & Hblen & _).
  unfold write, grid_set. rewrite Hl.
  rewrite nth_lookup, (view_lookup _ _ _ _ Hl). simpl.
  apply list_eq. intros i.
  destruct (decide (i = r)) as [->|Hne].
  - rewrite list_lookup_insert_eq by (unfold view; rewrite length_fmap; lia).
    rewrite (view_lookup _ _ _ _ Hl). by rewrite lookup_total_insert_eq.
  - rewrite list_lookup_insert_ne by done.
    unfold view. rewrite !list_lookup_fmap.
    destruct (board b !! i) as [l'|] eqn:Hi; [|done]. simpl. f_equal.
    rewrite lookup_total_insert_ne; [done|]. intros ->.
    apply Hne. symmetry. by eapply NoDup_lookup.
Qed.

Lemma write_wf h b r c v : wf_board h b -> wf_board (write h b r c v) b.
Proof.
  intros Hwf. pose proof Hwf as (Hn & Hs & Hnd & Hlen & Hrows).
  repeat split; try done.
  apply Forall_forall. intros l Hl.
  rewrite Forall_forall in Hrows. destruct (Hrows l Hl) as (row & Hrow & Hlr).
  unfold write. destruct (board b !! r) as [l'|] eqn:Hr; [|by exists row].
  destruct (decide (l' = l)) as [->|Hne].
  - rewrite lookup_insert_eq. eexists. split; [done|].
    by rewrite length_insert, lookup_total_alt, Hrow.
  - rewrite lookup_insert_ne by done. by exists row.
Qed.

(** On indices in range the public accessors are [cell] and [write]. *)
Lemma get_in_range h b r c :
  wf_board h b -> r < board_size b -> c < board_size b ->
  get h b (Z.of_nat r) (Z.of_nat c) = Ok (cell (view h b) r c).
Proof.
  intros Hwf Hr Hc. destruct (wf_board_row _ _ _ Hwf Hr) as (l & row & Hl & Hrow & Hlen).
  destruct Hwf as (_ & _ & _ & Hblen & _).
  unfold get, py_getitem. rewrite py_index_nonneg, Hl by lia.
  rewrite lookup_total_alt, Hrow. simpl. rewrite py_index_nonneg by lia.
  destruct (lookup_lt_is_Some_2 row c) as [v Hv]; [lia|]. rewrite Hv.
  erewrite cell_lookup by (by apply view_lookup).
  rewrite lookup_total_alt, Hrow. simpl. by rewrite Hv.
Qed.

Lemma is_empty_in_range h b r c :
  wf_board h b -> r < board_size b -> c < board_size b ->
  is_empty h b (Z.of_nat r) (Z.of_nat c) = Ok (cell (view h b) r c =? 0)%Z.
Proof.
  intros Hwf Hr Hc. pose proof (get_in_range _ _ _ _ Hwf Hr Hc) as Hget.
  unfold get in Hget. unfold is_empty.
  destruct (py_getitem (board b) _); [|done].
  destruct (py_getitem _ _); [|done]. by injection Hget as ->.
Qed.

Lemma set_in_range h b r c v :
  wf_board h b -> r < board_size b -> c < board_size b ->
  set h b (Z.of_nat r) (Z.of_nat c) v = Ok (write h b r c v).
Proof.
  intros Hwf Hr Hc. destruct (wf_board_row _ _ _ Hwf Hr) as (l & row & Hl & Hrow & Hlen).
  destruct Hwf as (_ & _ & _ & Hblen & _).
  unfold set, write, py_getitem. rewrite py_index_nonneg, Hl by lia.
  rewrite lookup_total_alt, Hrow. simpl. by rewrite py_index_nonneg by lia.
Qed.

(** ** Rows, columns and boxes as lists of cells *)

Lemma elem_of_positions side r c :
  (r, c) ∈ positions side <-> r < side /\ c < side.
Proof.
  unfold positions. rewrite list_elem_of_bind. split.
  - intros (r' & Hin & Hr'). apply list_elem_of_fmap in Hin as (c' & [= -> ->] & Hc').
    apply elem_of_seq in Hr', Hc'. lia.
  - intros [Hr Hc]. exists r. split.
    + apply list_elem_of_fmap. exists c. split; [done|]. apply elem_of_seq. lia.
    + apply elem_of_seq. lia.
Qed.

Lemma elem_of_positions_in_grid b p :
  p ∈ positions (board_size b) <-> in_grid b p.
Proof. destruct p as [r c]. apply elem_of_positions. Qed.

Lemma elem_of_row_cells side r p :
  p ∈ row_cells side r <-> p.1 = r /\ p.2 < side.
Proof.
  unfold row_cells. rewrite list_elem_of_fmap. split.
  - intros (c & -> & Hc). apply elem_of_seq in Hc. simpl. lia.
  - intros [<- Hc]. exists p.2. split; [by destruct p|]. apply elem_of_seq. lia.
Qed.

Lemma elem_of_col_cells side c p :
  p ∈ col_cells side c <-> p.2 = c /\ p.1 < side.
Proof.
  unfold col_cells. rewrite list_elem_of_fmap. split.
  - intros (r & -> & Hr). apply elem_of_seq in Hr. simpl. lia.
  - intros [<- Hr]. exists p.1. split; [by destruct p|]. apply elem_of_seq. lia.
Qed.

Lemma elem_of_box_positions k br bc p :
  p ∈ box_positions k br bc <-> br <= p.1 < br + k /\ bc <= p.2 < bc + k.
Proof.
  unfold box_positions. rewrite list_elem_of_bind. split.
  - intros (r & Hin & Hr). apply list_elem_of_fmap in Hin as (c & -> & Hc).
    apply elem_of_seq in Hr, Hc. simpl. lia.
  - intros [Hr Hc]. exists p.1. split.
    + apply list_elem_of_fmap. exists p.2. split; [by destruct p|]. by apply elem_of_seq.
    + by apply elem_of_seq.
Qed.

Lemma NoDup_row_cells side r : NoDup (row_cells side r).
Proof.
  unfold row_cells. apply NoDup_fmap_2_strong; [|apply NoDup_seq]. by intros ???? [= ->].
Qed.

Lemma NoDup_col_cells side c : NoDup (col_cells side c).
Proof.
  unfold col_cells. apply NoDup_fmap_2_strong; [|apply NoDup_seq]. by intros ???? [= ->].
Qed.

Lemma NoDup_box_positions k br bc : NoDup (box_positions k br bc).
Proof.
  unfold box_positions. apply NoDup_bind; [| |apply NoDup_seq].
  - intros r r' p _ _ Hp Hp'.
    apply list_elem_of_fmap in Hp as (? & -> & _).
    apply list_elem_of_fmap in Hp' as (? & [= ->] & _). done.
  - intros r _. apply NoDup_fmap_2_strong; [|apply NoDup_seq]. by intros ???? [= ->].
Qed.

Lemma NoDup_positions side : NoDup (positions side).
Proof.
  unfold positions. apply NoDup_bind; [| |apply NoDup_seq].
  - intros r r' p _ _ Hp Hp'.
    apply list_elem_of_fmap in Hp as (? & -> & _).
    apply list_elem_of_fmap in Hp' as (? & [= ->] & _). done.
  - intros r _. apply NoDup_fmap_2_strong; [|apply NoDup_seq]. by intros ???? [= ->].
Qed.

Lemma length_row_cells side r : length (row_cells side r) = side.
Proof. unfold row_cells. by rewrite length_fmap, length_seq. Qed.

Lemma length_col_cells side c : length (col_cells side c) = side.
Proof. unfold col_cells. by rewrite length_fmap, length_seq. Qed.

Lemma length_bind_const {A B} (f : A -> list B) (l : list A) k :
  (forall x, length (f x) = k) -> length (l ≫= f) = length l * k.
Proof.
  intros Hf. induction l as [|x l IH]; [done|].
  rewrite bind_cons, length_app, Hf, IH. simpl. lia.
Qed.

Lemma length_box_positions k br bc : length (box_positions k br bc) = k * k.
Proof.
  unfold box_positions. rewrite (length_bind_const _ _ k).
  - by rewrite length_seq.
  - intros r. by rewrite length_fmap, length_seq.
Qed.

Lemma list_as_fmap_nth (l : list Z) :
  l = (fun c => nth c l 0%Z) <$> seq 0 (length l).
Proof.
  apply list_eq. intros i. rewrite list_lookup_fmap.
  destruct (decide (i < length l)) as [Hi|Hi].
  - rewrite lookup_seq_lt by done. simpl. rewrite nth_lookup.
    destruct (lookup_lt_is_Some_2 l i Hi) as [v Hv]. by rewrite Hv.
  - rewrite lookup_seq_ge by lia. simpl. apply lookup_ge_None. lia.
Qed.

Lemma row_of_cells b g r :
  wf_grid b g -> r < board_size b ->
  row_of g r = cellp g <$> row_cells (board_size b) r.
Proof.
  intros Hwf Hr. destruct (wf_grid_row _ _ _ Hwf Hr) as (row & Hrow & Hlen).
  unfold row_of, row_cells. rewrite <- list_fmap_compose.
  assert (nth r g [] = row) as -> by by rewrite nth_lookup, Hrow.
  rewrite (list_as_fmap_nth row) at 1. rewrite Hlen.
  apply list_fmap_ext. intros _ c _. unfold cellp, cell. simpl.
  by rewrite (nth_lookup g), Hrow.
Qed.

Lemma column_cells b g c :
  column b g c = cellp g <$> col_cells (board_size b) c.
Proof. unfold column, col_cells. by rewrite <- list_fmap_compose. Qed.

Lemma box_cells_positions b g br bc :
  box_cells b g br bc = cellp g <$> box_positions (n b) br bc.
Proof.
  unfold box_cells, box_positions.
  induction (seq br (n b)) as [|r rs IH]; [done|].
  rewrite !bind_cons, fmap_app, IH. f_equal. by rewrite <- list_fmap_compose.
Qed.

(** ** Duplicates in a list of cells *)

Lemma distinct_count_le (l : list Z) : distinct_count l <= length l.
Proof.
  unfold distinct_count. induction l as [|x l IH]; simpl; [done|].
  destruct (decide_rel elem_of x l); simpl; lia.
Qed.

Lemma distinct_count_NoDup (l : list Z) :
  distinct_count l = length l <-> NoDup l.
Proof.
  induction l as [|x l IH]; simpl.
  - split; [constructor | done].
  - pose proof (distinct_count_le l) as Hle. unfold distinct_count in *. simpl.
    destruct (decide_rel elem_of x l) as [Hin|Hnin]; simpl.
    + split; [lia|]. intros Hnd. by apply NoDup_cons in Hnd as [? _].
    + rewrite NoDup_cons. split.
      * intros [= Hl]. split; [done|]. by apply IH.
      * intros [_ Hnd]. f_equal. by apply IH.
Qed.

Lemma NoDup_fmap_iff {A B} `{EqDecision A} (f : A -> B) (l : list A) :
  NoDup l ->
  NoDup (f <$> l) <-> (forall x y, x ∈ l -> y ∈ l -> x <> y -> f x <> f y).
Proof.
  intros Hnd. split.
  - intros Hf x y Hx Hy Hne Heq.
    apply list_elem_of_lookup in Hx as [i Hi]. apply list_elem_of_lookup in Hy as [j Hj].
    assert (i = j) as ->.
    { apply (NoDup_lookup (f <$> l) i j (f x)); [done|..];
        rewrite list_lookup_fmap; [by rewrite Hi | by rewrite Hj, Heq]. }
    congruence.
  - intros Hf. apply NoDup_fmap_2_strong; [|done].
    intros x y Hx Hy Heq. destruct (decide (x = y)) as [|Hne]; [done|].
    by destruct (Hf x y Hx Hy Hne).
Qed.

Lemma filter_fmap_nonzero {A} (f : A -> Z) (l : list A) :
  filter (fun v => v <> 0%Z) (f <$> l) = f <$> filter (fun x => f x <> 0%Z) l.
Proof.
  induction l as [|x l IH]; [done|].
  rewrite fmap_cons, !filter_cons. destruct (decide (f x <> 0%Z)).
  - by rewrite fmap_cons, IH.
  - done.
Qed.

Lemma no_duplicates_spec {A} `{EqDecision A} (f : A -> Z) (l : list A) :
  NoDup l ->
  no_duplicates (f <$> l) = true <->
  (forall x y, x ∈ l -> y ∈ l -> x <> y -> f x <> 0%Z -> f x <> f y).
Proof.
  intros Hnd. unfold no_duplicates. rewrite bool_decide_eq_true, filter_fmap_nonzero.
  rewrite NoDup_fmap_iff by by apply NoDup_filter.
  split.
  - intros H x y Hx Hy Hne Hnz Heq. apply (H x y); try done.
    + apply list_elem_of_filter. done.
    + apply list_elem_of_filter. split; [congruence | done].
  - intros H x y [Hnx Hx]%list_elem_of_filter [Hny Hy]%list_elem_of_filter Hne.
    by apply H.
Qed.

Lemma all_distinct_spec {A} `{EqDecision A} (f : A -> Z) (l : list A) k :
  NoDup l -> length l = k ->
  (distinct_count (f <$> l) =? k) = true <->
  (forall x y, x ∈ l -> y ∈ l -> x <> y -> f x <> f y).
Proof.
  intros Hnd Hlen. rewrite Nat.eqb_eq, <- NoDup_fmap_iff by done.
  rewrite <- distinct_count_NoDup, length_fmap, Hlen. done.
Qed.

(** ** Boxes *)

Lemma div_interval k x m :
  0 < m -> m * k <= x < m * k + m <-> x / m = k.
Proof.
  intros Hm. split.
  - intros Hx. symmetry. apply (Nat.div_unique x m k (x - m * k)); lia.
  - intros <-. pose proof (Nat.div_mod_eq x m) as Hdm.
    pose proof (Nat.mod_upper_bound x m ltac:(lia)) as Hub. lia.
Qed.

Lemma div_lt_square x m : x < m * m -> x / m < m.
Proof.
  intros Hx. destruct (decide (m = 0)) as [->|Hm]; [lia|].
  apply Nat.Div0.div_lt_upper_bound. lia.
Qed.

Lemma range_step_boxes m :
  0 < m -> range_step (m * m) m = (fun k => k * m) <$> seq 0 m.
Proof.
  intros Hm. unfold range_step. do 2 f_equal.
  symmetry. apply (Nat.div_unique _ m m (m - 1)); lia.
Qed.

Lemma elem_of_range_step_boxes m x :
  0 < m -> x ∈ range_step (m * m) m <-> exists k, k < m /\ x = k * m.
Proof.
  intros Hm. rewrite range_step_boxes by done. rewrite list_elem_of_fmap.
  split; intros (k & H1 & H2); exists k.
  - apply elem_of_seq in H2. split; [lia|done].
  - split; [done|]. apply elem_of_seq. lia.
Qed.

Lemma elem_of_box m k1 k2 p :
  0 < m ->
  p ∈ box_positions m (k1 * m) (k2 * m) <-> p.1 / m = k1 /\ p.2 / m = k2.
Proof.
  intros Hm. rewrite elem_of_box_positions.
  rewrite <- !(div_interval _ _ m) by done. lia.
Qed.

Lemma get_box_index_box b r c :
  0 < n b ->
  forall p, p ∈ box_positions (n b) (get_box_index b r c).1 (get_box_index b r c).2
       <-> p.1 / n b = r / n b /\ p.2 / n b = c / n b.
Proof. intros Hn p. unfold get_box_index. simpl. by apply elem_of_box. Qed.

(** ** A property of all units, cell by cell *)

Lemma all_units_spec b g (P : list Z -> bool) (R : Z -> Z -> Prop) :
  0 < n b -> board_size b = n b * n b -> wf_grid b g ->
  (forall ps : list (nat * nat), NoDup ps -> length ps = board_size b ->
     P (cellp g <$> ps) = true <->
     (forall p q, p ∈ ps -> q ∈ ps -> p <> q -> R (cellp g p) (cellp g q))) ->
  all_units b g P = true <->
  (forall p q, in_grid b p -> in_grid b q -> p <> q -> related b p q ->
          R (cellp g p) (cellp g q)).
Proof.
  intros Hn Hside Hwf HP. unfold all_units.
  rewrite andb_true_iff, !forallb_forall. split.
  - intros [Hrc Hbox] p q [Hp1 Hp2] [Hq1 Hq2] Hne [Hrow | [Hcol | [Hb1 Hb2]]].
    + specialize (Hrc p.1). rewrite andb_true_iff in Hrc.
      destruct Hrc as [Hrc _]; [apply list_elem_of_In, elem_of_seq; lia|].
      rewrite (row_of_cells b) in Hrc by done.
      apply (proj1 (HP _ (NoDup_row_cells _ _) (length_row_cells _ _)) Hrc); [| |done]; apply elem_of_row_cells; split; (done || lia).
    + specialize (Hrc p.2). rewrite andb_true_iff in Hrc.
      destruct Hrc as [_ Hrc]; [apply list_elem_of_In, elem_of_seq; lia|].
      rewrite column_cells in Hrc.
      apply (proj1 (HP _ (NoDup_col_cells _ _) (length_col_cells _ _)) Hrc); [| |done]; apply elem_of_col_cells; split; (done || lia).
    + specialize (Hbox (p.1 / n b * n b)). rewrite forallb_forall in Hbox.
      specialize (fun H => Hbox H (p.2 / n b * n b)).
      rewrite box_cells_positions in Hbox.
      assert (Hlenb : length (box_positions (n b) (p.1 / n b * n b) (p.2 / n b * n b))
                      = board_size b) by (rewrite length_box_positions; lia).
      pose proof (proj1 (HP _ (NoDup_box_positions _ _ _) Hlenb)) as HPb.
      apply HPb; try done.
      { apply Hbox.
        - apply list_elem_of_In. rewrite Hside. apply elem_of_range_step_boxes; [done|].
          eexists. split; [|done]. apply div_lt_square. lia.
        - apply list_elem_of_In. rewrite Hside. apply elem_of_range_step_boxes; [done|].
          eexists. split; [|done]. apply div_lt_square. lia. }
      * by apply elem_of_box.
      * by apply elem_of_box.
  - intros H. split.
    + intros i Hi%list_elem_of_In%elem_of_seq. apply andb_true_iff. split.
      * rewrite (row_of_cells b) by (done || lia).
        apply HP; [apply NoDup_row_cells|apply length_row_cells|].
        intros p q [Hp1 Hp2]%elem_of_row_cells [Hq1 Hq2]%elem_of_row_cells Hne.
        apply H; try done; try (split; lia). left. congruence.
      * rewrite column_cells.
        apply HP; [apply NoDup_col_cells|apply length_col_cells|].
        intros p q [Hp1 Hp2]%elem_of_col_cells [Hq1 Hq2]%elem_of_col_cells Hne.
        apply H; try done; try (split; lia). right; left. congruence.
    + intros br Hbr%list_elem_of_In. apply forallb_forall.
      intros bc Hbc%list_elem_of_In. rewrite Hside in Hbr, Hbc.
      apply elem_of_range_step_boxes in Hbr as (k1 & Hk1 & ->); [|done].
      apply elem_of_range_step_boxes in Hbc as (k2 & Hk2 & ->); [|done].
      rewrite box_cells_positions.
      apply HP; [apply NoDup_box_positions|rewrite length_box_positions; lia|].
      intros p q Hp Hq Hne. pose proof Hp as Hp'. pose proof Hq as Hq'.
      apply elem_of_box in Hp as [Hp1 Hp2]; [|done].
      apply elem_of_box in Hq as [Hq1 Hq2]; [|done].
      apply elem_of_box_positions in Hp' as [? ?].
      apply elem_of_box_positions in Hq' as [? ?].
      apply H; try done.
      * split; rewrite Hside; nia.
      * split; rewrite Hside; nia.
      * right; right. split; congruence.
Qed.

Lemma is_complete_spec b g :
  is_complete b g = true <-> (forall p, in_grid b p -> cellp g p <> 0%Z).
Proof.
  unfold is_complete. rewrite forallb_forall. split.
  - intros H [r c] Hp. specialize (H (r, c)). simpl in H.
    rewrite negb_true_iff, Z.eqb_neq in H. apply H.
    by apply list_elem_of_In, elem_of_positions_in_grid.
  - intros H [r c] Hp%list_elem_of_In%elem_of_positions_in_grid.
    rewrite negb_true_iff, Z.eqb_neq. by apply (H (r, c)).
Qed.

(** [is_valid_solution], cell by cell: no empty cell, and related cells
    hold different values. *)
Lemma is_valid_solution_spec b g :
  0 < n b -> board_size b = n b * n b -> wf_grid b g ->
  is_valid_solution b g = true <->
  (forall p, in_grid b p -> cellp g p <> 0%Z) /\
  (forall p q, in_grid b p -> in_grid b q -> p <> q -> related b p q ->
          cellp g p <> cellp g q).
Proof.
  intros Hn Hside Hwf.
  assert (is_valid_solution b g =
          is_complete b g && all_units b g (fun l => distinct_count l =? board_size b))
    as ->.
  { unfold is_valid_solution, all_units. by destruct (is_complete b g). }
  rewrite andb_true_iff, is_complete_spec.
  rewrite (all_units_spec b g _ (fun v w => v <> w)); [done..|].
  intros ps Hnd Hlen. by apply all_distinct_spec.
Qed.

Lemma consistent_spec b g :
  0 < n b -> board_size b = n b * n b -> wf_grid b g ->
  consistent b g = true <->
  (forall p q, in_grid b p -> in_grid b q -> p <> q -> related b p q ->
          cellp g p <> 0%Z -> cellp g p <> cellp g q).
Proof.
  intros Hn Hside Hwf. unfold consistent.
  apply (all_units_spec b g _ (fun v w => v <> 0%Z -> v <> w)); [done..|].
  intros ps Hnd Hlen. by apply no_duplicates_spec.
Qed.

(** ** Candidates *)

Lemma elem_of_discard_all xs (s : list Z) v :
  v ∈ foldl (fun cands x => discard x cands) s xs <-> v ∈ s /\ v ∉ xs.
Proof.
  revert s. induction xs as [|x xs IH]; intros s; simpl.
  - split; [|tauto]. intros H. split; [done|]. apply not_elem_of_nil.
  - rewrite IH. unfold discard. rewrite list_elem_of_filter, not_elem_of_cons. tauto.
Qed.

Lemma length_discard_all xs (s : list Z) :
  length (foldl (fun cands x => discard x cands) s xs) <= length s.
Proof.
  revert s. induction xs as [|x xs IH]; intros s; simpl; [done|].
  etrans; [apply IH|]. apply length_filter.
Qed.

Lemma NoDup_discard_all xs (s : list Z) :
  NoDup s -> NoDup (foldl (fun cands x => discard x cands) s xs).
Proof.
  revert s. induction xs as [|x xs IH]; intros s Hs; simpl; [done|].
  apply IH. by apply NoDup_filter.
Qed.

Lemma elem_of_cells_fmap g (ps : list (nat * nat)) v :
  v ∉ cellp g <$> ps <-> (forall q, q ∈ ps -> cellp g q <> v).
Proof.
  rewrite list_elem_of_fmap. split.
  - intros H q Hq Heq. apply H. by exists q.
  - intros H (q & -> & Hq). by apply (H q).
Qed.

Lemma elem_of_get_candidates b g r c v :
  0 < n b -> board_size b = n b * n b -> wf_grid b g ->
  r < board_size b -> c < board_size b ->
  v ∈ get_candidates b g r c <->
  cell g r c = 0%Z /\ (1 <= v <= Z.of_nat (board_size b))%Z /\
  (forall q, in_grid b q -> related b (r, c) q -> cellp g q <> v).
Proof.
  intros Hn Hside Hwf Hr Hc. unfold get_candidates.
  destruct (Z.eqb_spec (cell g r c) 0) as [H0|H0]; simpl.
  2:{ split; [by intros ?%elem_of_nil | tauto]. }
  unfold get_box_index.
  rewrite elem_of_discard_all, !list_elem_of_filter.
  rewrite (row_of_cells b), column_cells, box_cells_positions by done.
  rewrite !elem_of_cells_fmap.
  assert (v ∈ Z.of_nat <$> seq 1 (board_size b)
          <-> (1 <= v <= Z.of_nat (board_size b))%Z) as ->.
  { rewrite list_elem_of_fmap. split.
    - intros (k & -> & Hk%elem_of_seq). lia.
    - intros Hv. exists (Z.to_nat v). split; [lia|]. apply elem_of_seq. lia. }
  split.
  - intros ((Hcol & Hrow & Hrange) & Hbx). repeat split; try done; try lia.
    intros q [Hq1 Hq2] [Hrel | [Hrel | [Hb1 Hb2]]]; simpl in *.
    + apply Hrow. apply elem_of_row_cells. split; [done | lia].
    + apply Hcol. apply elem_of_col_cells. split; [done | lia].
    + apply Hbx. apply elem_of_box; [done|]. split; congruence.
  - intros (_ & Hrange & Hrel). repeat split; try done; try lia.
    + intros q [Hq1 Hq2]%elem_of_col_cells. apply Hrel; [split; lia|].
      right; left. done.
    + intros q [Hq1 Hq2]%elem_of_row_cells. apply Hrel; [split; lia|].
      left. done.
    + intros q Hq. pose proof Hq as [Hq1 Hq2]%elem_of_box; [|done].
      apply Hrel; [|right; right; simpl; split; congruence].
      split.
      * assert (q.1 / n b < n b) by (rewrite Hq1; apply div_lt_square; lia).
        apply (div_interval (q.1 / n b) q.1 (n b)) in Hn as Hi. rewrite Hside.
        destruct Hi as [_ Hi]. specialize (Hi eq_refl). nia.
      * assert (q.2 / n b < n b) by (rewrite Hq2; apply div_lt_square; lia).
        apply (div_interval (q.2 / n b) q.2 (n b)) in Hn as Hi. rewrite Hside.
        destruct Hi as [_ Hi]. specialize (Hi eq_refl). nia.
Qed.

Lemma length_get_candidates b g r c :
  length (get_candidates b g r c) <= board_size b.
Proof.
  unfold get_candidates. destruct (negb _); simpl; [lia|].
  destruct (get_box_index b r c) as [br bc].
  etrans; [apply length_discard_all|].
  etrans; [apply length_filter|]. etrans; [apply length_filter|].
  by rewrite length_fmap, length_seq.
Qed.

Lemma NoDup_get_candidates b g r c : NoDup (get_candidates b g r c).
Proof.
  unfold get_candidates. destruct (negb _); simpl; [constructor|].
  destruct (get_box_index b r c) as [br bc].
  apply NoDup_discard_all. do 2 apply NoDup_filter.
  apply NoDup_fmap_2; [apply _|apply NoDup_seq].
Qed.

Lemma get_candidates_filled b g r c :
  cell g r c <> 0%Z -> get_candidates b g r c = [].
Proof.
  intros H. unfold get_candidates. by destruct (Z.eqb_spec (cell g r c) 0).
Qed.

(** ** Selecting a cell *)

Lemma mrv_scan_Some b g cells m best p :
  mrv_scan b g cells m best = Some p ->
  (p ∈ cells /\ cellp g p = 0%Z) \/ best = Some p.
Proof.
  revert m best. induction cells as [|[r c] rest IH]; intros m best; simpl.
  - by right.
  - destruct (Z.eqb_spec (cell g r c) 0) as [H0|H0].
    + destruct (_ =? 0).
      { intros [= <-]. left. split; [left|done]. }
      destruct (_ <? m).
      * intros [[Hin Hz] | [= <-]]%IH; left; (split; [|done]).
        -- by right.
        -- left.
      * intros [[Hin Hz] | ->]%IH; [left|by right]. split; [by right|done].
    + intros [[Hin Hz] | ->]%IH; [left|by right]. split; [by right|done].
Qed.

Lemma mrv_scan_None b g cells m best :
  mrv_scan b g cells m best = None ->
  best = None /\
  (forall p, p ∈ cells -> cellp g p = 0%Z ->
        m <= length (get_candidates b g p.1 p.2)).
Proof.
  revert m best. induction cells as [|[r c] rest IH]; intros m best; simpl.
  - intros ->. split; [done|]. by intros p ?%elem_of_nil.
  - destruct (Z.eqb_spec (cell g r c) 0) as [H0|H0].
    + destruct (_ =? 0); [done|].
      destruct (Nat.ltb_spec (length (get_candidates b g r c)) m).
      * by intros [? _]%IH.
      * intros [-> Hrest]%IH. split; [done|].
        intros p [->|Hin]%elem_of_cons Hz; [done|]. by apply Hrest.
    + intros [-> Hrest]%IH. split; [done|].
      intros p [->|Hin]%elem_of_cons Hz; [done|]. by apply Hrest.
Qed.

Lemma select_Some s b g r c :
  _select_unassigned_variable s b g = Some (r, c) ->
  in_grid b (r, c) /\ cell g r c = 0%Z.
Proof.
  unfold _select_unassigned_variable. destruct (use_mrv s); simpl.
  - intros [[Hin Hz] | ?]%mrv_scan_Some; [|done].
    split; [by apply elem_of_positions_in_grid | done].
  - intros [Hin Hz]%find_some. apply Z.eqb_eq in Hz.
    split; [by apply elem_of_positions_in_grid, list_elem_of_In | done].
Qed.

Lemma select_None s b g :
  _select_unassigned_variable s b g = None ->
  forall p, in_grid b p -> cellp g p <> 0%Z.
Proof.
  unfold _select_unassigned_variable. destruct (use_mrv s); simpl.
  - intros [_ H]%mrv_scan_None p Hp%elem_of_positions_in_grid Hz.
    specialize (H p Hp Hz). pose proof (length_get_candidates b g p.1 p.2). lia.
  - intros H [r' c'] Hp%elem_of_positions_in_grid%list_elem_of_In.
    apply (find_none _ _ H) in Hp. by apply Z.eqb_neq in Hp.
Qed.

(** ** Empty cells *)

Lemma length_filter_le_bool {A} (f f' : A -> bool) (l : list A) :
  (forall y, y ∈ l -> f' y = true -> f y = true) ->
  length (List.filter f' l) <= length (List.filter f l).
Proof.
  induction l as [|a l IH]; intros Himp; simpl; [done|].
  assert (IH' := IH (fun y Hy => Himp y (list_elem_of_further _ _ _ Hy))).
  specialize (Himp a (list_elem_of_here _ _)).
  destruct (f' a); [rewrite Himp by done|destruct (f a)]; simpl; lia.
Qed.

Lemma length_filter_lt_bool {A} (f f' : A -> bool) (l : list A) x :
  (forall y, y ∈ l -> f' y = true -> f y = true) ->
  x ∈ l -> f x = true -> f' x = false ->
  length (List.filter f' l) < length (List.filter f l).
Proof.
  induction l as [|a l IH]; intros Himp Hx Hfx Hf'x; [by apply elem_of_nil in Hx|].
  assert (Hle := length_filter_le_bool f f' l
                   (fun y Hy => Himp y (list_elem_of_further _ _ _ Hy))).
  apply elem_of_cons in Hx as [<-|Hx]; simpl.
  - rewrite Hfx, Hf'x. simpl. lia.
  - assert (IH' := IH (fun y Hy => Himp y (list_elem_of_further _ _ _ Hy)) Hx Hfx Hf'x).
    specialize (Himp a (list_elem_of_here _ _)).
    destruct (f' a); [rewrite Himp by done|destruct (f a)]; simpl; lia.
Qed.

(** A trial assignment fills one empty cell. *)
Lemma count_empty_grid_set b g r c v :
  wf_grid b g -> in_grid b (r, c) -> cell g r c = 0%Z -> v <> 0%Z ->
  count_empty b (grid_set g r c v) < count_empty b g.
Proof.
  intros Hwf [Hr Hc] Hz Hv. simpl in *. unfold count_empty.
  apply (length_filter_lt_bool _ _ _ (r, c)).
  - intros [r' c'] _. rewrite !Z.eqb_eq. erewrite cell_grid_set by done.
    case_decide as Hd; [|done]. done.
  - by apply elem_of_positions.
  - by apply Z.eqb_eq.
  - apply Z.eqb_neq. by erewrite cell_grid_set_eq.
Qed.

Lemma get_candidates_nonzero b g r c v :
  v ∈ get_candidates b g r c -> v <> 0%Z.
Proof.
  unfold get_candidates. destruct (negb _); [by intros ?%elem_of_nil|].
  destruct (get_box_index b r c) as [br bc].
  rewrite elem_of_discard_all, !list_elem_of_filter, list_elem_of_fmap.
  intros ((_ & _ & k & -> & Hk%elem_of_seq) & _). lia.
Qed.

(** ** Every run of [_backtrack] is a derivation *)

Lemma view_place b row col num st :
  wf_board (heap st) b -> row < board_size b ->
  view (heap (place b row col num st)) b = grid_set (view (heap st) b) row col num.
Proof. intros. simpl. by apply view_write. Qed.

Lemma view_undo b row col ev st :
  wf_board (heap st) b -> row < board_size b ->
  view (heap (undo b row col ev st)) b = grid_set (view (heap st) b) row col 0.
Proof. intros. simpl. by apply view_write. Qed.

Lemma trial_loop_runs s b f rec row col :
  (forall st, wf_board (heap st) b -> count_empty b (view (heap st) b) < f ->
         exists res st', rec st = Some (res, st') /\ run_post b (bt s b) st res st') ->
  in_grid b (row, col) ->
  forall candidates st,
    wf_board (heap st) b ->
    cell (view (heap st) b) row col = 0%Z ->
    (forall v, v ∈ candidates -> v <> 0%Z) ->
    count_empty b (view (heap st) b) <= f ->
    exists res st',
      trial_loop rec s b row col candidates st = Some (res, st') /\
      run_post b (fun g res g' => loop s b row col candidates g res g') st res st'.
Proof.
  intros Hrec [Hrow Hcol]. simpl in Hrow, Hcol.
  induction candidates as [|num rest IH]; intros st Hwf Hz Hnz Hcnt.
  - exists false, st. split; [done|]. exists 0, 0, [].
    split_and!; [done | done | lia | lia | by rewrite app_nil_r | constructor | done].
  - cbn [trial_loop].
    pose proof (view_wf _ _ Hwf) as Hwfg.
    pose proof (view_place b row col num st Hwf Hrow) as Hv1.
    assert (Hwf1 : wf_board (heap (place b row col num st)) b) by by apply write_wf.
    pose proof (view_undo b row col UndoForward _ Hwf1 Hrow) as Hvu.
    assert (Hback : grid_set (grid_set (view (heap st) b) row col num) row col 0
                    = view (heap st) b) by by eapply grid_set_undo.
    assert (Hnz' : forall v, v ∈ rest -> v <> 0%Z)
      by (intros v Hv; apply Hnz; by right).
    fold (forward_check_fails s b (view (heap (place b row col num st)) b)).
    destruct (forward_check_fails s b _) eqn:Hfc.
    + (* forward checking fails: undo and go on *)
      destruct (IH (undo b row col UndoForward (place b row col num st)))
        as (res & st' & Hrun & dn & db & tr & Hwf' & Hfr & Hn' & Hb' & Htr & Hloop & Hres).
      * by apply write_wf.
      * rewrite Hvu, Hv1, Hback. done.
      * done.
      * rewrite Hvu, Hv1, Hback. done.
      * exists res, st'. split; [done|].
        rewrite Hvu, Hv1 in Hloop. rewrite Hvu, Hv1, Hback in Hres.
        exists dn, (S db), (Trial row col num (grid_set (view (heap st) b) row col num)
          :: UndoForward row col
               (grid_set (grid_set (view (heap st) b) row col num) row col 0) :: tr).
        split_and!; [done | | done | | | | done].
        -- intros l Hl. rewrite Hfr by done. simpl. by rewrite !write_frame.
        -- rewrite Hb'. simpl. lia.
        -- rewrite Htr. simpl. rewrite <- !app_assoc. simpl.
           rewrite (view_write _ _ _ _ _ Hwf Hrow).
           rewrite (view_write _ _ _ _ _ (write_wf _ _ _ _ _ Hwf) Hrow).
           by rewrite (view_write _ _ _ _ _ Hwf Hrow).
        -- apply loop_forward; [by rewrite <- Hv1|done].
    + (* recurse *)
      destruct (Hrec (place b row col num st))
        as (res1 & st1 & Hrun1 & dn1 & db1 & tr1 & Hwf1' & Hfr1 & Hn1 & Hb1 & Htr1 & Hbt & Hres1).
      * done.
      * rewrite Hv1. eapply Nat.lt_le_trans; [|exact Hcnt].
        apply count_empty_grid_set; try done. apply Hnz. by left.
      * rewrite Hrun1. rewrite Hv1 in Hbt.
        destruct res1.
        -- (* found *)
           exists true, st1. split; [done|].
           exists dn1, db1, (Trial row col num (grid_set (view (heap st) b) row col num) :: tr1).
           split_and!; [done | | done | done | | | done].
           ++ intros l Hl. rewrite Hfr1 by done. simpl. by rewrite write_frame.
           ++ rewrite Htr1. simpl. rewrite <- app_assoc. simpl.
              by rewrite (view_write _ _ _ _ _ Hwf Hrow).
           ++ by apply loop_found; [rewrite <- Hv1|].
        -- (* failed: undo and go on *)
           specialize (Hres1 eq_refl). rewrite Hv1 in Hres1.
           pose proof (view_undo b row col UndoFailed _ Hwf1' Hrow) as Hvu2.
           rewrite Hres1, Hback in Hvu2.
           destruct (IH (undo b row col UndoFailed st1))
             as (res & st' & Hrun & dn & db & tr & Hwf' & Hfr & Hn' & Hb' & Htr & Hloop & Hres).
           ++ by apply write_wf.
           ++ by rewrite Hvu2.
           ++ done.
           ++ by rewrite Hvu2.
           ++ exists res, st'. split; [done|].
              rewrite Hvu2 in Hloop, Hres.
              exists (dn1 + dn), (db1 + S db),
                (Trial row col num (grid_set (view (heap st) b) row col num)
                   :: tr1 ++ UndoFailed row col
                        (grid_set (view (heap st1) b) row col 0) :: tr).
              split_and!; [done | | | | | | done].
              ** intros l Hl. rewrite Hfr by done. simpl. rewrite write_frame by done.
                 rewrite Hfr1 by done. simpl. by rewrite write_frame.
              ** rewrite Hn'. simpl. rewrite Hn1. simpl. lia.
              ** rewrite Hb'. simpl. rewrite Hb1. simpl. lia.
              ** rewrite Htr. simpl. rewrite Htr1. simpl.
                 rewrite <- !app_assoc. simpl.
                 rewrite (view_write _ _ _ _ _ Hwf Hrow).
                 by rewrite (view_write _ _ _ _ _ Hwf1' Hrow).
              ** eapply loop_failed; [by rewrite <- Hv1|exact Hbt|].
                 rewrite Hres1, Hback. done.
Qed.

Lemma backtrack_runs s b fuel :
  forall st, wf_board (heap st) b -> count_empty b (view (heap st) b) < fuel ->
        exists res st', _backtrack fuel s b st = Some (res, st') /\
                   run_post b (bt s b) st res st'.
Proof.
  induction fuel as [|f IH]; intros st Hwf Hcnt; [lia|].
  cbn [_backtrack].
  change (view (heap (enter b st)) b) with (view (heap st) b).
  pose proof (view_wf _ _ Hwf) as Hwfg.
  destruct (_select_unassigned_variable s b (view (heap st) b)) as [[row col]|] eqn:Hsel.
  - destruct (select_Some _ _ _ _ _ Hsel) as [Hin Hz].
    destruct (Nat.eqb_spec (length (get_candidates b (view (heap st) b) row col)) 0)
      as [Hlen|Hlen].
    + exists false, (emit (DeadEnd row col) (enter b st)). split; [done|].
      exists 1, 0, [Node (view (heap st) b); DeadEnd row col].
      split_and!; simpl; [done | done | done | lia | | by constructor | done].
      by rewrite <- app_assoc.
    + destruct (trial_loop_runs s b f (_backtrack f s b) row col IH Hin
                  (get_candidates b (view (heap st) b) row col) (enter b st))
        as (res & st' & Hrun & dn & db & tr & Hwf' & Hfr & Hn' & Hb' & Htr & Hloop & Hres);
        simpl; [done | done | apply get_candidates_nonzero | lia |].
      exists res, st'. split; [done|].
      exists (S dn), db, (Node (view (heap st) b) :: tr).
      simpl in *. split_and!; [done | done | lia | done | | | done].
      * rewrite Htr, <- app_assoc. done.
      * by eapply bt_trials.
  - exists (is_valid_solution b (view (heap st) b)), (enter b st). split; [done|].
    exists 1, 0, [Node (view (heap st) b)].
    split_and!; simpl; [done | done | done | lia | done | by constructor | done].
Qed.

(** More fuel does not change the result. *)
Lemma trial_loop_mono (rec rec' : State -> option (bool * State)) s b row col :
  (forall st r, rec st = Some r -> rec' st = Some r) ->
  forall candidates st r,
    trial_loop rec s b row col candidates st = Some r ->
    trial_loop rec' s b row col candidates st = Some r.
Proof.
  intros Hrec. induction candidates as [|num rest IH]; intros st r; cbn [trial_loop]; [done|].
  destruct (_ && _); [apply IH|].
  destruct (rec (place b row col num st)) as [[[] st2]|] eqn:Hr; [| |done].
  - rewrite (Hrec _ _ Hr). done.
  - rewrite (Hrec _ _ Hr). apply IH.
Qed.

Lemma backtrack_fuel_mono s b fuel fuel' st r :
  fuel <= fuel' ->
  _backtrack fuel s b st = Some r -> _backtrack fuel' s b st = Some r.
Proof.
  revert fuel' st r. induction fuel as [|f IH]; intros fuel' st r Hle; [done|].
  destruct fuel' as [|f']; [lia|]. cbn [_backtrack].
  destruct (_select_unassigned_variable _ _ _) as [[row col]|]; [|done].
  destruct (_ =? 0); [done|].
  apply trial_loop_mono. intros st1 r1. apply IH. lia.
Qed.

(** ** [copy] and [solve] *)

Lemma copy_spec h b h1 wb :
  wf_board h b -> copy h b = (h1, wb) ->
  wf_board h1 wb /\ view h1 wb = view h b /\
  n wb = n b /\ board_size wb = board_size b /\
  (forall l, is_Some (h !! l) -> h1 !! l = h !! l /\ l ∉ board wb).
Proof.
  intros Hwf. unfold copy.
  destruct (init h (n b)) as [h0 nb] eqn:Hinit.
  destruct (alloc_rows h0 (view h0 b)) as [ls h2] eqn:Hal.
  intros [= <- <-]. simpl.
  pose proof Hwf as (Hn & Hside & Hnd & Hlen & Hrows).
  destruct (init_wf _ _ _ _ Hn Hinit) as (_ & Hnb & Hold0 & _).
  assert (Hv0 : view h0 b = view h b).
  { apply view_ext. intros l Hl. apply Hold0.
    rewrite Forall_forall in Hrows. destruct (Hrows l Hl) as (row & -> & _). done. }
  rewrite Hv0 in Hal.
  destruct (alloc_rows_spec _ _ _ _ Hal) as (Hnd2 & Hnew & Hold & Hall).
  pose proof (view_wf _ _ Hwf) as [Hvl Hvr].
  pose proof (Forall2_length _ _ _ Hall) as Hl2.
  unfold init in Hinit. destruct (alloc_rows h _) as [ls0 h0'].
  injection Hinit as <- <-. simpl in *.
  split_and!; try done; try lia.
  - unfold wf_board. simpl. split_and!; [done | done | done | lia |].
    apply Forall_forall. intros l Hl.
    apply list_elem_of_lookup in Hl as [i Hi].
    destruct (Forall2_lookup_l _ _ _ _ _ Hall Hi) as (row & Hrow & Hlk).
    exists row. split; [done|].
    rewrite Forall_forall in Hvr. rewrite <- Hside.
    apply Hvr. by eapply list_elem_of_lookup_2.
  - unfold view at 1. simpl. by eapply alloc_rows_view.
  - intros l Hl.
    assert (Hl0 : h0' !! l = h !! l) by by apply Hold0.
    assert (Hnin : l ∉ ls).
    { intros Hin. apply Hnew in Hin. rewrite Hl0 in Hin. rewrite Hin in Hl.
      by destruct Hl. }
    split; [|done]. by rewrite Hold.
Qed.

(** ** Induction on a search

    The induction principle used for the properties of the search.  A
    failed call leaves the grid as it found it, so every iteration of the
    trial loop starts from the grid [g] on which the cell was selected;
    the principle states the cases with that grid. *)

Section SearchInduction.
Variables (s : SudokuSolver) (b : SudokuBoard).
Variable P : Grid -> bool -> Grid -> nat -> nat -> list event -> Prop.
Variable Q : nat -> nat -> list Z -> Grid -> bool -> Grid ->
             nat -> nat -> list event -> Prop.

Hypothesis case_filled : forall g,
  wf_grid b g -> _select_unassigned_variable s b g = None ->
  P g (is_valid_solution b g) g 1 0 [Node g].

Hypothesis case_dead_end : forall g row col,
  wf_grid b g -> _select_unassigned_variable s b g = Some (row, col) ->
  get_candidates b g row col = [] ->
  P g false g 1 0 [Node g; DeadEnd row col].

Hypothesis case_trials : forall g row col res g' dn db tr,
  wf_grid b g -> _select_unassigned_variable s b g = Some (row, col) ->
  in_grid b (row, col) -> cell g row col = 0%Z ->
  get_candidates b g row col <> [] ->
  Q row col (get_candidates b g row col) g res g' dn db tr ->
  P g res g' (S dn) db (Node g :: tr).

Hypothesis case_done : forall row col g, Q row col [] g false g 0 0 [].

Hypothesis case_forward : forall row col num rest g res g' dn db tr,
  wf_grid b g -> in_grid b (row, col) -> cell g row col = 0%Z ->
  forward_check_fails s b (grid_set g row col num) = true ->
  Q row col rest g res g' dn db tr ->
  Q row col (num :: rest) g res g' dn (S db)
    (Trial row col num (grid_set g row col num) :: UndoForward row col g :: tr).

Hypothesis case_found : forall row col num rest g g' dn db tr,
  wf_grid b g -> in_grid b (row, col) -> cell g row col = 0%Z ->
  forward_check_fails s b (grid_set g row col num) = false ->
  bt s b (grid_set g row col num) true g' dn db tr ->
  P (grid_set g row col num) true g' dn db tr ->
  Q row col (num :: rest) g true g' dn db
    (Trial row col num (grid_set g row col num) :: tr).

Hypothesis case_failed : forall row col num rest g res g' dn1 db1 tr1 dn2 db2 tr2,
  wf_grid b g -> in_grid b (row, col) -> cell g row col = 0%Z ->
  forward_check_fails s b (grid_set g row col num) = false ->
  P (grid_set g row col num) false (grid_set g row col num) dn1 db1 tr1 ->
  Q row col rest g res g' dn2 db2 tr2 ->
  Q row col (num :: rest) g res g' (dn1 + dn2) (db1 + S db2)
    (Trial row col num (grid_set g row col num)
     :: tr1 ++ UndoFailed row col g :: tr2).

Lemma search_ind_both :
  (forall g res g' dn db tr,
      bt s b g res g' dn db tr -> wf_grid b g ->
      P g res g' dn db tr /\ wf_grid b g' /\ (res = false -> g' = g)) /\
  (forall row col cands g res g' dn db tr,
      loop s b row col cands g res g' dn db tr ->
      wf_grid b g -> in_grid b (row, col) -> cell g row col = 0%Z ->
      Q row col cands g res g' dn db tr /\ wf_grid b g' /\ (res = false -> g' = g)).
Proof.
  apply bt_loop_ind.
  - intros g Hsel Hwf. split_and!; [by apply case_filled | done | done].
  - intros g row col Hsel Hlen Hwf. split_and!; [|done|done].
    apply case_dead_end; [done..|]. by apply nil_length_inv.
  - intros g row col res g' dn db tr Hsel Hlen _ IH Hwf.
    destruct (select_Some _ _ _ _ _ Hsel) as [Hin Hz].
    destruct (IH Hwf Hin Hz) as (HQ & Hwf' & Hres).
    split_and!; [|done|done].
    apply (case_trials g row col); try done. intros Hnil. by rewrite Hnil in Hlen.
  - intros row col g Hwf Hin Hz. split_and!; [apply case_done | done | done].
  - intros row col num rest g res g' dn db tr Hfc _ IH Hwf Hin Hz.
    pose proof Hin as [Hr Hc]. simpl in Hr, Hc.
    rewrite (grid_set_undo b) in * by done.
    destruct (IH Hwf Hin Hz) as (HQ & Hwf' & Hres).
    split_and!; [|done|done]. by apply case_forward.
  - intros row col num rest g g' dn db tr Hfc Hbt IH Hwf Hin Hz.
    pose proof Hin as [Hr Hc]. simpl in Hr, Hc.
    destruct IH as (HP & Hwf' & _); [by apply grid_set_wf|].
    split_and!; [|done|done]. by apply case_found.
  - intros row col num rest g g1 res g' dn1 db1 tr1 dn2 db2 tr2 Hfc _ IH1 _ IH2 Hwf Hin Hz.
    pose proof Hin as [Hr Hc]. simpl in Hr, Hc.
    destruct IH1 as (HP & _ & Hg1); [by apply grid_set_wf|].
    specialize (Hg1 eq_refl). subst g1.
    rewrite (grid_set_undo b) in * by done.
    destruct (IH2 Hwf Hin Hz) as (HQ & Hwf' & Hres).
    split_and!; [|done|done]. by apply case_failed.
Qed.

Lemma search_ind g res g' dn db tr :
  wf_grid b g -> bt s b g res g' dn db tr -> P g res g' dn db tr.
Proof. intros Hwf Hbt. by apply search_ind_both in Hbt as (? & _ & _). Qed.

End SearchInduction.

Lemma bt_wf s b g res g' dn db tr :
  wf_grid b g -> bt s b g res g' dn db tr -> wf_grid b g'.
Proof.
  intros Hwf Hbt.
  eapply (search_ind_both s b (fun _ _ _ _ _ _ => True) (fun _ _ _ _ _ _ _ _ _ => True))
    in Hbt; try done.
  by destruct Hbt as (_ & ? & _).
Qed.

Lemma bt_restores s b g g' dn db tr :
  wf_grid b g -> bt s b g false g' dn db tr -> g' = g.
Proof.
  intros Hwf Hbt.
  eapply (search_ind_both s b (fun _ _ _ _ _ _ => True) (fun _ _ _ _ _ _ _ _ _ => True))
    in Hbt; try done.
  destruct Hbt as (_ & _ & H). by apply H.
Qed.

(** The methods that read a board use only its [n] and [board_size]. *)
Section SameShape.
Variables b wb : SudokuBoard.
Hypothesis same_n : n wb = n b.
Hypothesis same_size : board_size wb = board_size b.

Lemma same_shape_valid g : is_valid_solution wb g = is_valid_solution b g.
Proof. destruct b, wb; simpl in *; subst; reflexivity. Qed.

Lemma same_shape_consistent g : consistent wb g = consistent b g.
Proof. destruct b, wb; simpl in *; subst; reflexivity. Qed.

Lemma same_shape_candidates g r c : get_candidates wb g r c = get_candidates b g r c.
Proof. destruct b, wb; simpl in *; subst; reflexivity. Qed.

Lemma same_shape_count_empty g : count_empty wb g = count_empty b g.
Proof. destruct b, wb; simpl in *; subst; reflexivity. Qed.

Lemma same_shape_in_range g : in_range wb g = in_range b g.
Proof. destruct b, wb; simpl in *; subst; reflexivity. Qed.

Lemma same_shape_wf_grid g : wf_grid wb g <-> wf_grid b g.
Proof. unfold wf_grid. by rewrite same_size. Qed.

Lemma same_shape_in_grid p : in_grid wb p <-> in_grid b p.
Proof. unfold in_grid. by rewrite same_size. Qed.

Lemma same_shape_related p q : related wb p q <-> related b p q.
Proof. unfold related. by rewrite same_n. Qed.


Lemma same_shape_solvable g : solvable wb g <-> solvable b g.
Proof. destruct b, wb; simpl in *; subst; reflexivity. Qed.

Lemma same_shape_mrv_scan g cells m best :
  mrv_scan wb g cells m best = mrv_scan b g cells m best.
Proof.
  revert m best. induction cells as [|[r c] rest IH]; intros m best; simpl; [done|].
  rewrite same_shape_candidates, !IH. done.
Qed.

Lemma same_shape_select s g :
  _select_unassigned_variable s wb g = _select_unassigned_variable s b g.
Proof.
  unfold _select_unassigned_variable. by rewrite same_shape_mrv_scan, same_size.
Qed.
End SameShape.

Lemma wf_boardb_true h b : wf_boardb h b = true -> wf_board h b.
Proof.
  unfold wf_boardb. rewrite !andb_true_iff.
  intros ((((Hn & Hs) & Hnd) & Hl) & Hrows).
  apply Nat.ltb_lt in Hn. apply Nat.eqb_eq in Hs, Hl.
  apply bool_decide_eq_true in Hnd.
  split_and!; try done.
  apply Forall_forall. intros l Hin%list_elem_of_In.
  rewrite forallb_forall in Hrows. specialize (Hrows l Hin).
  destruct (h !! l) as [row|]; [|done]. exists row. split; [done|].
  by apply Nat.eqb_eq.
Qed.

(** [solve] copies the board and runs the search on the copy. *)
Lemma solve_runs s h b :
  wf_board h b ->
  exists h1 wb r,
    copy h b = (h1, wb) /\
    solve s h b = Some r /\
    solved_board r = (if success r then Some wb else None) /\
    wf_board h1 wb /\ view h1 wb = view h b /\
    n wb = n b /\ board_size wb = board_size b /\
    (forall l, is_Some (h !! l) -> h1 !! l = h !! l /\ l ∉ board wb) /\
    run_post wb (bt s wb) (initial_state h1) (success r) (final r).
Proof.
  intros Hwf. destruct (copy h b) as [h1 wb] eqn:Hcopy.
  destruct (copy_spec _ _ _ _ Hwf Hcopy) as (Hwf1 & Hview & Hn & Hs & Hold).
  destruct (backtrack_runs s wb (S (count_empty b (view h b))) (initial_state h1))
    as (res & st' & Hrun & Hpost).
  { done. }
  { change (heap (initial_state h1)) with h1.
    rewrite Hview, (same_shape_count_empty b wb) by done. lia. }
  unfold solve, solve_fuel. rewrite Hcopy, Hrun.
  destruct res; eexists h1, wb, _; (split_and!; [done | done | ..]); simpl; done.
Qed.

(** Any recursion depth beyond the number of empty cells gives the result
    of [solve]. *)
Lemma solve_fuel_enough s h b fuel :
  wf_board h b -> count_empty b (view h b) < fuel ->
  solve_fuel fuel s h b = solve s h b.
Proof.
  intros Hwf Hfuel. destruct (solve_runs s h b Hwf) as (h1 & wb & r & Hcopy & Hsolve & _).
  rewrite Hsolve. unfold solve, solve_fuel in *. rewrite Hcopy in *.
  destruct (_backtrack (S _) s wb (initial_state h1)) as [[res st']|] eqn:Hrun; [|done].
  apply (backtrack_fuel_mono _ _ _ fuel) in Hrun; [|lia]. by rewrite Hrun.
Qed.


(** ** The caller's board *)

(** C8. [solve] works on a private deep copy: when it returns, every row
    object that existed before the call holds what it held (so every cell
    of the caller's board reads as before, through [get] with any indices),
    whatever the outcome, and the rows of a returned board are new
    objects. *)
Theorem solve_leaves_input_unchanged s h b :
  wf_board h b ->
  exists r, solve s h b = Some r /\
       (forall l, is_Some (h !! l) -> heap (final r) !! l = h !! l) /\
       view (heap (final r)) b = view h b /\
       (forall row col, get (heap (final r)) b row col = get h b row col) /\
       (forall wb, solved_board r = Some wb ->
              forall l, l ∈ board wb -> h !! l = None).
Proof.
  intros Hwf.
  destruct (solve_runs s h b Hwf)
    as (h1 & wb & r & Hcopy & Hsolve & Hsb & Hwf1 & Hview & Hn & Hs & Hold & Hpost).
  destruct Hpost as (dn & db & tr & _ & Hframe & _).
  exists r. split; [done|].
  assert (Hkeep : forall l, is_Some (h !! l) -> heap (final r) !! l = h !! l).
  { intros l Hl. destruct (Hold l Hl) as [Hl1 Hnin]. by rewrite Hframe. }
  assert (Hrows : forall l, l ∈ board b -> heap (final r) !!! l = h !!! l).
  { intros l Hl. rewrite !lookup_total_alt, Hkeep; [done|].
    destruct Hwf as (_ & _ & _ & _ & Hall). rewrite Forall_forall in Hall.
    destruct (Hall l Hl) as (row & -> & _). done. }
  split_and!; [done | | |].
  - apply view_ext. intros l Hl. apply Hkeep.
    destruct Hwf as (_ & _ & _ & _ & Hall). rewrite Forall_forall in Hall.
    destruct (Hall l Hl) as (row & -> & _). done.
  - intros row col. unfold get, py_getitem.
    destruct (py_index (length (board b)) row) as [k|]; [|done].
    destruct (board b !! k) as [l|] eqn:Hk; [|done].
    rewrite Hrows; [done|]. by eapply list_elem_of_lookup_2.
  - intros wb' Hwb' l Hl. rewrite Hsb in Hwb'.
    destruct (success r); [|done]. injection Hwb' as <-.
    destruct (h !! l) as [row|] eqn:Hhl; [|done].
    destruct (Hold l) as [_ Hnin]; [by rewrite Hhl|]. done.
Qed.

Lemma solve_leaves_input_unchanged_witness :
  exists r, solve mrv_fc example_heap example_board = Some r /\
       (forall l, is_Some (example_heap !! l) ->
             heap (final r) !! l = example_heap !! l) /\
       view (heap (final r)) example_board
       = view example_heap example_board /\
       (forall row col, get (heap (final r)) example_board row col
                   = get example_heap example_board row col) /\
       (forall wb, solved_board r = Some wb ->
              forall l, l ∈ board wb -> example_heap !! l = None).
Proof.
  apply solve_leaves_input_unchanged.
  apply wf_boardb_true. vm_compute. reflexivity.
Defined.

(** ** Soundness *)

Lemma get_candidates_range b g r c v :
  v ∈ get_candidates b g r c -> (1 <= v <= Z.of_nat (board_size b))%Z.
Proof.
  unfold get_candidates. destruct (negb _); [by intros ?%elem_of_nil|].
  destruct (get_box_index b r c) as [br bc].
  rewrite elem_of_discard_all, !list_elem_of_filter, list_elem_of_fmap.
  intros ((_ & _ & k & -> & Hk%elem_of_seq) & _). lia.
Qed.

Lemma cellp_grid_set b g r c v p :
  wf_grid b g -> in_grid b (r, c) ->
  cellp (grid_set g r c v) p = if decide (p = (r, c)) then v else cellp g p.
Proof.
  intros Hwf [Hr Hc]. simpl in *. unfold cellp. erewrite cell_grid_set by done.
  destruct p as [r' c']. simpl.
  destruct (decide (r' = r /\ c' = c)) as [[-> ->]|Hne].
  - by rewrite decide_True.
  - rewrite decide_False; [done|]. intros [= -> ->]. tauto.
Qed.

(** A successful search ends on a grid that [is_valid_solution] accepts and
    that completes the grid it started from. *)
Lemma bt_sound s b g g' dn db tr :
  wf_grid b g -> bt s b g true g' dn db tr ->
  is_valid_solution b g' = true /\ completes b g g'.
Proof.
  intros Hwf Hbt. split; [|split; [by eapply bt_wf|]]; revert Hwf Hbt.
  - intros Hwf Hbt. revert g' dn db tr Hwf Hbt.
    cut (forall g res g' dn db tr, wf_grid b g -> bt s b g res g' dn db tr ->
                              res = true -> is_valid_solution b g' = true).
    { intros H g' dn db tr Hwf Hbt. by eapply H. }
    intros g0 res g' dn db tr Hwf Hbt.
    eapply (search_ind s b
              (fun _ res g' _ _ _ => res = true -> is_valid_solution b g' = true)
              (fun _ _ _ _ res g' _ _ _ => res = true -> is_valid_solution b g' = true));
      [..|exact Hwf|exact Hbt]; try done; auto.
  - intros Hwf Hbt.
    pose (ext := fun g g' : Grid => forall p, in_grid b p ->
       (cellp g p <> 0%Z -> cellp g' p = cellp g p) /\
       (cellp g p = 0%Z -> (1 <= cellp g' p <= Z.of_nat (board_size b))%Z)).
    change (ext g g'). revert Hwf Hbt.
    cut (forall g res g' dn db tr, wf_grid b g -> bt s b g res g' dn db tr ->
                              res = true -> ext g g').
    { intros H Hwf Hbt. by eapply H. }
    clear g g' dn db tr. intros g res g' dn db tr Hwf Hbt.
    eapply (search_ind s b
              (fun g res g' _ _ _ => res = true -> ext g g')
              (fun row col cands g res g' _ _ _ =>
                 (forall v, v ∈ cands -> (1 <= v <= Z.of_nat (board_size b))%Z) ->
                 res = true -> ext g g'));
      [..|exact Hwf|exact Hbt]; try done.
    + intros g1 Hwf1 Hsel _ p Hp. split; [done|].
      intros Hz. by destruct (select_None _ _ _ Hsel p Hp).
    + intros g1 row col res1 g1' _ _ _ Hwf1 Hsel Hin Hz Hne HQ Hres.
      apply HQ; [|done]. intros v. apply get_candidates_range.
    + intros row col num rest g1 res1 g1' _ _ _ Hwf1 Hin Hz Hfc HQ Hr Hres.
      apply HQ; [|done]. intros v Hv. apply Hr. by right.
    + intros row col num rest g1 g1' _ _ _ Hwf1 Hin Hz Hfc _ HP Hr _ p Hp.
      destruct (HP eq_refl p Hp) as [Hkeep Hfill].
      rewrite (cellp_grid_set b) in Hkeep, Hfill by done.
      assert (Hnum : (1 <= num <= Z.of_nat (board_size b))%Z) by (apply Hr; by left).
      destruct (decide (p = (row, col))) as [->|Hne].
      * split; [intros Hnz; by destruct Hnz|]. intros _. rewrite Hkeep by lia. done.
      * done.
    + intros row col num rest g1 res1 g1' _ _ _ _ _ _ Hwf1 Hin Hz Hfc _ HQ Hr Hres.
      apply HQ; [|done]. intros v Hv. apply Hr. by right.
Qed.

Lemma in_range_spec b g :
  in_range b g = true <->
  (forall p, in_grid b p -> (0 <= cellp g p <= Z.of_nat (board_size b))%Z).
Proof.
  unfold in_range. rewrite forallb_forall. split.
  - intros H [r c] Hp%elem_of_positions_in_grid%list_elem_of_In.
    specialize (H _ Hp). simpl in H. unfold cellp. simpl. lia.
  - intros H [r c] Hp%list_elem_of_In%elem_of_positions_in_grid.
    specialize (H _ Hp). unfold cellp in H. simpl in H. lia.
Qed.

Lemma NoDup_range_permutation (l : list Z) k :
  NoDup l -> length l = k ->
  (forall x, x ∈ l -> (1 <= x <= Z.of_nat k)%Z) ->
  l ≡ₚ Z.of_nat <$> seq 1 k.
Proof.
  intros Hnd Hlen Hrange. apply submseteq_length_Permutation.
  - apply NoDup_submseteq; [done|]. intros x Hx%Hrange.
    apply list_elem_of_fmap. exists (Z.to_nat x). split; [lia|]. apply elem_of_seq. lia.
  - rewrite length_fmap, length_seq. lia.
Qed.

Lemma length_box_cells b g br bc : length (box_cells b g br bc) = n b * n b.
Proof. by rewrite box_cells_positions, length_fmap, length_box_positions. Qed.

(** On a grid with cells in [0, board_size], what [is_valid_solution]
    accepts holds each value exactly once in every row, column and box. *)
Lemma valid_in_range_once b g :
  0 < n b -> board_size b = n b * n b -> wf_grid b g ->
  is_valid_solution b g = true -> in_range b g = true ->
  units_exactly_once b g.
Proof.
  intros Hn Hside Hwf Hvalid Hrange.
  pose proof (proj1 (is_valid_solution_spec b g Hn Hside Hwf) Hvalid) as [Hfull _].
  rewrite in_range_spec in Hrange.
  assert (Hcell : forall p, in_grid b p -> (1 <= cellp g p <= Z.of_nat (board_size b))%Z).
  { intros p Hp. specialize (Hfull p Hp). specialize (Hrange p Hp). lia. }
  unfold is_valid_solution in Hvalid.
  destruct (is_complete b g); [|done]. simpl in Hvalid.
  apply andb_true_iff in Hvalid as [Hrc Hbox].
  rewrite forallb_forall in Hrc. rewrite forallb_forall in Hbox.
  split.
  - intros i Hi. specialize (Hrc i). rewrite andb_true_iff, !Nat.eqb_eq in Hrc.
    destruct Hrc as [Hrow Hcol]; [apply list_elem_of_In, elem_of_seq; lia|].
    split; apply NoDup_range_permutation.
    + apply distinct_count_NoDup. rewrite Hrow, (row_of_cells b) by done.
      by rewrite length_fmap, length_row_cells.
    + rewrite (row_of_cells b) by done. by rewrite length_fmap, length_row_cells.
    + intros x. rewrite (row_of_cells b) by done.
      intros (p & -> & [Hp1 Hp2]%elem_of_row_cells)%list_elem_of_fmap.
      apply Hcell. split; lia.
    + apply distinct_count_NoDup. rewrite Hcol, column_cells.
      by rewrite length_fmap, length_col_cells.
    + rewrite column_cells. by rewrite length_fmap, length_col_cells.
    + intros x. rewrite column_cells.
      intros (p & -> & [Hp1 Hp2]%elem_of_col_cells)%list_elem_of_fmap.
      apply Hcell. split; lia.
  - intros br bc Hbr Hbc. specialize (Hbox br (proj1 (list_elem_of_In _ _) Hbr)).
    rewrite forallb_forall in Hbox.
    specialize (Hbox bc (proj1 (list_elem_of_In _ _) Hbc)). apply Nat.eqb_eq in Hbox.
    rewrite Hside in Hbr, Hbc.
    apply elem_of_range_step_boxes in Hbr as (k1 & Hk1 & ->); [|done].
    apply elem_of_range_step_boxes in Hbc as (k2 & Hk2 & ->); [|done].
    apply NoDup_range_permutation.
    + apply distinct_count_NoDup. rewrite Hbox, length_box_cells. done.
    + rewrite length_box_cells. done.
    + intros x. rewrite box_cells_positions.
      intros (p & -> & [Hp1 Hp2]%elem_of_box_positions)%list_elem_of_fmap.
      apply Hcell. split; rewrite Hside; nia.
Qed.

(** Whenever [solve] reports success, [is_valid_solution] accepts the
    returned board, which completes the input. *)
Lemma solve_success_valid s h b r :
  wf_board h b -> solve s h b = Some r -> success r = true ->
  exists wb, solved_board r = Some wb /\
        n wb = n b /\ board_size wb = board_size b /\
        wf_grid b (view (heap (final r)) wb) /\
        is_valid_solution wb (view (heap (final r)) wb) = true /\
        completes b (view h b) (view (heap (final r)) wb).
Proof.
  intros Hwf Hsolve Hsucc.
  destruct (solve_runs s h b Hwf)
    as (h1 & wb & r' & Hcopy & Hsolve' & Hsb & Hwf1 & Hview & Hn & Hs & Hold & Hpost).
  rewrite Hsolve in Hsolve'. injection Hsolve' as <-.
  destruct Hpost as (dn & db & tr & Hwf' & _ & _ & _ & _ & Hbt & _).
  rewrite Hsucc in Hsb, Hbt. exists wb. split; [done|].
  change (heap (initial_state h1)) with h1 in Hbt. rewrite Hview in Hbt.
  assert (Hwfg : wf_grid wb (view h b)).
  { apply (same_shape_wf_grid b wb); [done|]. by apply view_wf. }
  destruct (bt_sound _ _ _ _ _ _ _ Hwfg Hbt) as [Hvalid [Hwfg' Hext]].
  split_and!; try done.
  - by apply (same_shape_wf_grid b wb).
  - split; [by apply (same_shape_wf_grid b wb)|].
    intros p Hp. rewrite <- Hs. apply Hext. by apply (same_shape_in_grid b wb).
Qed.




(** ** The consistency invariant *)

Lemma related_sym b p q : related b p q -> related b q p.
Proof. unfold related. intros [?|[?|[? ?]]]; auto. Qed.

(** Writing a candidate into its empty cell keeps the grid consistent. *)
Lemma consistent_grid_set b g r c v :
  0 < n b -> board_size b = n b * n b -> wf_grid b g -> in_grid b (r, c) ->
  consistent b g = true -> v ∈ get_candidates b g r c ->
  consistent b (grid_set g r c v) = true.
Proof.
  intros Hn Hside Hwf Hin Hcons Hv. pose proof Hin as [Hr Hc]. simpl in Hr, Hc.
  apply (elem_of_get_candidates b g r c v Hn Hside Hwf Hr Hc) in Hv
    as (Hz & Hrange & Hfree).
  rewrite consistent_spec in Hcons by done.
  apply consistent_spec; [done | done | by apply grid_set_wf |].
  intros p q Hp Hq Hne Hrel. rewrite !(cellp_grid_set b) by done.
  destruct (decide (p = (r, c))) as [->|Hp'].
  - rewrite decide_False by done. intros _ Heq. by apply (Hfree q Hq Hrel).
  - destruct (decide (q = (r, c))) as [->|Hq'].
    + intros _. apply Hfree; [done|]. by apply related_sym.
    + by apply Hcons.
Qed.

Lemma bt_consistent s b g res g' dn db tr :
  0 < n b -> board_size b = n b * n b -> wf_grid b g ->
  bt s b g res g' dn db tr -> consistent b g = true ->
  Forall (event_consistent b) tr.
Proof.
  intros Hn Hside Hwf Hbt.
  eapply (search_ind s b
            (fun g _ _ _ _ tr => consistent b g = true -> Forall (event_consistent b) tr)
            (fun row col cands g _ _ _ _ tr =>
               (forall v, v ∈ cands -> v ∈ get_candidates b g row col) ->
               consistent b g = true -> Forall (event_consistent b) tr));
    [..|exact Hwf|exact Hbt]; clear g res g' dn db tr Hwf Hbt.
  - intros g _ _ Hc. repeat constructor; [by intros ? [= <-] | done].
  - intros g row col _ _ _ Hc. repeat constructor; try done. by intros ? [= <-].
  - intros g row col res g' dn db tr Hwf Hsel Hin Hz Hne HQ Hc.
    constructor; [split; [by intros ? [= <-] | done]|]. by apply HQ.
  - intros. constructor.
  - intros row col num rest g res g' dn db tr Hwf Hin Hz Hfc HQ Hcands Hc.
    constructor; [|constructor].
    + split.
      * intros ? [= <-]. apply consistent_grid_set; try done. apply Hcands. by left.
      * intros ???? [= <- <- <- <-]. exists g. split_and!; [done | | done].
        apply Hcands. by left.
    + split; [by intros ? [= <-] | done].
    + apply HQ; [|done]. intros v Hv. apply Hcands. by right.
  - intros row col num rest g g' dn db tr Hwf Hin Hz Hfc _ HP Hcands Hc.
    assert (Hc1 : consistent b (grid_set g row col num) = true).
    { apply consistent_grid_set; try done. apply Hcands. by left. }
    constructor; [|by apply HP].
    split; [by intros ? [= <-]|].
    intros ???? [= <- <- <- <-]. exists g. split_and!; [done | | done].
    apply Hcands. by left.
  - intros row col num rest g res g' dn1 db1 tr1 dn2 db2 tr2 Hwf Hin Hz Hfc HP HQ Hcands Hc.
    assert (Hc1 : consistent b (grid_set g row col num) = true).
    { apply consistent_grid_set; try done. apply Hcands. by left. }
    constructor.
    { split; [by intros ? [= <-]|].
      intros ???? [= <- <- <- <-]. exists g. split_and!; [done | | done].
      apply Hcands. by left. }
    apply Forall_app. split; [by apply HP|].
    constructor; [split; [by intros ? [= <-] | done]|].
    apply HQ; [|done]. intros v Hv. apply Hcands. by right.
Qed.

(** C2.  If the input board satisfies the consistency invariant, so does
    every board state the search passes through: the board at every call
    of [_backtrack] (the snapshot handed to the step callback), after
    every trial assignment and after every undo; and every trial
    assignment writes a value of the candidate set of its cell, taken on a
    consistent board. *)
Theorem search_keeps_consistent s h b :
  wf_board h b -> consistent b (view h b) = true ->
  exists r, solve s h b = Some r /\
       (forall e g, e ∈ trace (final r) -> event_grid e = Some g ->
               consistent b g = true) /\
       (forall row col num g', Trial row col num g' ∈ trace (final r) ->
          exists g, consistent b g = true /\ num ∈ get_candidates b g row col /\
               g' = grid_set g row col num).
Proof.
  intros Hwf Hcons.
  destruct (solve_runs s h b Hwf)
    as (h1 & wb & r & Hcopy & Hsolve & Hsb & Hwf1 & Hview & Hn & Hs & Hold & Hpost).
  destruct Hpost as (dn & db & tr & _ & _ & _ & _ & Htr & Hbt & _).
  simpl in Htr. change (heap (initial_state h1)) with h1 in Hbt. rewrite Hview in Hbt.
  pose proof Hwf as (Hnpos & Hside & _).
  assert (Hall : Forall (event_consistent wb) tr).
  { eapply bt_consistent; [lia | lia | | exact Hbt |].
    - apply (same_shape_wf_grid b wb); [done|]. by apply view_wf.
    - by rewrite (same_shape_consistent b wb). }
  rewrite Forall_forall in Hall.
  exists r. rewrite Htr. split_and!; [done | |].
  - intros e g He Hg. destruct (Hall e He) as [H _].
    rewrite <- (same_shape_consistent b wb) by done. by apply H.
  - intros row col num g' He. destruct (Hall _ He) as [_ H].
    destruct (H row col num g' eq_refl) as (g & Hc & Hv & ->).
    exists g. rewrite <- (same_shape_consistent b wb), <- (same_shape_candidates b wb) by done.
    done.
Qed.

Lemma search_keeps_consistent_witness :
  exists r, solve mrv_fc example_heap example_board = Some r /\
       (forall e g, e ∈ trace (final r) -> event_grid e = Some g ->
               consistent example_board g = true) /\
       (forall row col num g', Trial row col num g' ∈ trace (final r) ->
          exists g, consistent example_board g = true /\
               num ∈ get_candidates example_board g row col /\
               g' = grid_set g row col num).
Proof.
  apply search_keeps_consistent.
  - apply wf_boardb_true. vm_compute. reflexivity.
  - vm_compute. reflexivity.
Defined.

(** ** The counters *)

Lemma bt_counters s b g res g' dn db tr :
  wf_grid b g -> bt s b g res g' dn db tr ->
  dn = length (List.filter is_node tr) /\ db = length (List.filter is_undo tr).
Proof.
  intros Hwf Hbt.
  eapply (search_ind s b
            (fun _ _ _ dn db tr =>
               dn = length (List.filter is_node tr) /\ db = length (List.filter is_undo tr))
            (fun _ _ _ _ _ _ dn db tr =>
               dn = length (List.filter is_node tr) /\ db = length (List.filter is_undo tr)));
    [..|exact Hwf|exact Hbt]; clear; try done;
    intros; repeat match goal with H : _ /\ _ |- _ => destruct H as [-> ->] end;
    simpl; rewrite ?List.filter_app, ?length_app; simpl; (done || lia).
Qed.

Lemma filter_flip_one {A} (f f' : A -> bool) (l : list A) x :
  NoDup l -> x ∈ l -> f x = true -> f' x = false ->
  (forall y, y ∈ l -> y <> x -> f' y = f y) ->
  length (List.filter f' l) + 1 = length (List.filter f l).
Proof.
  induction l as [|a l IH]; intros Hnd Hx Hfx Hf'x Hsame; [by apply elem_of_nil in Hx|].
  apply NoDup_cons in Hnd as [Hal Hnd]. simpl.
  apply elem_of_cons in Hx as [<-|Hx].
  - rewrite Hfx, Hf'x. simpl.
    assert (List.filter f' l = List.filter f l) as ->; [|lia].
    apply List.filter_ext_in. intros y Hy%list_elem_of_In.
    apply Hsame; [by right|]. intros ->. done.
  - assert (Hne : a <> x) by (intros ->; done).
    rewrite (Hsame a (list_elem_of_here _ _) Hne).
    specialize (IH Hnd Hx Hfx Hf'x (fun y Hy => Hsame y (list_elem_of_further _ _ _ Hy))).
    destruct (f a); simpl; lia.
Qed.

Lemma count_empty_grid_set_exact b g r c v :
  wf_grid b g -> in_grid b (r, c) -> cell g r c = 0%Z -> v <> 0%Z ->
  count_empty b (grid_set g r c v) + 1 = count_empty b g.
Proof.
  intros Hwf [Hr Hc] Hz Hv. simpl in *. unfold count_empty.
  apply (filter_flip_one _ _ _ (r, c)).
  - apply NoDup_positions.
  - by apply elem_of_positions.
  - by apply Z.eqb_eq.
  - apply Z.eqb_neq. by erewrite cell_grid_set_eq.
  - intros [r' c'] _ Hne. by erewrite cell_grid_set_ne.
Qed.

Lemma count_empty_complete b g : is_complete b g = true -> count_empty b g = 0.
Proof.
  unfold is_complete, count_empty.
  induction (positions (board_size b)) as [|[r c] ps IH]; simpl; [done|].
  intros [Hc Hps]%andb_true_iff. apply negb_true_iff in Hc. rewrite Hc. by apply IH.
Qed.

(** Every trial assignment is undone, and counted then, or is still on
    the board when the search returns. *)
Lemma bt_trials_undone s b g res g' dn db tr :
  wf_grid b g -> bt s b g res g' dn db tr ->
  length (List.filter is_trial tr) + count_empty b g' = db + count_empty b g.
Proof.
  intros Hwf Hbt.
  eapply (search_ind s b
            (fun g _ g' _ db tr =>
               length (List.filter is_trial tr) + count_empty b g' = db + count_empty b g)
            (fun _ _ cands g _ g' _ db tr =>
               (forall v, v ∈ cands -> v <> 0%Z) ->
               length (List.filter is_trial tr) + count_empty b g' = db + count_empty b g));
    [..|exact Hwf|exact Hbt]; clear g res g' dn db tr Hwf Hbt; try done.
  - intros g row col res g' dn db tr _ _ _ _ _ HQ. simpl. apply HQ.
    apply get_candidates_nonzero.
  - intros row col num rest g res g' dn db tr _ _ _ _ HQ Hnz. simpl.
    specialize (HQ (fun v Hv => Hnz v (list_elem_of_further _ _ _ Hv))). lia.
  - intros row col num rest g g' dn db tr Hwf Hin Hz _ _ HP Hnz. simpl.
    rewrite <- (count_empty_grid_set_exact b g row col num); try done; [lia|].
    apply Hnz. by left.
  - intros row col num rest g res g' dn1 db1 tr1 dn2 db2 tr2 _ _ _ _ HP HQ Hnz. simpl.
    rewrite List.filter_app, length_app. simpl.
    specialize (HQ (fun v Hv => Hnz v (list_elem_of_further _ _ _ Hv))). lia.
Qed.

(** Calls and trials: every call of [_backtrack] but the first follows a
    trial assignment that passed the forward check. *)
Lemma bt_calls s b g res g' dn db tr :
  wf_grid b g -> bt s b g res g' dn db tr ->
  dn + length (List.filter is_undo_forward tr) = 1 + length (List.filter is_trial tr).
Proof.
  intros Hwf Hbt.
  eapply (search_ind s b
            (fun _ _ _ dn _ tr =>
               dn + length (List.filter is_undo_forward tr)
               = 1 + length (List.filter is_trial tr))
            (fun _ _ _ _ _ _ dn _ tr =>
               dn + length (List.filter is_undo_forward tr)
               = length (List.filter is_trial tr)));
    [..|exact Hwf|exact Hbt]; clear g res g' dn db tr Hwf Hbt.
  - done.
  - done.
  - intros g row col res g' dn db tr _ _ _ _ _ HQ. simpl. lia.
  - done.
  - intros row col num rest g res g' dn db tr _ _ _ _ HQ. simpl. lia.
  - intros row col num rest g g' dn db tr _ _ _ _ _ HP. simpl. lia.
  - intros row col num rest g res g' dn1 db1 tr1 dn2 db2 tr2 _ _ _ _ HP HQ. simpl.
    rewrite !List.filter_app, !length_app. simpl. lia.
Qed.

(** C6, as amended.  During a [solve] call [nodes_explored] is
    incremented exactly once per call of [_backtrack]: once for the call
    that [solve] makes and once after every trial assignment that passes
    the forward check, so it is one more than the number of trial
    assignments less those undone by the forward check.
    [backtrack_count] is incremented exactly once per undone trial
    assignment, on the forward-checking undo path and on the
    failed-recursion undo path; the dead-end return undoes nothing and
    leaves the counter alone.  Every trial assignment is either undone,
    and counted then, or fills one of the cells of the returned
    solution. *)
Theorem counters_count_calls_and_undos s h b :
  wf_board h b ->
  exists r, solve s h b = Some r /\
       nodes_explored (final r) = length (List.filter is_node (trace (final r))) /\
       nodes_explored (final r)
       + length (List.filter is_undo_forward (trace (final r)))
       = 1 + length (List.filter is_trial (trace (final r))) /\
       backtrack_count (final r) = length (List.filter is_undo (trace (final r))) /\
       length (List.filter is_trial (trace (final r)))
       = backtrack_count (final r)
         + (if success r then count_empty b (view h b) else 0).
Proof.
  intros Hwf.
  destruct (solve_runs s h b Hwf)
    as (h1 & wb & r & Hcopy & Hsolve & Hsb & Hwf1 & Hview & Hn & Hs & Hold & Hpost).
  destruct Hpost as (dn & db & tr & _ & _ & Hdn & Hdb & Htr & Hbt & Hres).
  simpl in Hdn, Hdb, Htr. change (heap (initial_state h1)) with h1 in Hbt, Hres.
  rewrite Hview in Hbt, Hres.
  assert (Hwfg : wf_grid wb (view h b)).
  { apply (same_shape_wf_grid b wb); [done|]. by apply view_wf. }
  destruct (bt_counters _ _ _ _ _ _ _ _ Hwfg Hbt) as [Hn1 Hn2].
  pose proof (bt_calls _ _ _ _ _ _ _ _ Hwfg Hbt) as Hcalls.
  pose proof (bt_trials_undone _ _ _ _ _ _ _ _ Hwfg Hbt) as Ht.
  rewrite !(same_shape_count_empty b wb) in Ht by done.
  exists r. rewrite Hdn, Hdb, Htr. split_and!; [done | done | done | done |].
  destruct (success r) eqn:Hsucc.
  - destruct (bt_sound _ _ _ _ _ _ _ Hwfg Hbt) as [Hvalid _].
    assert (Hc : count_empty b (view (heap (final r)) wb) = 0).
    { rewrite <- (same_shape_count_empty b wb) by done. apply count_empty_complete.
      unfold is_valid_solution in Hvalid. by destruct (is_complete wb _). }
    lia.
  - rewrite Hres in Ht by done. lia.
Qed.

Lemma counters_count_calls_and_undos_witness :
  exists r, solve mrv_fc example_heap example_board = Some r /\
       nodes_explored (final r) = length (List.filter is_node (trace (final r))) /\
       nodes_explored (final r)
       + length (List.filter is_undo_forward (trace (final r)))
       = 1 + length (List.filter is_trial (trace (final r))) /\
       backtrack_count (final r) = length (List.filter is_undo (trace (final r))) /\
       length (List.filter is_trial (trace (final r)))
       = backtrack_count (final r)
         + (if success r
            then count_empty example_board
                             (view example_heap example_board)
            else 0).
Proof.
  apply counters_count_calls_and_undos.
  apply wf_boardb_true. vm_compute. reflexivity.
Defined.

(** C6, as stated, fails on the dead-end path: on [dead_end_4x4] the first
    call selects cell (0, 3), finds its candidate set empty and returns;
    [backtrack_count] stays 0. *)
Lemma dead_end_is_not_counted :
  _select_unassigned_variable mrv_fc (load 2 dead_end_4x4).2 dead_end_4x4 = Some (0, 3) /\
  get_candidates (load 2 dead_end_4x4).2 dead_end_4x4 0 3 = [] /\
  exists r, solve mrv_fc (load 2 dead_end_4x4).1 (load 2 dead_end_4x4).2 = Some r /\
       success r = false /\
       trace (final r) = [Node dead_end_4x4; DeadEnd 0 3] /\
       nodes_explored (final r) = 1 /\
       backtrack_count (final r) = 0.
Proof.
  split; [vm_compute; reflexivity|]. split; [vm_compute; reflexivity|].
  assert (solve mrv_fc (load 2 dead_end_4x4).1 (load 2 dead_end_4x4).2 = solved_dead_end)
    as -> by (vm_compute; reflexivity).
  unfold solved_dead_end. eexists. split; [reflexivity|]. by split_and!.
Qed.

(** ** Completeness: the heuristics do not change the outcome *)

Section Complete.
Variable b : SudokuBoard.
Hypothesis n_pos : 0 < n b.
Hypothesis side_square : board_size b = n b * n b.

(** The value a solution holds in an empty cell is a candidate for it. *)
Lemma solution_candidate g F p :
  wf_grid b g -> completes b g F -> is_valid_solution b F = true ->
  in_grid b p -> cellp g p = 0%Z ->
  cellp F p ∈ get_candidates b g p.1 p.2.
Proof.
  intros Hwf [HwfF Hext] Hvalid Hp Hz.
  apply is_valid_solution_spec in Hvalid as [_ Hdiff]; [|done..].
  destruct Hp as [Hp1 Hp2].
  apply elem_of_get_candidates; try done.
  destruct (Hext p (conj Hp1 Hp2)) as [_ Hfill]. specialize (Hfill Hz).
  split_and!; [done | lia | lia |].
  intros q Hq Hrel. replace (p.1, p.2) with p in Hrel by by destruct p.
  destruct (decide (cellp g q = 0%Z)) as [Hq0|Hq0]; [lia|].
  destruct (Hext q Hq) as [Hkeep _]. rewrite <- (Hkeep Hq0).
  apply Hdiff; [done | done | | by apply related_sym].
  intros ->. done.
Qed.

Lemma completes_grid_set g F p :
  wf_grid b g -> completes b g F -> in_grid b p ->
  completes b (grid_set g p.1 p.2 (cellp F p)) F.
Proof.
  intros Hwf [HwfF Hext] Hp. split; [done|]. intros q Hq.
  rewrite (cellp_grid_set b) by (done || by destruct p).
  replace (p.1, p.2) with p by by destruct p.
  destruct (decide (q = p)) as [->|Hne]; [|by apply Hext].
  split; [done|]. intros Hz. destruct (Hext p Hp) as [Hkeep Hfill].
  destruct (decide (cellp g p = 0%Z)) as [H0|H0]; [by apply Hfill|].
  rewrite Hkeep in Hz by done. done.
Qed.

(** Forward checking never rejects a grid that has a solution. *)
Lemma solvable_is_consistent g F :
  wf_grid b g -> completes b g F -> is_valid_solution b F = true ->
  _is_consistent b g = true.
Proof.
  intros Hwf Hc Hvalid. unfold _is_consistent. apply forallb_forall.
  intros [r c] Hp%list_elem_of_In%elem_of_positions_in_grid.
  destruct (Z.eqb_spec (cell g r c) 0) as [Hz|]; [|done].
  pose proof (solution_candidate g F (r, c) Hwf Hc Hvalid Hp Hz) as Hin.
  simpl in Hin. destruct (get_candidates b g r c); [by apply elem_of_nil in Hin|done].
Qed.

(** A search that fails has shown that the grid has no solution. *)
Lemma bt_complete s g g' dn db tr :
  wf_grid b g -> bt s b g false g' dn db tr -> ~ solvable b g.
Proof.
  intros Hwf Hbt (F & Hc & Hvalid). revert F Hc Hvalid.
  cut (forall res, bt s b g res g' dn db tr -> res = false ->
       forall F, completes b g F -> is_valid_solution b F = true -> False).
  { intros H. by eapply H. }
  clear Hbt. intros res Hbt.
  eapply (search_ind s b
            (fun g res _ _ _ _ =>
               res = false ->
               forall F, completes b g F -> is_valid_solution b F = true -> False)
            (fun row col cands g res _ _ _ _ =>
               res = false ->
               forall F, completes b g F -> is_valid_solution b F = true ->
                    cellp F (row, col) ∉ cands));
    [..|exact Hwf|exact Hbt]; clear g res g' dn db tr Hwf Hbt.
  - intros g Hwf Hsel Hres F [HwfF Hext] Hvalid.
    assert (F = g) as ->; [|congruence].
    apply (grid_ext b); [done..|]. intros r c Hr Hc.
    destruct (Hext (r, c)) as [Hkeep _]; [by split|].
    apply Hkeep. apply (select_None _ _ _ Hsel). by split.
  - intros g row col Hwf Hsel Hnil _ F Hc Hvalid.
    destruct (select_Some _ _ _ _ _ Hsel) as [Hin Hz].
    pose proof (solution_candidate g F (row, col) Hwf Hc Hvalid Hin Hz) as Hcand.
    simpl in Hcand. rewrite Hnil in Hcand. by apply elem_of_nil in Hcand.
  - intros g row col res g' dn db tr Hwf Hsel Hin Hz Hne HQ Hres F Hc Hvalid.
    apply (HQ Hres F Hc Hvalid).
    apply (solution_candidate g F (row, col) Hwf Hc Hvalid Hin Hz).
  - intros row col g _ F _ _. apply not_elem_of_nil.
  - intros row col num rest g res g' dn db tr Hwf Hin Hz Hfc HQ Hres F Hc Hvalid.
    apply not_elem_of_cons. split; [|by apply HQ].
    intros Heq. unfold forward_check_fails in Hfc.
    apply andb_true_iff in Hfc as [_ Hfc]. apply negb_true_iff in Hfc.
    rewrite <- Heq in Hfc.
    rewrite (solvable_is_consistent _ F) in Hfc; [done | | | done].
    + apply grid_set_wf; [done | apply Hin].
    + apply (completes_grid_set g F (row, col)); done.
  - done.
  - intros row col num rest g res g' dn1 db1 tr1 dn2 db2 tr2 Hwf Hin Hz Hfc HP HQ Hres
           F Hc Hvalid.
    apply not_elem_of_cons. split; [|by apply HQ].
    intros Heq. apply (HP eq_refl F); [|done].
    rewrite <- Heq. apply (completes_grid_set g F (row, col)); done.
Qed.

(** The search succeeds exactly on the grids that have a solution,
    whatever the heuristics. *)
Lemma bt_success_iff s g res g' dn db tr :
  wf_grid b g -> bt s b g res g' dn db tr -> res = true <-> solvable b g.
Proof.
  intros Hwf Hbt. split.
  - intros ->. exists g'. destruct (bt_sound _ _ _ _ _ _ _ Hwf Hbt) as [Hvalid Hc]. done.
  - intros Hsol. destruct res; [done|]. by destruct (bt_complete _ _ _ _ _ _ Hwf Hbt).
Qed.

End Complete.

Lemma solve_success_iff s h b :
  wf_board h b ->
  exists r, solve s h b = Some r /\ (success r = true <-> solvable b (view h b)).
Proof.
  intros Hwf.
  destruct (solve_runs s h b Hwf)
    as (h1 & wb & r & Hcopy & Hsolve & Hsb & Hwf1 & Hview & Hn & Hs & Hold & Hpost).
  destruct Hpost as (dn & db & tr & _ & _ & _ & _ & _ & Hbt & _).
  change (heap (initial_state h1)) with h1 in Hbt. rewrite Hview in Hbt.
  pose proof Hwf as (Hnpos & Hside & _).
  exists r. split; [done|].
  rewrite <- (same_shape_solvable b wb) by done.
  eapply bt_success_iff; [lia | lia | | exact Hbt].
  apply (same_shape_wf_grid b wb); [done|]. by apply view_wf.
Qed.





(** ** A solved board with one cell cleared *)

Lemma select_complete s b g :
  (forall p, in_grid b p -> cellp g p <> 0%Z) ->
  _select_unassigned_variable s b g = None.
Proof.
  intros Hfull. destruct (_select_unassigned_variable s b g) as [[r c]|] eqn:Hsel; [|done].
  destruct (select_Some _ _ _ _ _ Hsel) as [Hin Hz]. by destruct (Hfull (r, c) Hin).
Qed.

Lemma select_sole_empty s b g row col :
  in_grid b (row, col) -> cell g row col = 0%Z ->
  (forall p, in_grid b p -> p <> (row, col) -> cellp g p <> 0%Z) ->
  _select_unassigned_variable s b g = Some (row, col).
Proof.
  intros Hin Hz Hothers.
  destruct (_select_unassigned_variable s b g) as [[r c]|] eqn:Hsel.
  - destruct (select_Some _ _ _ _ _ Hsel) as [Hin' Hz'].
    destruct (decide ((r, c) = (row, col))) as [->|Hne]; [done|].
    by destruct (Hothers (r, c) Hin' Hne).
  - by destruct (select_None _ _ _ Hsel (row, col) Hin).
Qed.

Lemma NoDup_singleton_eq (l : list Z) v :
  NoDup l -> (forall w, w ∈ l <-> w = v) -> l = [v].
Proof.
  intros Hnd Hl. destruct l as [|a l].
  - pose proof (proj2 (Hl v) eq_refl) as H. by apply elem_of_nil in H.
  - assert (a = v) as -> by (apply Hl; left).
    destruct l as [|a' l]; [done|].
    assert (a' = v) as -> by (apply Hl; right; left).
    apply NoDup_cons in Hnd as [Hnin _]. destruct Hnin. left.
Qed.

Section LastCell.
Variable b : SudokuBoard.
Hypothesis n_pos : 0 < n b.
Hypothesis side_square : board_size b = n b * n b.
Variables (F : Grid) (row col : nat).
Hypothesis F_wf : wf_grid b F.
Hypothesis F_valid : is_valid_solution b F = true.
Hypothesis F_range : in_range b F = true.
Hypothesis cell_in_grid : in_grid b (row, col).

Lemma cleared_completes : completes b (grid_set F row col 0) F.
Proof.
  split; [done|]. intros p Hp. rewrite (cellp_grid_set b) by done.
  pose proof (proj1 (is_valid_solution_spec b F n_pos side_square F_wf) F_valid)
    as [Hfull _].
  pose proof (proj1 (in_range_spec b F) F_range p Hp) as Hrange.
  specialize (Hfull p Hp).
  destruct (decide (p = (row, col))) as [->|Hne]; (split; [done|]); intros; lia.
Qed.

(** The cleared cell has exactly one candidate: the value it held. *)
Lemma cleared_candidates :
  get_candidates b (grid_set F row col 0) row col = [cell F row col].
Proof.
  pose proof cell_in_grid as [Hr Hc]. simpl in Hr, Hc.
  assert (Hwf : wf_grid b (grid_set F row col 0)) by by apply grid_set_wf.
  apply NoDup_singleton_eq; [apply NoDup_get_candidates|].
  intros w. split.
  - intros Hw. apply elem_of_get_candidates in Hw as (_ & Hrange & Hfree); [|done..].
    destruct (valid_in_range_once b F n_pos side_square F_wf F_valid F_range) as [Hrows _].
    destruct (Hrows row Hr) as [Hrow _]. unfold exactly_once, values in Hrow.
    assert (Hin : w ∈ row_of F row).
    { rewrite Hrow. apply list_elem_of_fmap. exists (Z.to_nat w).
      split; [lia|]. apply elem_of_seq. lia. }
    rewrite (row_of_cells b) in Hin by done.
    apply list_elem_of_fmap in Hin as (q & -> & [Hq1 Hq2]%elem_of_row_cells).
    destruct (decide (q = (row, col))) as [->|Hne]; [done|].
    destruct (Hfree q) as []; [split; lia | by left |].
    rewrite (cellp_grid_set b) by done. by rewrite decide_False.
  - intros ->.
    pose proof (solution_candidate b n_pos side_square _ F (row, col) Hwf
                  cleared_completes F_valid cell_in_grid) as Hcand.
    apply Hcand. unfold cellp. simpl. by erewrite cell_grid_set_eq.
Qed.

(** The search on it: the call that fills the cell and the call that
    finds the board complete. *)
Lemma backtrack_last_cell s st fuel :
  wf_board (heap st) b -> view (heap st) b = grid_set F row col 0 ->
  _backtrack (S (S fuel)) s b st
  = Some (true, enter b (place b row col (cell F row col) (enter b st))).
Proof.
  intros Hwf Hview. pose proof cell_in_grid as [Hr Hc]. simpl in Hr, Hc.
  pose proof (proj1 (is_valid_solution_spec b F n_pos side_square F_wf) F_valid)
    as [Hfull _].
  assert (Hsel : _select_unassigned_variable s b (grid_set F row col 0) = Some (row, col)).
  { apply select_sole_empty; [done | by erewrite cell_grid_set_eq |].
    intros p Hp Hne. rewrite (cellp_grid_set b) by done. rewrite decide_False by done.
    by apply Hfull. }
  assert (Hv1 : view (heap (place b row col (cell F row col) (enter b st))) b = F).
  { rewrite view_place by done. simpl. rewrite Hview.
    erewrite grid_set_twice by done. by eapply grid_set_same. }
  cbn [_backtrack].
  change (view (heap (enter b st)) b) with (view (heap st) b).
  rewrite Hview, Hsel, cleared_candidates. cbn [length Nat.eqb trial_loop].
  rewrite Hv1.
  rewrite (solvable_is_consistent b n_pos side_square F F F_wf) by
    (done || (split; [done|]; intros p Hp; split; [done|]; intros Hz;
              by destruct (Hfull p Hp))).
  rewrite andb_false_r.
  change (view (heap (enter b (place b row col (cell F row col) (enter b st)))) b)
    with (view (heap (place b row col (cell F row col) (enter b st))) b).
  rewrite Hv1, (select_complete s b F Hfull), F_valid. done.
Qed.

End LastCell.

Lemma count_empty_pos b g row col :
  in_grid b (row, col) -> cell g row col = 0%Z -> 0 < count_empty b g.
Proof.
  intros Hin%(elem_of_positions_in_grid b)%list_elem_of_In Hz. unfold count_empty.
  assert (Hf : In (row, col) (List.filter (fun '(r, c) => (cell g r c =? 0)%Z)
                                         (positions (board_size b)))).
  { apply filter_In. split; [done|]. by apply Z.eqb_eq. }
  destruct (List.filter _ _); [done | simpl; lia].
Qed.

(** C5, as amended.  For a 9x9 board equal to a valid complete solution
    with exactly one cell cleared to 0, [solve], with MRV enabled as with
    any other setting of the flags, reports success with a node count of
    exactly 2 (the call that fills the cell and the call that finds the
    board complete) and a backtrack count of 0. *)
Theorem last_cell_takes_two_nodes s h0 b row col h :
  wf_board h0 b -> n b = 3 ->
  is_valid_solution b (view h0 b) = true -> in_range b (view h0 b) = true ->
  row < 9 -> col < 9 ->
  set h0 b (Z.of_nat row) (Z.of_nat col) 0 = Ok h ->
  exists r, solve s h b = Some r /\ success r = true /\
       nodes_explored (final r) = 2 /\ backtrack_count (final r) = 0.
Proof.
  intros Hwf0 Hn3 Hvalid Hrange Hrow Hcol Hset.
  pose proof Hwf0 as (Hn & Hside & _).
  assert (Hs9 : board_size b = 9) by (rewrite Hside, Hn3; done).
  rewrite set_in_range in Hset by (done || lia). injection Hset as <-.
  assert (Hwf : wf_board (write h0 b row col 0) b) by by apply write_wf.
  assert (Hview : view (write h0 b row col 0) b = grid_set (view h0 b) row col 0)
    by (apply view_write; [done | lia]).
  assert (Hin : in_grid b (row, col)) by (split; simpl; lia).
  destruct (copy (write h0 b row col 0) b) as [h1 wb] eqn:Hcopy.
  destruct (copy_spec _ _ _ _ Hwf Hcopy) as (Hwf1 & Hview1 & Hnwb & Hswb & _).
  unfold solve, solve_fuel. rewrite Hcopy.
  destruct (count_empty b (view (write h0 b row col 0) b)) as [|k] eqn:Hk.
  { pose proof (count_empty_pos b (view (write h0 b row col 0) b) row col Hin) as Hpos.
    rewrite Hview in Hpos, Hk.
    erewrite cell_grid_set_eq in Hpos; [|by apply view_wf|lia..].
    specialize (Hpos eq_refl). lia. }
  assert (Hnpos : 0 < n wb) by lia.
  assert (Hsq : board_size wb = n wb * n wb) by (rewrite Hswb, Hnwb; done).
  rewrite (backtrack_last_cell wb Hnpos Hsq (view h0 b) row col).
  - eexists. split; [done|]. done.
  - apply (same_shape_wf_grid b wb); [done..|]. by apply view_wf.
  - by rewrite (same_shape_valid b wb).
  - by rewrite (same_shape_in_range b wb).
  - by apply (same_shape_in_grid b wb).
  - done.
  - simpl. by rewrite Hview1.
Qed.

Lemma last_cell_takes_two_nodes_witness :
  exists r, solve mrv_fc (write (load 3 solved_9x9).1 (load 3 solved_9x9).2 4 4 0)
                  (load 3 solved_9x9).2 = Some r /\
       success r = true /\
       nodes_explored (final r) = 2 /\ backtrack_count (final r) = 0.
Proof.
  apply (last_cell_takes_two_nodes mrv_fc (load 3 solved_9x9).1 (load 3 solved_9x9).2 4 4).
  - apply wf_boardb_true. vm_compute. reflexivity.
  - vm_compute. reflexivity.
  - vm_compute. reflexivity.
  - vm_compute. reflexivity.
  - lia.
  - lia.
  - vm_compute. reflexivity.
Defined.

(** C5, as stated, fails: on the solved 9x9 board above with the centre
    cell cleared, [solve] with MRV (and forward checking) reports success
    after 2 calls of [_backtrack], not 1. *)
Lemma last_cell_is_not_one_node :
  is_valid_solution (load 3 solved_9x9).2 solved_9x9 = true /\
  view (load 3 solved_9x9).1 (load 3 solved_9x9).2 = solved_9x9 /\
  exists h r,
    set (load 3 solved_9x9).1 (load 3 solved_9x9).2 4 4 0 = Ok h /\
    solve mrv_fc h (load 3 solved_9x9).2 = Some r /\
    success r = true /\ nodes_explored (final r) = 2 /\ nodes_explored (final r) <> 1.
Proof.
  split; [vm_compute; reflexivity|]. split; [vm_compute; reflexivity|].
  exists (write (load 3 solved_9x9).1 (load 3 solved_9x9).2 4 4 0).
  assert (H : (fun r => (success r, nodes_explored (final r))) <$>
              solve mrv_fc (write (load 3 solved_9x9).1 (load 3 solved_9x9).2 4 4 0)
                    (load 3 solved_9x9).2 = Some (true, 2))
    by (vm_compute; reflexivity).
  destruct (solve mrv_fc _ _) as [r|]; [|done].
  injection H as H1 H2. exists r. rewrite H2.
  split_and!; [vm_compute; reflexivity | done | done | done | lia].
Qed.

(** ** Variable selection with MRV *)

Lemma seq_sorted j k : StronglySorted lt (seq j k).
Proof.
  revert j. induction k as [|k IH]; intros j; simpl; constructor; [apply IH|].
  apply Forall_forall. intros x Hx%elem_of_seq. lia.
Qed.

Lemma row_cells_sorted side r : StronglySorted row_major_lt (row_cells side r).
Proof.
  unfold row_cells. generalize (seq_sorted 0 side).
  induction (seq 0 side) as [|c cs IHc]; intros Hc; [constructor|].
  apply StronglySorted_cons in Hc as [Hc Hcs]. rewrite fmap_cons.
  constructor; [by apply IHc|].
  apply Forall_forall. intros q (c2 & -> & Hc2)%list_elem_of_fmap.
  right. simpl. split; [done|]. rewrite Forall_forall in Hc. by apply Hc.
Qed.

Lemma positions_sorted side : StronglySorted row_major_lt (positions side).
Proof.
  change (positions side) with (seq 0 side ≫= row_cells side).
  generalize (seq_sorted 0 side).
  induction (seq 0 side) as [|r rs IH]; intros Hs; [constructor|].
  apply StronglySorted_cons in Hs as [Hr Hs]. rewrite bind_cons.
  apply StronglySorted_app. split_and!; [|apply row_cells_sorted|by apply IH].
  intros p q [Hp _]%elem_of_row_cells (r2 & [Hq _]%elem_of_row_cells & Hr2)%list_elem_of_bind.
  left. rewrite Hp, Hq. rewrite Forall_forall in Hr. by apply Hr.
Qed.

(** Around a cell of the scan: the cells before it and the cells after
    it. *)
Lemma positions_split side pre p post q :
  positions side = pre ++ p :: post ->
  (q ∈ pre <-> (q ∈ positions side /\ row_major_lt q p)) /\
  (q ∈ post -> row_major_lt p q).
Proof.
  intros Hsplit. pose proof (positions_sorted side) as Hs. rewrite Hsplit in Hs.
  apply StronglySorted_app in Hs as (Hpre & _ & Hpost).
  apply StronglySorted_cons in Hpost as [Hpost _]. rewrite Forall_forall in Hpost.
  assert (Hirr : forall x, ~ row_major_lt x x) by (intros x [?|[_ ?]]; lia).
  assert (Hasym : forall x y, row_major_lt x y -> row_major_lt y x -> False).
  { intros x y [?|[? ?]] [?|[? ?]]; lia. }
  split; [|by apply Hpost]. split.
  - intros Hq. split; [rewrite Hsplit; apply elem_of_app; by left|].
    apply Hpre; [done | left].
  - intros [Hin Hlt]. rewrite Hsplit in Hin.
    apply elem_of_app in Hin as [Hin|Hin]; [done|].
    apply elem_of_cons in Hin as [->|Hin]; [by destruct (Hirr p)|].
    destruct (Hasym _ _ Hlt (Hpost _ Hin)).
Qed.

Section MRV.
Variables (b : SudokuBoard) (g : Grid).

(** The scan stops at the first empty cell without candidates. *)
Lemma mrv_scan_dead pre p post m best :
  dead_cell b g p -> (forall q, q ∈ pre -> ~ dead_cell b g q) ->
  mrv_scan b g (pre ++ p :: post) m best = Some p.
Proof.
  intros [Hz Hc] Hpre. revert m best.
  induction pre as [|[r c] pre IH]; intros m best; simpl.
  - destruct p as [r c]. unfold cellp, candidate_count in *. simpl in *.
    by rewrite Hz, Z.eqb_refl, Hc.
  - assert (IH' := IH (fun q Hq => Hpre q (list_elem_of_further _ _ _ Hq))).
    destruct (Z.eqb_spec (cell g r c) 0) as [Hz'|]; [|apply IH'].
    destruct (Nat.eqb_spec (length (get_candidates b g r c)) 0) as [Hc'|].
    { destruct (Hpre (r, c)); [left | done]. }
    destruct (_ <? m); apply IH'.
Qed.

(** Without such a cell it returns the first cell with the least number
    of candidates, when that number is below [m]. *)
Lemma mrv_scan_min cells : forall m best,
  (forall q, q ∈ cells -> ~ dead_cell b g q) ->
  (mrv_scan b g cells m best = best /\
   forall q, q ∈ cells -> cellp g q = 0%Z -> m <= candidate_count b g q) \/
  (exists pre p post,
      cells = pre ++ p :: post /\ mrv_scan b g cells m best = Some p /\
      cellp g p = 0%Z /\ candidate_count b g p < m /\
      (forall q, q ∈ pre -> cellp g q = 0%Z ->
            candidate_count b g p < candidate_count b g q) /\
      (forall q, q ∈ post -> cellp g q = 0%Z ->
            candidate_count b g p <= candidate_count b g q)).
Proof.
  induction cells as [|[r c] rest IH]; intros m best Hnd; simpl.
  { left. split; [done|]. by intros q ?%elem_of_nil. }
  assert (Hnd' : forall q, q ∈ rest -> ~ dead_cell b g q)
    by (intros q Hq; apply Hnd; by right).
  destruct (Z.eqb_spec (cell g r c) 0) as [Hz|Hnz].
  - destruct (Nat.eqb_spec (length (get_candidates b g r c)) 0) as [Hc|Hc].
    { destruct (Hnd (r, c)); [left | done]. }
    destruct (Nat.ltb_spec (length (get_candidates b g r c)) m) as [Hlt|Hge].
    + destruct (IH (length (get_candidates b g r c)) (Some (r, c)) Hnd')
        as [[Hres Hall] | (pre & p & post & -> & Hres & Hp0 & Hplt & Hpre & Hpost)].
      * right. exists [], (r, c), rest. split_and!; try done.
        intros q ?%elem_of_nil. done.
      * right. exists ((r, c) :: pre), p, post. split_and!; try done.
        -- unfold candidate_count in *. simpl in *. lia.
        -- intros q [->|Hq]%elem_of_cons Hq0; [done | by apply Hpre].
    + destruct (IH m best Hnd')
        as [[Hres Hall] | (pre & p & post & -> & Hres & Hp0 & Hplt & Hpre & Hpost)].
      * left. split; [done|].
        intros q [->|Hq]%elem_of_cons Hq0; [done | by apply Hall].
      * right. exists ((r, c) :: pre), p, post. split_and!; try done.
        intros q [->|Hq]%elem_of_cons Hq0; [|by apply Hpre].
        unfold candidate_count in *. simpl in *. lia.
  - destruct (IH m best Hnd')
      as [[Hres Hall] | (pre & p & post & -> & Hres & Hp0 & Hplt & Hpre & Hpost)].
    + left. split; [done|].
      intros q [->|Hq]%elem_of_cons Hq0; [done | by apply Hall].
    + right. exists ((r, c) :: pre), p, post. split_and!; try done.
      intros q [->|Hq]%elem_of_cons Hq0; [done | by apply Hpre].
Qed.

Lemma first_dead_cell (cells : list (nat * nat)) p :
  p ∈ cells -> dead_cell b g p ->
  exists pre p' post, cells = pre ++ p' :: post /\ dead_cell b g p' /\
                 forall q, q ∈ pre -> ~ dead_cell b g q.
Proof.
  induction cells as [|x rest IH]; intros Hin Hd; [by apply elem_of_nil in Hin|].
  destruct (decide (dead_cell b g x)) as [Hx|Hx].
  - exists [], x, rest. split_and!; [done | done |]. by intros q ?%elem_of_nil.
  - apply elem_of_cons in Hin as [->|Hin]; [done|].
    destruct (IH Hin Hd) as (pre & p' & post & -> & Hp' & Hpre).
    exists (x :: pre), p', post. split_and!; [done | done |].
    intros q [->|Hq]%elem_of_cons; [done | by apply Hpre].
Qed.

End MRV.

(** C4.  With MRV enabled and at least one empty cell, the selection
    returns an empty cell; if some empty cell has no candidate, it is the
    first such cell of the row-major scan; otherwise it is an empty cell
    with the smallest candidate count, and every empty cell before it in
    the scan has strictly more candidates. *)
Theorem mrv_selects_most_constrained s b g :
  use_mrv s = true ->
  (exists p, in_grid b p /\ cellp g p = 0%Z) ->
  exists p,
    _select_unassigned_variable s b g = Some p /\
    in_grid b p /\ cellp g p = 0%Z /\
    ((exists q, in_grid b q /\ dead_cell b g q) ->
     dead_cell b g p /\
     forall q, in_grid b q -> dead_cell b g q -> ~ row_major_lt q p) /\
    ((forall q, in_grid b q -> ~ dead_cell b g q) ->
     forall q, in_grid b q -> cellp g q = 0%Z ->
          candidate_count b g p <= candidate_count b g q /\
          (row_major_lt q p -> candidate_count b g p < candidate_count b g q)).
Proof.
  intros Hmrv (p0 & Hp0 & Hz0). unfold _select_unassigned_variable. rewrite Hmrv. simpl.
  destruct (decide (Exists (dead_cell b g) (positions (board_size b))))
    as [Hdead|Hnodead].
  - apply Exists_exists in Hdead as (q0 & Hq0%elem_of_positions_in_grid & Hd0).
    destruct (first_dead_cell b g (positions (board_size b)) q0)
      as (pre & p & post & Hsplit & Hp & Hpre); [by apply elem_of_positions_in_grid|done|].
    exists p. rewrite Hsplit, (mrv_scan_dead b g pre p post) by done.
    assert (Hpin : in_grid b p).
    { apply elem_of_positions_in_grid. rewrite Hsplit. apply elem_of_app. right. left. }
    split_and!; [done | done | apply Hp | |].
    + intros _. split; [done|]. intros q Hq Hdq Hlt.
      apply (Hpre q); [|done].
      apply (positions_split _ _ _ _ q Hsplit). split; [|done].
      by apply elem_of_positions_in_grid.
    + intros Hnone. by destruct (Hnone p Hpin).
  - assert (Hnd : forall q, q ∈ positions (board_size b) -> ~ dead_cell b g q).
    { intros q Hq Hd. apply Hnodead. apply Exists_exists. by exists q. }
    destruct (mrv_scan_min b g _ (board_size b + 1) None Hnd)
      as [[_ Hall] | (pre & p & post & Hsplit & Hres & Hpz & _ & Hpre & Hpost)].
    { specialize (Hall p0 (proj2 (elem_of_positions_in_grid b p0) Hp0) Hz0).
      pose proof (length_get_candidates b g p0.1 p0.2). unfold candidate_count in Hall. lia. }
    exists p. rewrite Hres.
    assert (Hpin : in_grid b p).
    { apply elem_of_positions_in_grid. rewrite Hsplit. apply elem_of_app. right. left. }
    split_and!; [done | done | done | |].
    + intros (q & Hq & Hd). destruct Hnodead. apply Exists_exists. exists q.
      split; [by apply elem_of_positions_in_grid | done].
    + intros _ q Hq Hqz.
      apply elem_of_positions_in_grid in Hq. pose proof Hq as Hq'.
      rewrite Hsplit in Hq'.
      destruct (positions_split _ _ _ _ q Hsplit) as [Hbefore Hafter].
      apply elem_of_app in Hq' as [Hq'|Hq'].
      * specialize (Hpre q Hq' Hqz). split; [lia | done].
      * apply elem_of_cons in Hq' as [->|Hq'].
        -- split; [done|]. intros [?|[_ ?]]; lia.
        -- split; [by apply Hpost|]. intros Hlt.
           apply Hpre; [|done]. apply Hbefore. done.
Qed.

Lemma mrv_selects_most_constrained_witness :
  exists p,
    _select_unassigned_variable mrv_fc example_board puzzle_4x4 = Some p /\
    in_grid example_board p /\ cellp puzzle_4x4 p = 0%Z /\
    ((exists q, in_grid example_board q /\ dead_cell example_board puzzle_4x4 q) ->
     dead_cell example_board puzzle_4x4 p /\
     forall q, in_grid example_board q ->
          dead_cell example_board puzzle_4x4 q -> ~ row_major_lt q p) /\
    ((forall q, in_grid example_board q -> ~ dead_cell example_board puzzle_4x4 q) ->
     forall q, in_grid example_board q -> cellp puzzle_4x4 q = 0%Z ->
          candidate_count example_board puzzle_4x4 p
          <= candidate_count example_board puzzle_4x4 q /\
          (row_major_lt q p ->
           candidate_count example_board puzzle_4x4 p
           < candidate_count example_board puzzle_4x4 q)).
Proof.
  apply mrv_selects_most_constrained.
  - reflexivity.
  - exists (0, 1). split; [split; vm_compute; lia | reflexivity].
Defined.

(** ** Loading a grid *)

(** [from_list] checks the dimensions and nothing else. *)
Lemma from_list_accepts h b g :
  length g = board_size b -> Forall (fun row => length row = board_size b) g ->
  exists h' b', from_list h b g = Ok (h', b') /\ view h' b' = g /\
           n b' = n b /\ board_size b' = board_size b.
Proof.
  intros Hlen Hrows. unfold from_list.
  rewrite (proj2 (Nat.eqb_eq _ _) Hlen). simpl.
  assert (existsb (fun row => negb (length row =? board_size b)) g = false) as ->.
  { apply not_true_iff_false. rewrite existsb_exists.
    intros (row & Hin%list_elem_of_In & Hne). rewrite Forall_forall in Hrows.
    rewrite (proj2 (Nat.eqb_eq _ _) (Hrows row Hin)) in Hne. done. }
  destruct (alloc_rows h g) as [ls h'] eqn:Hal.
  eexists _, _. split_and!; [done | | done | done].
  unfold view. simpl. by eapply alloc_rows_view.
Qed.

(** C7, on the code: [from_list] accepts a 4x4 grid that holds 5, a value
    exceeding [board_size]; the board it builds holds the 5. *)
Theorem from_list_accepts_value_above_side :
  exists h' b',
    from_list (init ∅ 2).1 (init ∅ 2).2 grid_out_of_range = Ok (h', b') /\
    board_size b' = 4 /\
    view h' b' = grid_out_of_range /\
    get h' b' 0 0 = Ok 5%Z.
Proof.
  destruct (from_list (init ∅ 2).1 (init ∅ 2).2 grid_out_of_range) as [[h' b']|e] eqn:Hfl.
  - exists h', b'.
    assert (H : match from_list (init ∅ 2).1 (init ∅ 2).2 grid_out_of_range with
                | Ok (h', b') => (board_size b', view h' b', get h' b' 0 0)
                | Raise _ => (0, [], Raise IndexError)
                end = (4, grid_out_of_range, Ok 5%Z)) by (vm_compute; reflexivity).
    rewrite Hfl in H. injection H as H1 H2 H3. done.
  - assert (H : match from_list (init ∅ 2).1 (init ∅ 2).2 grid_out_of_range with
                | Ok _ => true | Raise _ => false end = true) by (vm_compute; reflexivity).
    rewrite Hfl in H. done.
Qed.

(** ** Indices at the public interface *)

Lemma py_index_lt len i k : py_index len i = Some k -> k < len.
Proof.
  unfold py_index.
  destruct (Z.leb_spec 0 i), (Z.ltb_spec i (Z.of_nat len)); simpl;
    try (intros [= <-]; lia);
    destruct (Z.leb_spec (- Z.of_nat len) i), (Z.ltb_spec i 0); simpl;
    try done; intros [= <-]; lia.
Qed.

Lemma py_index_wrap len i :
  (- Z.of_nat len <= i < Z.of_nat len)%Z -> py_index len i = Some (wrap len i).
Proof.
  intros Hi. unfold wrap. destruct (Z.ltb_spec i 0).
  - rewrite py_index_negative by lia. f_equal. lia.
  - rewrite <- (Z2Nat.id i) at 1 by lia. apply py_index_nonneg. lia.
Qed.

Lemma access_at h b row col r c :
  wf_board h b ->
  py_index (board_size b) row = Some r -> py_index (board_size b) col = Some c ->
  get h b row col = Ok (cell (view h b) r c) /\
  is_empty h b row col = Ok (cell (view h b) r c =? 0)%Z /\
  forall v, set h b row col v = Ok (write h b r c v).
Proof.
  intros Hwf Hr Hc.
  pose proof (py_index_lt _ _ _ Hr) as Hrlt. pose proof (py_index_lt _ _ _ Hc) as Hclt.
  destruct (wf_board_row _ _ _ Hwf Hrlt) as (l & rw & Hl & Hrw & Hlen).
  destruct Hwf as (_ & _ & _ & Hblen & _).
  destruct (lookup_lt_is_Some_2 rw c) as [v Hv]; [lia|].
  assert (Hcell : cell (view h b) r c = v).
  { erewrite cell_lookup by (by apply view_lookup).
    rewrite lookup_total_alt, Hrw. simpl. by rewrite Hv. }
  unfold get, is_empty, set, write, py_getitem.
  rewrite Hblen, Hr, Hl, lookup_total_alt, Hrw. simpl. rewrite Hlen, Hc, Hv, Hcell. done.
Qed.

Lemma access_out_of_range h b row col :
  wf_board h b ->
  py_index (board_size b) row = None \/ py_index (board_size b) col = None ->
  get h b row col = Raise IndexError /\
  is_empty h b row col = Raise IndexError /\
  forall v, set h b row col v = Raise IndexError.
Proof.
  intros Hwf Hnone. unfold get, is_empty, set, py_getitem.
  pose proof Hwf as (_ & _ & _ & Hblen & _). rewrite Hblen.
  destruct (py_index (board_size b) row) as [r|] eqn:Hr; [|done].
  destruct Hnone as [|Hc]; [done|].
  pose proof (py_index_lt _ _ _ Hr) as Hrlt.
  destruct (wf_board_row _ _ _ Hwf Hrlt) as (l & rw & Hl & Hrw & Hlen).
  rewrite Hl, lookup_total_alt, Hrw. simpl. rewrite Hlen, Hc. done.
Qed.

(** C10.  [get], [set] and [is_empty] index the grid as Python lists do:
    for row and column indices in [-board_size, board_size), so also in
    [-board_size, -1], they access the cell counted from the end of the
    grid for a negative index ([get(-1, 0)] reads the bottom-left cell)
    without failing, and an index at or above [board_size] fails with
    [IndexError]. *)
Theorem accessors_follow_python_indexing h b :
  wf_board h b ->
  (forall row col,
      (- Z.of_nat (board_size b) <= row < Z.of_nat (board_size b))%Z ->
      (- Z.of_nat (board_size b) <= col < Z.of_nat (board_size b))%Z ->
      get h b row col
      = Ok (cell (view h b) (wrap (board_size b) row) (wrap (board_size b) col)) /\
      is_empty h b row col
      = Ok (cell (view h b) (wrap (board_size b) row) (wrap (board_size b) col) =? 0)%Z /\
      forall v, set h b row col v
           = Ok (write h b (wrap (board_size b) row) (wrap (board_size b) col) v)) /\
  (forall i, (- Z.of_nat (board_size b) <= i < 0)%Z ->
        wrap (board_size b) i = board_size b - Z.to_nat (- i)) /\
  get h b (-1) 0 = Ok (cell (view h b) (board_size b - 1) 0) /\
  (forall row col,
      (Z.of_nat (board_size b) <= row \/ Z.of_nat (board_size b) <= col)%Z ->
      get h b row col = Raise IndexError /\
      is_empty h b row col = Raise IndexError /\
      forall v, set h b row col v = Raise IndexError).
Proof.
  intros Hwf. pose proof Hwf as (Hn & Hside & _).
  assert (Hpos : 0 < board_size b) by (rewrite Hside; nia).
  split_and!.
  - intros row col Hrow Hcol. apply access_at; [done | by apply py_index_wrap..].
  - intros i Hi. unfold wrap. destruct (Z.ltb_spec i 0); lia.
  - destruct (access_at h b (-1) 0 (board_size b - 1) 0 Hwf) as [Hget _]; [| |done].
    + rewrite py_index_negative by lia. f_equal.
    + apply (py_index_nonneg _ 0). lia.
  - intros row col Hout. apply access_out_of_range; [done|].
    destruct Hout; [left | right]; by apply py_index_too_large.
Qed.

Lemma accessors_follow_python_indexing_witness :
  (forall row col,
      (- Z.of_nat (board_size example_board) <= row
       < Z.of_nat (board_size example_board))%Z ->
      (- Z.of_nat (board_size example_board) <= col
       < Z.of_nat (board_size example_board))%Z ->
      get example_heap example_board row col
      = Ok (cell (view example_heap example_board)
                 (wrap (board_size example_board) row)
                 (wrap (board_size example_board) col)) /\
      is_empty example_heap example_board row col
      = Ok (cell (view example_heap example_board)
                 (wrap (board_size example_board) row)
                 (wrap (board_size example_board) col) =? 0)%Z /\
      forall v, set example_heap example_board row col v
           = Ok (write example_heap example_board
                       (wrap (board_size example_board) row)
                       (wrap (board_size example_board) col) v)) /\
  (forall i, (- Z.of_nat (board_size example_board) <= i < 0)%Z ->
        wrap (board_size example_board) i
        = board_size example_board - Z.to_nat (- i)) /\
  get example_heap example_board (-1) 0
  = Ok (cell (view example_heap example_board)
             (board_size example_board - 1) 0) /\
  (forall row col,
      (Z.of_nat (board_size example_board) <= row
       \/ Z.of_nat (board_size example_board) <= col)%Z ->
      get example_heap example_board row col = Raise IndexError /\
      is_empty example_heap example_board row col = Raise IndexError /\
      forall v, set example_heap example_board row col v
           = Raise IndexError).
Proof.
  apply accessors_follow_python_indexing.
  apply wf_boardb_true. vm_compute. reflexivity.
Defined.

(** ** Loading a string *)

Lemma read_digit_ascii c :
  is_ascii c = true ->
  read_digit c = Ok (digit_value c) /\
  (0 <= digit_value c <= 35)%Z /\
  (isalnum c = false -> digit_value c = 0%Z).
Proof.
  destruct c as [[] [] [] [] [] [] [] []]; intros Ha; try discriminate Ha;
    vm_compute; (split; [reflexivity|]); (split; [split; discriminate|]);
    intros H; (reflexivity || discriminate H).
Qed.

Lemma lowercase_digit c :
  between 97 122 (code c) = true -> read_digit c = Ok (Z.of_nat (code c) - 87)%Z.
Proof.
  destruct c as [[] [] [] [] [] [] [] []]; intros H; vm_compute in H;
    try discriminate H; vm_compute; reflexivity.
Qed.

Lemma strip_ascii l c :
  Forall (fun c => is_ascii c = true) l -> c ∈ strip l -> is_ascii c = true.
Proof.
  intros Hl Hc. unfold strip in Hc.
  apply list_elem_of_In, filter_In in Hc as [Hc _].
  apply in_map_iff in Hc as (c' & <- & Hc'%list_elem_of_In).
  rewrite Forall_forall in Hl. destruct (Ascii.eqb c' "."); [done | by apply Hl].
Qed.

Section Fill.
Variables (b : SudokuBoard) (puzzle : list ascii).
Hypothesis puzzle_ascii : Forall (fun c => is_ascii c = true) puzzle.

Lemma fill_spec cells : forall h,
  wf_board h b -> NoDup cells ->
  (forall q, q ∈ cells -> in_grid b q /\ is_Some (puzzle !! (q.1 * board_size b + q.2))) ->
  wf_board (fill b puzzle cells h).1 b /\
  match (fill b puzzle cells h).2 with
  | Ok _ =>
      (forall q, q ∈ cells ->
            exists ch, puzzle !! (q.1 * board_size b + q.2) = Some ch /\
                  (digit_value ch <= Z.of_nat (board_size b))%Z /\
                  cellp (view (fill b puzzle cells h).1 b) q = digit_value ch) /\
      (forall q, in_grid b q -> q ∉ cells ->
            cellp (view (fill b puzzle cells h).1 b) q = cellp (view h b) q)
  | Raise e =>
      exists q ch, q ∈ cells /\ puzzle !! (q.1 * board_size b + q.2) = Some ch /\
              (digit_value ch > Z.of_nat (board_size b))%Z /\
              e = ValueError_value (digit_value ch)
  end.
Proof.
  induction cells as [|[i j] rest IH]; intros h Hwf Hnd Hcells; cbn [fill].
  { simpl. split; [done|]. split; [by intros q ?%elem_of_nil | done]. }
  apply NoDup_cons in Hnd as [Hnin Hnd].
  destruct (Hcells (i, j)) as [Hin [ch Hch]]; [left|]. simpl in Hch. rewrite Hch.
  assert (Hascii : is_ascii ch = true).
  { rewrite Forall_forall in puzzle_ascii. apply puzzle_ascii.
    by eapply list_elem_of_lookup_2. }
  destruct (read_digit_ascii ch Hascii) as (Hread & _ & _). rewrite Hread.
  destruct (Z.gtb_spec (digit_value ch) (Z.of_nat (board_size b))) as [Hgt|Hle].
  - simpl. split; [done|]. exists (i, j), ch. split_and!; [left | done | lia | done].
  - assert (Hwf1 : wf_board (write h b i j (digit_value ch)) b) by by apply write_wf.
    destruct (IH (write h b i j (digit_value ch)) Hwf1 Hnd) as [Hwf' Hres].
    { intros q Hq. apply Hcells. by right. }
    split; [done|].
    assert (Hview : view (write h b i j (digit_value ch)) b
                    = grid_set (view h b) i j (digit_value ch))
      by (apply view_write; [done | apply Hin]).
    destruct ((fill b puzzle rest (write h b i j (digit_value ch))).2) as [[]|e].
    + destruct Hres as [Hset Hkeep]. split.
      * intros q [->|Hq]%elem_of_cons; [|by apply Hset].
        exists ch. split_and!; [done | lia |].
        rewrite Hkeep by done. rewrite Hview.
        rewrite (cellp_grid_set b) by (done || by apply view_wf).
        by rewrite decide_True.
      * intros q Hq [Hne Hnr]%not_elem_of_cons. rewrite Hkeep by done.
        rewrite Hview, (cellp_grid_set b) by (done || by apply view_wf).
        by rewrite decide_False.
    + destruct Hres as (q & ch' & Hq & Hch' & Hgt & ->).
      exists q, ch'. split_and!; [by right | done | done | done].
Qed.

End Fill.

(** What [read_digit] does with a character, ASCII or not. *)
Lemma read_digit_cases c :
  (isalnum c = false -> read_digit c = Ok 0%Z) /\
  (between 97 122 (code c) = true -> read_digit c = Ok (Z.of_nat (code c) - 87)%Z) /\
  (is_ascii c = true -> read_digit c = Ok (digit_value c)) /\
  (forall e, read_digit c = Raise e ->
        isalnum c = true /\ is_ascii c = false /\ e = ValueError_literal c) /\
  (forall v, read_digit c = Ok v -> v = digit_value c /\ (0 <= v <= 35)%Z).
Proof.
  destruct c as [[] [] [] [] [] [] [] []]; vm_compute;
    (split; [intros H; (reflexivity || discriminate H)|]);
    (split; [intros H; (reflexivity || discriminate H)|]);
    (split; [intros H; (reflexivity || discriminate H)|]);
    (split; [intros e H; (discriminate H || (injection H as <-; by split_and!))
            |intros v H; (discriminate H || (injection H as <-; by split_and!))]).
Qed.

(** The loops of [from_string] on any string: they stop at the first
    character that is read as a value above [board_size], or that
    [isalnum] accepts and [int] does not read. *)
Lemma fill_result b puzzle cells : forall h,
  wf_board h b -> NoDup cells ->
  (forall q, q ∈ cells -> in_grid b q /\ is_Some (puzzle !! (q.1 * board_size b + q.2))) ->
  wf_board (fill b puzzle cells h).1 b /\
  match (fill b puzzle cells h).2 with
  | Ok _ =>
      (forall q, q ∈ cells ->
            exists ch, puzzle !! (q.1 * board_size b + q.2) = Some ch /\
                  read_digit ch = Ok (digit_value ch) /\
                  (digit_value ch <= Z.of_nat (board_size b))%Z /\
                  cellp (view (fill b puzzle cells h).1 b) q = digit_value ch) /\
      (forall q, in_grid b q -> q ∉ cells ->
            cellp (view (fill b puzzle cells h).1 b) q = cellp (view h b) q)
  | Raise e =>
      exists q ch, q ∈ cells /\ puzzle !! (q.1 * board_size b + q.2) = Some ch /\
              ((read_digit ch = Ok (digit_value ch) /\
                (digit_value ch > Z.of_nat (board_size b))%Z /\
                e = ValueError_value (digit_value ch)) \/
               (isalnum ch = true /\ is_ascii ch = false /\
                e = ValueError_literal ch))
  end.
Proof.
  induction cells as [|[i j] rest IH]; intros h Hwf Hnd Hcells; cbn [fill].
  { simpl. split; [done|]. split; [by intros q ?%elem_of_nil | done]. }
  apply NoDup_cons in Hnd as [Hnin Hnd].
  destruct (Hcells (i, j)) as [Hin [ch Hch]]; [left|]. simpl in Hch. rewrite Hch.
  destruct (read_digit_cases ch) as (_ & _ & _ & Hraise & Hok).
  destruct (read_digit ch) as [val|e] eqn:Hread.
  2:{ simpl. split; [done|]. exists (i, j), ch.
      destruct (Hraise e eq_refl) as (Hal & Hna & ->).
      split_and!; [left | done | by right]. }
  destruct (Hok val eq_refl) as [-> _].
  destruct (Z.gtb_spec (digit_value ch) (Z.of_nat (board_size b))) as [Hgt|Hle].
  - simpl. split; [done|]. exists (i, j), ch.
    split_and!; [left | done |]. left. split_and!; [done | lia | done].
  - assert (Hwf1 : wf_board (write h b i j (digit_value ch)) b) by by apply write_wf.
    destruct (IH (write h b i j (digit_value ch)) Hwf1 Hnd) as [Hwf' Hres].
    { intros q Hq. apply Hcells. by right. }
    split; [done|].
    assert (Hview : view (write h b i j (digit_value ch)) b
                    = grid_set (view h b) i j (digit_value ch))
      by (apply view_write; [done | apply Hin]).
    destruct ((fill b puzzle rest (write h b i j (digit_value ch))).2) as [[]|e].
    + destruct Hres as [Hset Hkeep]. split.
      * intros q [->|Hq]%elem_of_cons; [|by apply Hset].
        exists ch. split_and!; [done | done | lia |].
        rewrite Hkeep by done. rewrite Hview.
        rewrite (cellp_grid_set b) by (done || by apply view_wf).
        by rewrite decide_True.
      * intros q Hq [Hne Hnr]%not_elem_of_cons. rewrite Hkeep by done.
        rewrite Hview, (cellp_grid_set b) by (done || by apply view_wf).
        by rewrite decide_False.
    + destruct Hres as (q & ch' & Hq & Hch' & Hcase).
      exists q, ch'. split_and!; [by right | done | done].
Qed.

(** C9, as amended.  [from_string] never fails because of a character
    that is not alphanumeric: after ['.'] is replaced by ['0'] and spaces
    and newlines are dropped, such a character, ASCII or not, is read as
    0, and a letter of either case as its base-36 digit (so ['a'] is 10).
    The call fails when the length of what remains is not
    [board_size ** 2], when a value read exceeds [board_size], and in one
    more case: on a character that [isalnum] accepts and [int] does not
    read, which is never an ASCII one.  So on a string whose alphanumeric
    characters are all ASCII the first two are the only failures.
    Otherwise every cell holds the value read for it. *)
Theorem from_string_failures h b puzzle :
  wf_board h b ->
  (forall c,
      (isalnum c = false -> read_digit c = Ok 0%Z) /\
      (between 97 122 (code c) = true -> read_digit c = Ok (Z.of_nat (code c) - 87)%Z) /\
      (is_ascii c = true -> read_digit c = Ok (digit_value c)) /\
      (forall e, read_digit c = Raise e ->
            isalnum c = true /\ is_ascii c = false /\ e = ValueError_literal c)) /\
  read_digit "a" = Ok 10%Z /\
  match (from_string h b puzzle).2 with
  | Ok _ =>
      length (strip (list_ascii_of_string puzzle)) = board_size b * board_size b /\
      forall i j, i < board_size b -> j < board_size b ->
             exists ch, strip (list_ascii_of_string puzzle) !! (i * board_size b + j) = Some ch /\
                   read_digit ch = Ok (digit_value ch) /\
                   (digit_value ch <= Z.of_nat (board_size b))%Z /\
                   cell (view (from_string h b puzzle).1 b) i j = digit_value ch
  | Raise e =>
      (e = ValueError_length /\
       length (strip (list_ascii_of_string puzzle)) <> board_size b * board_size b) \/
      (length (strip (list_ascii_of_string puzzle)) = board_size b * board_size b /\
       exists i j ch, i < board_size b /\ j < board_size b /\
                 strip (list_ascii_of_string puzzle) !! (i * board_size b + j) = Some ch /\
                 ((read_digit ch = Ok (digit_value ch) /\
                   (digit_value ch > Z.of_nat (board_size b))%Z /\
                   e = ValueError_value (digit_value ch)) \/
                  (isalnum ch = true /\ is_ascii ch = false /\
                   e = ValueError_literal ch)))
  end /\
  ((forall c, c ∈ list_ascii_of_string puzzle -> isalnum c = true -> is_ascii c = true) ->
   forall e, (from_string h b puzzle).2 = Raise e ->
        e = ValueError_length \/ exists v, (v > Z.of_nat (board_size b))%Z /\ e = ValueError_value v).
Proof.
  intros Hwf.
  assert (Hres : match (from_string h b puzzle).2 with
  | Ok _ =>
      length (strip (list_ascii_of_string puzzle)) = board_size b * board_size b /\
      forall i j, i < board_size b -> j < board_size b ->
             exists ch, strip (list_ascii_of_string puzzle) !! (i * board_size b + j) = Some ch /\
                   read_digit ch = Ok (digit_value ch) /\
                   (digit_value ch <= Z.of_nat (board_size b))%Z /\
                   cell (view (from_string h b puzzle).1 b) i j = digit_value ch
  | Raise e =>
      (e = ValueError_length /\
       length (strip (list_ascii_of_string puzzle)) <> board_size b * board_size b) \/
      (length (strip (list_ascii_of_string puzzle)) = board_size b * board_size b /\
       exists i j ch, i < board_size b /\ j < board_size b /\
                 strip (list_ascii_of_string puzzle) !! (i * board_size b + j) = Some ch /\
                 ((read_digit ch = Ok (digit_value ch) /\
                   (digit_value ch > Z.of_nat (board_size b))%Z /\
                   e = ValueError_value (digit_value ch)) \/
                  (isalnum ch = true /\ is_ascii ch = false /\
                   e = ValueError_literal ch)))
  end).
  { unfold from_string.
    destruct (Nat.eqb_spec (length (strip (list_ascii_of_string puzzle)))
                           (board_size b * board_size b)) as [Hlen|Hlen]; simpl.
    2:{ left. done. }
    destruct (fill_result b (strip (list_ascii_of_string puzzle))
                          (positions (board_size b)) h Hwf (NoDup_positions _))
      as [_ Hres].
    { intros [i j] [Hi Hj]%elem_of_positions. split; [by split|].
      apply lookup_lt_is_Some_2. simpl. rewrite Hlen. nia. }
    destruct ((fill b _ (positions (board_size b)) h).2) as [[]|e].
    + destruct Hres as [Hset _]. split; [done|]. intros i j Hi Hj.
      apply (Hset (i, j)). by apply elem_of_positions.
    + right. split; [done|].
      destruct Hres as ([i j] & ch & [Hi Hj]%elem_of_positions & Hch & Hcase).
      by exists i, j, ch. }
  split_and!.
  - intros c. destruct (read_digit_cases c) as (H1 & H2 & H3 & H4 & _). done.
  - reflexivity.
  - exact Hres.
  - intros Hal e He. rewrite He in Hres.
    destruct Hres as [[-> _]|(_ & i & j & ch & _ & _ & Hch & Hcase)]; [by left|].
    destruct Hcase as [(_ & Hgt & ->)|(Halnum & Hna & _)].
    + right. by exists (digit_value ch).
    + exfalso. apply list_elem_of_lookup_2 in Hch.
      unfold strip in Hch.
      apply list_elem_of_In, filter_In in Hch as [Hch _].
      apply in_map_iff in Hch as (c' & Hc' & Hin%list_elem_of_In).
      destruct (Ascii.eqb c' ".") eqn:Hdot.
      * subst ch. vm_compute in Hna. done.
      * subst c'. rewrite (Hal ch Hin Halnum) in Hna. done.
Qed.

Lemma from_string_failures_witness :
  (forall c,
      (isalnum c = false -> read_digit c = Ok 0%Z) /\
      (between 97 122 (code c) = true -> read_digit c = Ok (Z.of_nat (code c) - 87)%Z) /\
      (is_ascii c = true -> read_digit c = Ok (digit_value c)) /\
      (forall e, read_digit c = Raise e ->
            isalnum c = true /\ is_ascii c = false /\ e = ValueError_literal c)) /\
  read_digit "a" = Ok 10%Z /\
  match (from_string (init ∅ 2).1 (init ∅ 2).2 puzzle_with_section_sign).2 with
  | Ok _ =>
      length (strip (list_ascii_of_string puzzle_with_section_sign))
      = board_size (init ∅ 2).2 * board_size (init ∅ 2).2 /\
      forall i j, i < board_size (init ∅ 2).2 -> j < board_size (init ∅ 2).2 ->
             exists ch, strip (list_ascii_of_string puzzle_with_section_sign)
                     !! (i * board_size (init ∅ 2).2 + j) = Some ch /\
                   read_digit ch = Ok (digit_value ch) /\
                   (digit_value ch <= Z.of_nat (board_size (init ∅ 2).2))%Z /\
                   cell (view (from_string (init ∅ 2).1 (init ∅ 2).2 puzzle_with_section_sign).1
                              (init ∅ 2).2) i j = digit_value ch
  | Raise e =>
      (e = ValueError_length /\
       length (strip (list_ascii_of_string puzzle_with_section_sign))
       <> board_size (init ∅ 2).2 * board_size (init ∅ 2).2) \/
      (length (strip (list_ascii_of_string puzzle_with_section_sign))
       = board_size (init ∅ 2).2 * board_size (init ∅ 2).2 /\
       exists i j ch, i < board_size (init ∅ 2).2 /\ j < board_size (init ∅ 2).2 /\
                 strip (list_ascii_of_string puzzle_with_section_sign)
                   !! (i * board_size (init ∅ 2).2 + j) = Some ch /\
                 ((read_digit ch = Ok (digit_value ch) /\
                   (digit_value ch > Z.of_nat (board_size (init ∅ 2).2))%Z /\
                   e = ValueError_value (digit_value ch)) \/
                  (isalnum ch = true /\ is_ascii ch = false /\
                   e = ValueError_literal ch)))
  end /\
  ((forall c, c ∈ list_ascii_of_string puzzle_with_section_sign ->
         isalnum c = true -> is_ascii c = true) ->
   forall e, (from_string (init ∅ 2).1 (init ∅ 2).2 puzzle_with_section_sign).2 = Raise e ->
        e = ValueError_length \/
        exists v, (v > Z.of_nat (board_size (init ∅ 2).2))%Z /\ e = ValueError_value v).
Proof.
  apply from_string_failures.
  apply wf_boardb_true. vm_compute. reflexivity.
Defined.

(** The section sign is neither ASCII nor alphanumeric: the puzzle that
    starts with it is loaded, with 0 in its first cell. *)
Lemma from_string_reads_section_sign_as_0 :
  is_ascii "167" = false /\ isalnum "167" = false /\
  (from_string (init ∅ 2).1 (init ∅ 2).2 puzzle_with_section_sign).2 = Ok tt /\
  view (from_string (init ∅ 2).1 (init ∅ 2).2 puzzle_with_section_sign).1 (init ∅ 2).2
  = [[0; 0; 3; 0]; [0; 0; 1; 0]; [0; 0; 4; 0]; [4; 0; 2; 0]]%Z.
Proof. split_and!; vm_compute; reflexivity. Qed.

(** C9, as stated, fails: the letter e with an acute accent is
    alphanumeric for [isalnum] and not a base-36 digit, so [from_string]
    fails on a 16-character puzzle that starts with it, with the
    [ValueError] of [int], which is neither of the two failures the claim
    allows. *)
Lemma from_string_rejects_accented_letter :
  isalnum "233" = true /\
  length (strip (list_ascii_of_string puzzle_with_accent)) = 16 /\
  board_size (init ∅ 2).2 = 4 /\
  (from_string (init ∅ 2).1 (init ∅ 2).2 puzzle_with_accent).2
  = Raise (ValueError_literal "233").
Proof. split_and!; vm_compute; reflexivity. Qed.

(** ** The constructors build well-formed boards *)

Lemma from_list_wf h b g h' b' :
  0 < n b -> board_size b = n b * n b ->
  from_list h b g = Ok (h', b') -> wf_board h' b' /\ view h' b' = g.
Proof.
  intros Hn Hside. unfold from_list.
  destruct (negb (length g =? board_size b)) eqn:Hlen; [done|].
  apply negb_false_iff, Nat.eqb_eq in Hlen. simpl.
  destruct (existsb _ g) eqn:Hrows; [done|].
  destruct (alloc_rows h g) as [ls h1] eqn:Hal. intros [= <- <-].
  destruct (alloc_rows_spec _ _ _ _ Hal) as (Hnd & _ & _ & Hall).
  pose proof (Forall2_length _ _ _ Hall) as Hl.
  split; [|unfold view; simpl; by eapply alloc_rows_view].
  unfold wf_board. simpl. split_and!; [done | done | done | lia |].
  apply Forall_forall. intros l Hin.
  apply list_elem_of_lookup in Hin as [i Hi].
  destruct (Forall2_lookup_l _ _ _ _ _ Hall Hi) as (row & Hrow & Hlk).
  exists row. split; [done|].
  apply list_elem_of_lookup_2, list_elem_of_In in Hrow.
  pose proof (proj2 (not_true_iff_false _) Hrows) as Hnone.
  destruct (Nat.eqb_spec (length row) (board_size b)) as [|Hne]; [done|].
  destruct Hnone. apply existsb_exists. exists row. split; [done|].
  by apply negb_true_iff, Nat.eqb_neq.
Qed.

(** ** The puzzles of the test suite *)

(** The 4x4 puzzle, for which the test suite gives the solution
    1234/3412/2143/4321. *)
Example solve_puzzle_4x4 :
  outcome mrv_fc (from_string (init ∅ 2).1 (init ∅ 2).2 "1.3...1...4.4.2.").1 (init ∅ 2).2
  = Some (true, Some [[1; 2; 3; 4]; [3; 4; 1; 2]; [2; 1; 4; 3]; [4; 3; 2; 1]]%Z, 11, 0).
Proof. vm_compute. reflexivity. Qed.

Example solve_easy_9x9 :
  outcome mrv_fc (from_string (init ∅ 3).1 (init ∅ 3).2 easy_9x9).1 (init ∅ 3).2
  = Some (true, Some solved_9x9, 52, 0).
Proof. vm_compute. reflexivity. Qed.

(** ** Checking a placement *)

Lemma existsb_eqb_elem_of (l : list Z) v :
  existsb (fun w => (w =? v)%Z) l = true <-> v ∈ l.
Proof.
  rewrite existsb_exists. split.
  - intros (w & Hin%list_elem_of_In & ->%Z.eqb_eq). done.
  - intros Hin. exists v. split; [by apply list_elem_of_In | apply Z.eqb_refl].
Qed.

Lemma in_box_in_grid b q r c :
  0 < n b -> board_size b = n b * n b -> r < board_size b -> c < board_size b ->
  q.1 / n b = r / n b -> q.2 / n b = c / n b -> in_grid b q.
Proof.
  intros Hn Hside Hr Hc Hq1 Hq2. rewrite Hside in Hr, Hc. split; rewrite Hside.
  - assert (q.1 / n b < n b) by (rewrite Hq1; apply div_lt_square; lia).
    destruct (div_interval (q.1 / n b) q.1 (n b) Hn) as [_ Hi].
    specialize (Hi eq_refl). nia.
  - assert (q.2 / n b < n b) by (rewrite Hq2; apply div_lt_square; lia).
    destruct (div_interval (q.2 / n b) q.2 (n b) Hn) as [_ Hi].
    specialize (Hi eq_refl). nia.
Qed.

(** [is_valid], cell by cell: no cell of the row, the column or the box
    holds [num], the cell itself included. *)
Lemma is_valid_spec b g r c num :
  0 < n b -> board_size b = n b * n b -> wf_grid b g ->
  r < board_size b -> c < board_size b ->
  is_valid b g r c num = true <->
  (forall q, in_grid b q -> related b (r, c) q -> cellp g q <> num).
Proof.
  intros Hn Hside Hwf Hr Hc. unfold is_valid, get_box_index.
  rewrite (row_of_cells b), column_cells, box_cells_positions by done.
  split.
  - destruct (bool_decide _) eqn:Hrow; [done|]. apply bool_decide_eq_false in Hrow.
    destruct (existsb _ (cellp g <$> col_cells _ _)) eqn:Hcol; [done|].
    apply not_true_iff_false in Hcol. rewrite existsb_eqb_elem_of in Hcol.
    rewrite negb_true_iff. intros Hbox.
    apply not_true_iff_false in Hbox. rewrite existsb_eqb_elem_of in Hbox.
    rewrite elem_of_cells_fmap in Hrow, Hcol, Hbox.
    intros q [Hq1 Hq2] [Hrel | [Hrel | [Hb1 Hb2]]]; simpl in *.
    + apply Hrow. apply elem_of_row_cells. split; [done | lia].
    + apply Hcol. apply elem_of_col_cells. split; [done | lia].
    + apply Hbox. apply elem_of_box; [done|]. split; congruence.
  - intros Hrel.
    rewrite bool_decide_eq_false_2.
    2:{ apply elem_of_cells_fmap. intros q [Hq1 Hq2]%elem_of_row_cells.
        apply Hrel; [split; lia|]. by left. }
    assert (existsb (fun v => (v =? num)%Z) (cellp g <$> col_cells (board_size b) c) = false)
      as ->.
    { apply not_true_iff_false. rewrite existsb_eqb_elem_of.
      apply elem_of_cells_fmap. intros q [Hq1 Hq2]%elem_of_col_cells.
      apply Hrel; [split; lia|]. right; left. done. }
    apply negb_true_iff, not_true_iff_false. rewrite existsb_eqb_elem_of.
    apply elem_of_cells_fmap. intros q [Hq1 Hq2]%elem_of_box; [|done].
    apply Hrel; [|right; right; simpl; split; congruence].
    by apply (in_box_in_grid b q r c).
Qed.

(** X1.  [get_candidates] returns exactly the values of [1 .. board_size]
    that no cell of the row, the column and the box of an empty cell
    holds, each once; for a filled cell it returns the empty set. *)
Theorem candidates_are_the_free_values h b r c :
  wf_board h b -> in_grid b (r, c) ->
  (forall v, v ∈ get_candidates b (view h b) r c <->
        cell (view h b) r c = 0%Z /\ (1 <= v <= Z.of_nat (board_size b))%Z /\
        (forall q, in_grid b q -> related b (r, c) q -> cellp (view h b) q <> v)) /\
  NoDup (get_candidates b (view h b) r c) /\
  (cell (view h b) r c <> 0%Z -> get_candidates b (view h b) r c = []).
Proof.
  intros Hwf [Hr Hc]. simpl in Hr, Hc. pose proof Hwf as (Hn & Hside & _).
  split_and!.
  - intros v. apply elem_of_get_candidates; try done. by apply view_wf.
  - apply NoDup_get_candidates.
  - intros Hnz. unfold get_candidates.
    by destruct (Z.eqb_spec (cell (view h b) r c) 0).
Qed.

Lemma candidates_are_the_free_values_witness :
  (forall v, v ∈ get_candidates example_board (view example_heap example_board) 0 1 <->
        cell (view example_heap example_board) 0 1 = 0%Z /\
        (1 <= v <= Z.of_nat (board_size example_board))%Z /\
        (forall q, in_grid example_board q -> related example_board (0, 1) q ->
              cellp (view example_heap example_board) q <> v)) /\
  NoDup (get_candidates example_board (view example_heap example_board) 0 1) /\
  (cell (view example_heap example_board) 0 1 <> 0%Z ->
   get_candidates example_board (view example_heap example_board) 0 1 = []).
Proof.
  apply candidates_are_the_free_values.
  - apply wf_boardb_true. vm_compute. reflexivity.
  - split; vm_compute; lia.
Defined.

(** X2.  [is_valid] and [get_candidates] agree: the candidates of a cell
    are the values of [1 .. board_size] that [is_valid] accepts for it
    when the cell is empty.  [is_valid] does not look at the cell being
    empty: it rejects the value the cell holds, whatever it is. *)
Theorem is_valid_agrees_with_candidates h b r c :
  wf_board h b -> in_grid b (r, c) ->
  (forall num, num ∈ get_candidates b (view h b) r c <->
          cell (view h b) r c = 0%Z /\ (1 <= num <= Z.of_nat (board_size b))%Z /\
          is_valid b (view h b) r c num = true) /\
  is_valid b (view h b) r c (cell (view h b) r c) = false.
Proof.
  intros Hwf [Hr Hc]. simpl in Hr, Hc. pose proof Hwf as (Hn & Hside & _).
  pose proof (view_wf _ _ Hwf) as Hwfg. split.
  - intros num. rewrite elem_of_get_candidates, is_valid_spec by done. done.
  - apply not_true_iff_false. rewrite is_valid_spec by done.
    intros H. apply (H (r, c)); [by split | by left | done].
Qed.

Lemma is_valid_agrees_with_candidates_witness :
  (forall num, num ∈ get_candidates example_board (view example_heap example_board) 0 1 <->
          cell (view example_heap example_board) 0 1 = 0%Z /\
          (1 <= num <= Z.of_nat (board_size example_board))%Z /\
          is_valid example_board (view example_heap example_board) 0 1 num = true) /\
  is_valid example_board (view example_heap example_board) 0 1
           (cell (view example_heap example_board) 0 1) = false.
Proof.
  apply is_valid_agrees_with_candidates.
  - apply wf_boardb_true. vm_compute. reflexivity.
  - split; vm_compute; lia.
Defined.

(** X3.  A placement that [is_valid] accepts keeps the board free of
    duplicates: on a board where no row, column or box holds a nonzero
    value twice, [set(row, col, num)] after [is_valid(row, col, num)]
    gives such a board again. *)
Theorem valid_placement_keeps_consistency h b r c num :
  wf_board h b -> in_grid b (r, c) ->
  consistent b (view h b) = true ->
  is_valid b (view h b) r c num = true ->
  exists h', set h b (Z.of_nat r) (Z.of_nat c) num = Ok h' /\
        wf_board h' b /\
        cell (view h' b) r c = num /\
        consistent b (view h' b) = true.
Proof.
  intros Hwf Hin Hcons Hvalid. pose proof Hin as [Hr Hc]. simpl in Hr, Hc.
  pose proof Hwf as (Hn & Hside & _). pose proof (view_wf _ _ Hwf) as Hwfg.
  exists (write h b r c num). rewrite set_in_range, view_write by done.
  split_and!; [done | by apply write_wf | |].
  - change (cellp (grid_set (view h b) r c num) (r, c) = num).
    rewrite (cellp_grid_set b) by done. by rewrite decide_True.
  - rewrite is_valid_spec in Hvalid by done.
    rewrite consistent_spec in Hcons by done.
    apply consistent_spec; [done | done | by apply grid_set_wf |].
    intros p q Hp Hq Hne Hrel. rewrite !(cellp_grid_set b) by done.
    destruct (decide (p = (r, c))) as [->|Hp'].
    + rewrite decide_False by done. intros _ Heq. by apply (Hvalid q Hq Hrel).
    + destruct (decide (q = (r, c))) as [->|Hq'].
      * intros _. apply Hvalid; [done|]. by apply related_sym.
      * by apply Hcons.
Qed.

Lemma valid_placement_keeps_consistency_witness :
  exists h', set example_heap example_board (Z.of_nat 0) (Z.of_nat 1) 2 = Ok h' /\
        wf_board h' example_board /\
        cell (view h' example_board) 0 1 = 2%Z /\
        consistent example_board (view h' example_board) = true.
Proof.
  apply valid_placement_keeps_consistency.
  - apply wf_boardb_true. vm_compute. reflexivity.
  - split; vm_compute; lia.
  - vm_compute. reflexivity.
  - vm_compute. reflexivity.
Defined.

(** X4.  [is_valid_solution] accepts exactly the boards without an empty
    cell on which any two different cells of a row, a column or a box
    hold different values; a board it accepts whose values lie in
    [0, board_size] holds each of [1 .. board_size] once in every row,
    column and box. *)
Theorem is_valid_solution_cell_by_cell h b :
  wf_board h b ->
  (is_valid_solution b (view h b) = true <->
   (forall p, in_grid b p -> cellp (view h b) p <> 0%Z) /\
   (forall p q, in_grid b p -> in_grid b q -> p <> q -> related b p q ->
           cellp (view h b) p <> cellp (view h b) q)) /\
  (is_valid_solution b (view h b) = true -> in_range b (view h b) = true ->
   units_exactly_once b (view h b)).
Proof.
  intros Hwf. pose proof Hwf as (Hn & Hside & _).
  pose proof (view_wf _ _ Hwf) as Hwfg. split.
  - by apply is_valid_solution_spec.
  - by apply valid_in_range_once.
Qed.

Lemma is_valid_solution_cell_by_cell_witness :
  (is_valid_solution example_board (view example_heap example_board) = true <->
   (forall p, in_grid example_board p -> cellp (view example_heap example_board) p <> 0%Z) /\
   (forall p q, in_grid example_board p -> in_grid example_board q -> p <> q ->
           related example_board p q ->
           cellp (view example_heap example_board) p
           <> cellp (view example_heap example_board) q)) /\
  (is_valid_solution example_board (view example_heap example_board) = true ->
   in_range example_board (view example_heap example_board) = true ->
   units_exactly_once example_board (view example_heap example_board)).
Proof.
  apply is_valid_solution_cell_by_cell.
  apply wf_boardb_true. vm_compute. reflexivity.
Defined.

(** ** Writing and reading cells *)

Lemma wrap_lt side i :
  (- Z.of_nat side <= i < Z.of_nat side)%Z -> wrap side i < side.
Proof. intros Hi. unfold wrap. destruct (Z.ltb_spec i 0); lia. Qed.

(** X5.  [set] followed by [get]: with indices in
    [-board_size, board_size), [set] succeeds, [get] at the same indices
    returns the value written, and every other cell reads as before. *)
Theorem set_then_get h b row col v :
  wf_board h b ->
  (- Z.of_nat (board_size b) <= row < Z.of_nat (board_size b))%Z ->
  (- Z.of_nat (board_size b) <= col < Z.of_nat (board_size b))%Z ->
  exists h', set h b row col v = Ok h' /\
        wf_board h' b /\
        get h' b row col = Ok v /\
        (forall row' col',
            (- Z.of_nat (board_size b) <= row' < Z.of_nat (board_size b))%Z ->
            (- Z.of_nat (board_size b) <= col' < Z.of_nat (board_size b))%Z ->
            (wrap (board_size b) row', wrap (board_size b) col')
            <> (wrap (board_size b) row, wrap (board_size b) col) ->
            get h' b row' col' = get h b row' col') /\
        (forall l, l ∉ board b -> h' !! l = h !! l).
Proof.
  intros Hwf Hrow Hcol. pose proof Hwf as (Hn & Hside & _).
  pose proof (view_wf _ _ Hwf) as Hwfg.
  pose proof (wrap_lt _ _ Hrow) as Hr. pose proof (wrap_lt _ _ Hcol) as Hc.
  destruct (access_at h b row col _ _ Hwf (py_index_wrap _ _ Hrow) (py_index_wrap _ _ Hcol))
    as (_ & _ & Hset).
  exists (write h b (wrap (board_size b) row) (wrap (board_size b) col) v).
  pose proof (write_wf h b (wrap (board_size b) row) (wrap (board_size b) col) v Hwf) as Hwf'.
  split_and!; [apply Hset | done | | |].
  - destruct (access_at _ b row col _ _ Hwf' (py_index_wrap _ _ Hrow) (py_index_wrap _ _ Hcol))
      as (-> & _ & _).
    rewrite view_write by done.
    change (cell ?g ?r ?c) with (cellp g (r, c)).
    rewrite (cellp_grid_set b) by done. by rewrite decide_True.
  - intros row' col' Hrow' Hcol' Hne.
    destruct (access_at _ b row' col' _ _ Hwf' (py_index_wrap _ _ Hrow')
                        (py_index_wrap _ _ Hcol')) as (-> & _ & _).
    destruct (access_at _ b row' col' _ _ Hwf (py_index_wrap _ _ Hrow')
                        (py_index_wrap _ _ Hcol')) as (-> & _ & _).
    rewrite view_write by done.
    change (cell ?g ?r ?c) with (cellp g (r, c)).
    rewrite (cellp_grid_set b) by done. by rewrite decide_False.
  - intros l Hl. by apply write_frame.
Qed.

Lemma set_then_get_witness :
  exists h', set example_heap example_board (-1) 1 3 = Ok h' /\
        wf_board h' example_board /\
        get h' example_board (-1) 1 = Ok 3%Z /\
        (forall row' col',
            (- Z.of_nat (board_size example_board) <= row'
             < Z.of_nat (board_size example_board))%Z ->
            (- Z.of_nat (board_size example_board) <= col'
             < Z.of_nat (board_size example_board))%Z ->
            (wrap (board_size example_board) row', wrap (board_size example_board) col')
            <> (wrap (board_size example_board) (-1), wrap (board_size example_board) 1) ->
            get h' example_board row' col' = get example_heap example_board row' col') /\
        (forall l, l ∉ board example_board -> h' !! l = example_heap !! l).
Proof.
  apply set_then_get.
  - apply wf_boardb_true. vm_compute. reflexivity.
  - change (board_size example_board) with 4. lia.
  - change (board_size example_board) with 4. lia.
Defined.

Lemma set_frame h b row col v h' l :
  set h b row col v = Ok h' -> l ∉ board b -> h' !! l = h !! l.
Proof.
  unfold set, py_getitem.
  destruct (py_index (length (board b)) row) as [k|]; [|done].
  destruct (board b !! k) as [l'|] eqn:Hk; [|done].
  destruct (py_index _ col) as [c|]; [|done].
  intros [= <-] Hl. rewrite lookup_insert_ne; [done|].
  intros ->. apply Hl. by eapply list_elem_of_lookup_2.
Qed.

(** X6.  [copy] is deep: the copy has the contents, the box size and the
    side of the board and no row object in common with it, so a [set] on
    the copy leaves the board as it was, and a [set] on the board leaves
    the copy as it was. *)
Theorem copy_is_independent h b :
  wf_board h b ->
  wf_board (copy h b).1 (copy h b).2 /\
  n (copy h b).2 = n b /\ board_size (copy h b).2 = board_size b /\
  view (copy h b).1 (copy h b).2 = view h b /\
  view (copy h b).1 b = view h b /\
  (forall l, l ∈ board b -> l ∉ board (copy h b).2) /\
  (forall row col v h',
      set (copy h b).1 (copy h b).2 row col v = Ok h' -> view h' b = view h b) /\
  (forall row col v h',
      set (copy h b).1 b row col v = Ok h' -> view h' (copy h b).2 = view h b).
Proof.
  intros Hwf. destruct (copy h b) as [h1 wb] eqn:Hcopy. simpl.
  destruct (copy_spec _ _ _ _ Hwf Hcopy) as (Hwf1 & Hview & Hn & Hs & Hold).
  assert (Hrows : forall l, l ∈ board b -> is_Some (h !! l)).
  { intros l Hl. destruct Hwf as (_ & _ & _ & _ & Hall). rewrite Forall_forall in Hall.
    destruct (Hall l Hl) as (row & -> & _). done. }
  assert (Hview1 : view h1 b = view h b).
  { apply view_ext. intros l Hl. by apply Hold, Hrows. }
  split_and!; try done.
  - intros l Hl. by apply Hold, Hrows.
  - intros row col v h' Hset. rewrite <- Hview1. apply view_ext.
    intros l Hl. eapply set_frame; [done|]. by apply Hold, Hrows.
  - intros row col v h' Hset. rewrite <- Hview. apply view_ext.
    intros l Hl. eapply set_frame; [done|].
    intros Hlb. by apply (Hold l (Hrows l Hlb)).
Qed.

Lemma copy_is_independent_witness :
  wf_board (copy example_heap example_board).1 (copy example_heap example_board).2 /\
  n (copy example_heap example_board).2 = n example_board /\
  board_size (copy example_heap example_board).2 = board_size example_board /\
  view (copy example_heap example_board).1 (copy example_heap example_board).2
  = view example_heap example_board /\
  view (copy example_heap example_board).1 example_board
  = view example_heap example_board /\
  (forall l, l ∈ board example_board -> l ∉ board (copy example_heap example_board).2) /\
  (forall row col v h',
      set (copy example_heap example_board).1 (copy example_heap example_board).2 row col v
      = Ok h' ->
      view h' example_board = view example_heap example_board) /\
  (forall row col v h',
      set (copy example_heap example_board).1 example_board row col v = Ok h' ->
      view h' (copy example_heap example_board).2 = view example_heap example_board).
Proof.
  apply copy_is_independent.
  apply wf_boardb_true. vm_compute. reflexivity.
Defined.

(** X7.  [from_list] fails, with the [ValueError] for the dimensions,
    exactly on a grid that does not have [board_size] rows of
    [board_size] cells; otherwise the board reads back the grid it was
    given, keeps [n] and [board_size], and the row objects that existed
    before are left alone (the board is rebound to new rows). *)
Theorem from_list_checks_dimensions h b g :
  match from_list h b g with
  | Ok (h', b') =>
      wf_grid b g /\ view h' b' = g /\ n b' = n b /\ board_size b' = board_size b /\
      (forall l, is_Some (h !! l) -> h' !! l = h !! l /\ l ∉ board b')
  | Raise e => e = ValueError_dimensions /\ ~ wf_grid b g
  end.
Proof.
  unfold from_list, wf_grid.
  destruct (Nat.eqb_spec (length g) (board_size b)) as [Hlen|Hlen]; simpl.
  2:{ split; [done|]. tauto. }
  destruct (existsb _ g) eqn:Hrows.
  - split; [done|]. intros [_ Hall]. rewrite Forall_forall in Hall.
    apply existsb_exists in Hrows as (row & Hin%list_elem_of_In & Hne).
    apply negb_true_iff, Nat.eqb_neq in Hne. by apply Hne, Hall.
  - destruct (alloc_rows h g) as [ls h'] eqn:Hal.
    destruct (alloc_rows_spec _ _ _ _ Hal) as (Hnd & Hnew & Hold & Hall).
    split_and!; try done.
    + apply Forall_forall. intros row Hin%list_elem_of_In.
      destruct (Nat.eqb_spec (length row) (board_size b)) as [|Hne]; [done|].
      apply not_true_iff_false in Hrows. destruct Hrows. apply existsb_exists.
      exists row. split; [done|]. by apply negb_true_iff, Nat.eqb_neq.
    + unfold view. simpl. by eapply alloc_rows_view.
    + intros l Hl. simpl.
      assert (l ∉ ls) as Hnin.
      { intros Hin. apply Hnew in Hin. rewrite Hin in Hl. by destruct Hl. }
      split; [by apply Hold | done].
Qed.

(** ** Writing a board as a string *)

Lemma string_app_nil_r (s : string) : (s ++ "")%string = s.
Proof.
  induction s as [|c s IH]; [done|].
  change (String c (s ++ "") = String c s)%string. by rewrite IH.
Qed.

Lemma string_app_assoc (s t u : string) : ((s ++ t) ++ u)%string = (s ++ (t ++ u))%string.
Proof.
  induction s as [|c s IH]; [done|].
  change (String c ((s ++ t) ++ u) = String c (s ++ (t ++ u)))%string. by rewrite IH.
Qed.

Lemma string_of_list_ascii_app (l1 l2 : list ascii) :
  string_of_list_ascii (l1 ++ l2)
  = (string_of_list_ascii l1 ++ string_of_list_ascii l2)%string.
Proof.
  induction l1 as [|c l1 IH]; [done|].
  change (String c (string_of_list_ascii (l1 ++ l2))
          = String c (string_of_list_ascii l1 ++ string_of_list_ascii l2)%string).
  by rewrite IH.
Qed.

Lemma list_ascii_of_string_app (s t : string) :
  list_ascii_of_string (s ++ t) = list_ascii_of_string s ++ list_ascii_of_string t.
Proof.
  induction s as [|c s IH]; [done|].
  change (c :: list_ascii_of_string (s ++ t)
          = c :: list_ascii_of_string s ++ list_ascii_of_string t).
  by rewrite IH.
Qed.

Lemma str_digit v :
  (1 <= v <= 9)%Z -> str v = String (ascii_of_nat (Z.to_nat (48 + v))) "".
Proof.
  intros Hv.
  assert (v = 1 \/ v = 2 \/ v = 3 \/ v = 4 \/ v = 5 \/ v = 6 \/ v = 7 \/ v = 8 \/ v = 9)%Z
    as Hcases by lia.
  repeat destruct Hcases as [->|Hcases]; try subst v; reflexivity.
Qed.

(** The text of a cell with a value in [0, 200] is the one character
    [cell_char]. *)
Lemma to_string_row (row : list Z) : forall acc,
  Forall (fun v => (0 <= v <= 200)%Z) row ->
  foldl to_string_step (Some acc) row
  = Some (acc ++ string_of_list_ascii (cell_char <$> row))%string.
Proof.
  induction row as [|v row IH]; intros acc Hrow; cbn [foldl].
  - simpl. by rewrite string_app_nil_r.
  - apply Forall_cons in Hrow as [Hv Hrow]. rewrite fmap_cons.
    cbn [string_of_list_ascii]. unfold cell_char at 1, to_string_step at 2.
    cbn [mbind option_bind].
    destruct (Z.eqb_spec v 0) as [->|Hnz].
    + rewrite IH by done. by rewrite string_app_assoc.
    + destruct (Z.ltb_spec v 10) as [Hlt|Hge].
      * rewrite str_digit by lia. rewrite IH by done. by rewrite string_app_assoc.
      * unfold chr.
        destruct (Z.leb_spec 0 (55 + v)); [|lia].
        destruct (Z.ltb_spec (55 + v) 256); [|lia]. cbn [andb mbind option_bind].
        rewrite IH by done. by rewrite string_app_assoc.
Qed.

Lemma to_string_rows (g : Grid) : forall acc,
  Forall (Forall (fun v => (0 <= v <= 200)%Z)) g ->
  foldl (fun result row => foldl to_string_step result row) (Some acc) g
  = Some (acc ++ string_of_list_ascii (cell_char <$> mjoin g))%string.
Proof.
  induction g as [|row g IH]; intros acc Hg; cbn [foldl].
  - simpl. by rewrite string_app_nil_r.
  - apply Forall_cons in Hg as [Hrow Hg]. cbv beta.
    rewrite to_string_row by done. rewrite IH by done.
    cbn [mjoin list_join]. by rewrite fmap_app, string_of_list_ascii_app, string_app_assoc.
Qed.

Lemma to_string_cells (g : Grid) :
  Forall (Forall (fun v => (0 <= v <= 200)%Z)) g ->
  to_string g = Some (string_of_list_ascii (cell_char <$> mjoin g)).
Proof. intros Hg. unfold to_string. by rewrite to_string_rows. Qed.

(** What [from_string] makes of the character written for a value in
    [0, 36]: the value itself up to 35 (digits, then the letters A to Z),
    and 0 for 36, which is written as an opening bracket. *)
Lemma stripped_char_value v :
  (0 <= v <= 36)%Z ->
  is_ascii (stripped_char v) = true /\
  strip [cell_char v] = [stripped_char v] /\
  digit_value (stripped_char v) = (if (v =? 36)%Z then 0 else v)%Z.
Proof.
  intros Hv. assert (exists k, k < 37 /\ v = Z.of_nat k) as (k & Hk & ->).
  { exists (Z.to_nat v). lia. }
  clear Hv. do 37 (destruct k as [|k]; [by vm_compute|]). lia.
Qed.

Lemma length_string_of_list_ascii (l : list ascii) :
  String.length (string_of_list_ascii l) = length l.
Proof.
  induction l as [|c l IH]; [done|].
  change (S (String.length (string_of_list_ascii l)) = S (length l)). by rewrite IH.
Qed.

Lemma strip_app l1 l2 : strip (l1 ++ l2) = strip l1 ++ strip l2.
Proof. unfold strip. by rewrite map_app, List.filter_app. Qed.

Lemma strip_cell_chars (l : list Z) :
  Forall (fun v => (0 <= v <= 36)%Z) l ->
  strip (cell_char <$> l) = stripped_char <$> l.
Proof.
  induction l as [|v l IH]; intros Hl; [done|].
  apply Forall_cons in Hl as [Hv Hl]. rewrite !fmap_cons.
  change (cell_char v :: (cell_char <$> l)) with ([cell_char v] ++ (cell_char <$> l)).
  rewrite strip_app, IH by done.
  destruct (stripped_char_value v Hv) as (_ & -> & _). done.
Qed.

Lemma wf_grid_cell b (g : Grid) r c :
  wf_grid b g -> r < board_size b -> c < board_size b ->
  exists row, g !! r = Some row /\ row !! c = Some (cell g r c).
Proof.
  intros Hwf Hr Hc. destruct (wf_grid_row _ _ _ Hwf Hr) as (row & Hrow & Hlen).
  exists row. split; [done|]. rewrite (cell_lookup g r c row Hrow).
  destruct (lookup_lt_is_Some_2 row c) as [v Hv]; [lia|]. by rewrite Hv.
Qed.

Lemma in_range_rows b (g : Grid) :
  wf_grid b g -> in_range b g = true ->
  Forall (Forall (fun v => (0 <= v <= Z.of_nat (board_size b))%Z)) g.
Proof.
  intros Hwf Hrange. rewrite in_range_spec in Hrange.
  apply Forall_forall. intros row Hrow. apply Forall_forall. intros v Hv.
  apply list_elem_of_lookup in Hrow as [r Hr]. apply list_elem_of_lookup in Hv as [c Hc].
  pose proof (lookup_lt_Some _ _ _ Hr) as Hrlt.
  pose proof (lookup_lt_Some _ _ _ Hc) as Hclt.
  destruct Hwf as [Hlen Hrows]. rewrite Forall_forall in Hrows.
  rewrite (Hrows row) in Hclt by (by eapply list_elem_of_lookup_2).
  specialize (Hrange (r, c)). unfold cellp in Hrange. simpl in Hrange.
  rewrite (cell_lookup g r c row Hr), Hc in Hrange. simpl in Hrange.
  apply Hrange. split; simpl; lia.
Qed.

Lemma length_join_grid b (g : Grid) :
  wf_grid b g -> length (mjoin g) = board_size b * board_size b.
Proof.
  intros [Hlen Hrows]. rewrite length_join.
  rewrite (sum_list_fmap_same (board_size b)) by done. by rewrite Hlen.
Qed.

(** Writing a board with [to_string] and loading the string with
    [from_string] into a board of the same side: each cell comes back,
    except that 36 comes back as 0. *)
Lemma to_string_from_string h b h0 b0 :
  wf_board h b -> in_range b (view h b) = true -> board_size b <= 36 ->
  wf_board h0 b0 -> board_size b0 = board_size b ->
  exists s, to_string (view h b) = Some s /\
       String.length s = board_size b * board_size b /\
       (from_string h0 b0 s).2 = Ok tt /\
       wf_board (from_string h0 b0 s).1 b0 /\
       forall i j, i < board_size b -> j < board_size b ->
              cell (view (from_string h0 b0 s).1 b0) i j
              = (if (cell (view h b) i j =? 36)%Z then 0 else cell (view h b) i j)%Z.
Proof.
  intros Hwf Hrange Hside Hwf0 Hsame.
  pose proof (view_wf _ _ Hwf) as Hwfg.
  pose proof (in_range_rows _ _ Hwfg Hrange) as Hrows.
  assert (Hrows36 : Forall (Forall (fun v => (0 <= v <= 36)%Z)) (view h b)).
  { eapply Forall_impl; [exact Hrows|]. intros row Hrow.
    eapply Forall_impl; [exact Hrow|]. intros v Hv. simpl in Hv. lia. }
  assert (Hall36 : Forall (fun v => (0 <= v <= 36)%Z) (mjoin (view h b))).
  { apply Forall_forall. intros v (row & Hv & Hrow)%list_elem_of_join.
    rewrite Forall_forall in Hrows36. specialize (Hrows36 row Hrow).
    rewrite Forall_forall in Hrows36. by apply Hrows36. }
  exists (string_of_list_ascii (cell_char <$> mjoin (view h b))).
  split.
  { apply to_string_cells. eapply Forall_impl; [exact Hrows36|]. intros row Hrow.
    eapply Forall_impl; [exact Hrow|]. intros v Hv. simpl in Hv. lia. }
  split.
  { rewrite <- (length_join_grid b (view h b)) by done.
    by rewrite length_string_of_list_ascii, length_fmap. }
  unfold from_string.
  rewrite list_ascii_of_string_of_list_ascii, strip_cell_chars by done.
  rewrite length_fmap, (length_join_grid b (view h b)), <- Hsame, Nat.eqb_refl by done. simpl.
  assert (Hascii : Forall (fun c => is_ascii c = true) (stripped_char <$> mjoin (view h b))).
  { apply Forall_fmap. eapply Forall_impl; [exact Hall36|]. intros v Hv. simpl.
    by destruct (stripped_char_value v Hv) as (-> & _). }
  assert (Hchar : forall i j, i < board_size b -> j < board_size b ->
            (stripped_char <$> mjoin (view h b)) !! (i * board_size b0 + j)
            = Some (stripped_char (cell (view h b) i j))).
  { intros i j Hi Hj. rewrite list_lookup_fmap, Hsame.
    destruct (wf_grid_cell b (view h b) i j Hwfg Hi Hj) as (row & Hrow & Hcell).
    assert (mjoin (view h b) !! (i * board_size b + j) = Some (cell (view h b) i j)) as ->.
    { apply join_lookup_Some_same_length'; [apply Hwfg | done |]. by exists row. }
    done. }
  destruct (fill_spec b0 _ Hascii (positions (board_size b0)) h0 Hwf0 (NoDup_positions _))
    as [Hwf' Hres].
  { intros [i j] [Hi Hj]%elem_of_positions. split; [by split|]. simpl.
    rewrite Hchar by lia. done. }
  destruct ((fill b0 _ (positions (board_size b0)) h0).2) as [[]|e].
  - destruct Hres as [Hset _]. split_and!; [done | done |].
    intros i j Hi Hj. rewrite Hsame in Hi, Hj.
    destruct (Hset (i, j)) as (ch & Hch & _ & Hval); [apply elem_of_positions; lia|].
    simpl in Hch. rewrite Hchar in Hch by done. injection Hch as <-.
    change (cellp ?g (i, j)) with (cell g i j) in Hval. rewrite Hval.
    apply stripped_char_value.
    rewrite in_range_spec in Hrange. specialize (Hrange (i, j)).
    unfold cellp in Hrange. simpl in Hrange. specialize (Hrange (conj Hi Hj)). lia.
  - exfalso. destruct Hres as ([i j] & ch & [Hi Hj]%elem_of_positions & Hch & Hgt & _).
    simpl in Hch. rewrite Hchar in Hch by lia. injection Hch as <-.
    rewrite in_range_spec in Hrange. specialize (Hrange (i, j)).
    unfold cellp in Hrange. simpl in Hrange.
    assert (Hc : (0 <= cell (view h b) i j <= Z.of_nat (board_size b))%Z)
      by (apply Hrange; split; simpl; lia).
    destruct (stripped_char_value (cell (view h b) i j)) as (_ & _ & Hd); [lia|].
    rewrite Hd in Hgt. destruct (Z.eqb_spec (cell (view h b) i j) 36); lia.
Qed.

(** X8.  Writing a board with values in [0, board_size] as a string and
    loading the string: for a side up to 35 (so up to 25x25), [to_string]
    gives [board_size ** 2] characters, [from_string] accepts them on any
    board of that side, and the board then holds what the first board
    held. *)
Theorem to_string_round_trip h b h0 b0 :
  wf_board h b -> in_range b (view h b) = true -> board_size b <= 35 ->
  wf_board h0 b0 -> board_size b0 = board_size b ->
  exists s, to_string (view h b) = Some s /\
       String.length s = board_size b * board_size b /\
       (from_string h0 b0 s).2 = Ok tt /\
       view (from_string h0 b0 s).1 b0 = view h b.
Proof.
  intros Hwf Hrange Hside Hwf0 Hsame.
  destruct (to_string_from_string h b h0 b0) as (s & Hs & Hlen & Hok & Hwf' & Hcells);
    [done | done | lia | done | done |].
  exists s. split_and!; [done | done | done |].
  apply (grid_ext b).
  - pose proof (view_wf _ _ Hwf') as Hw. unfold wf_grid in *. by rewrite Hsame in Hw.
  - by apply view_wf.
  - intros i j Hi Hj. rewrite Hcells by done.
    rewrite in_range_spec in Hrange. specialize (Hrange (i, j) (conj Hi Hj)).
    unfold cellp in Hrange. simpl in Hrange.
    destruct (Z.eqb_spec (cell (view h b) i j) 36); [lia | done].
Qed.

Lemma to_string_round_trip_witness :
  exists s, to_string (view example_heap example_board) = Some s /\
       String.length s = board_size example_board * board_size example_board /\
       (from_string (init ∅ 2).1 (init ∅ 2).2 s).2 = Ok tt /\
       view (from_string (init ∅ 2).1 (init ∅ 2).2 s).1 (init ∅ 2).2
       = view example_heap example_board.
Proof.
  apply to_string_round_trip.
  - apply wf_boardb_true. vm_compute. reflexivity.
  - vm_compute. reflexivity.
  - vm_compute. lia.
  - apply wf_boardb_true. vm_compute. reflexivity.
  - vm_compute. reflexivity.
Defined.

(** X9.  On a 36x36 board the round trip loses the value 36:
    [to_string] writes it as [chr(91)], an opening bracket, which
    [from_string] reads as an empty cell.  The string is accepted and
    every other value comes back. *)
Theorem to_string_loses_36 h b h0 b0 :
  wf_board h b -> in_range b (view h b) = true -> board_size b = 36 ->
  wf_board h0 b0 -> board_size b0 = board_size b ->
  exists s, to_string (view h b) = Some s /\
       (from_string h0 b0 s).2 = Ok tt /\
       forall i j, i < board_size b -> j < board_size b ->
              cell (view (from_string h0 b0 s).1 b0) i j
              = (if (cell (view h b) i j =? 36)%Z then 0 else cell (view h b) i j)%Z.
Proof.
  intros Hwf Hrange Hside Hwf0 Hsame.
  destruct (to_string_from_string h b h0 b0) as (s & Hs & Hlen & Hok & Hwf' & Hcells);
    [done | done | lia | done | done |].
  by exists s.
Qed.

Lemma to_string_loses_36_witness :
  exists s, to_string (view board_36x36.1 board_36x36.2) = Some s /\
       (from_string (init ∅ 6).1 (init ∅ 6).2 s).2 = Ok tt /\
       forall i j, i < board_size board_36x36.2 -> j < board_size board_36x36.2 ->
              cell (view (from_string (init ∅ 6).1 (init ∅ 6).2 s).1 (init ∅ 6).2) i j
              = (if (cell (view board_36x36.1 board_36x36.2) i j =? 36)%Z then 0
                 else cell (view board_36x36.1 board_36x36.2) i j)%Z.
Proof.
  apply to_string_loses_36.
  - apply wf_boardb_true. vm_compute. reflexivity.
  - vm_compute. reflexivity.
  - vm_compute. reflexivity.
  - apply wf_boardb_true. vm_compute. reflexivity.
  - vm_compute. reflexivity.
Defined.

Lemma to_string_step_format (k : nat) (result : option string) (val : Z) :
  to_string_step result val
  = (result ← result; text ← _format_value val k; Some (result ++ text)%string).
Proof.
  unfold to_string_step, _format_value. destruct result as [r|]; [|done].
  cbn [mbind option_bind].
  destruct (Z.eqb_spec val 0); [done|].
  destruct (Z.ltb_spec val 10), (Z.leb_spec val 9); try lia; [done|].
  replace (65 + val - 10)%Z with (55 + val)%Z by lia.
  by destruct (chr (55 + val)).
Qed.

Lemma to_string_format_cells (g : Grid) (k : nat) :
  to_string g = format_cells (mjoin g) k.
Proof.
  unfold to_string, format_cells.
  generalize (Some ""%string) as acc.
  induction g as [|row g IH]; intros acc; [done|].
  cbn [foldl mjoin list_join]. rewrite foldl_app, IH. f_equal.
  clear. revert acc. induction row as [|v row IH]; intros acc; [done|].
  cbn [foldl]. by rewrite IH, (to_string_step_format k).
Qed.

Lemma format_value_defined (v : Z) (k : nat) :
  (v <= 200)%Z -> is_Some (_format_value v k).
Proof.
  intros Hv. unfold _format_value.
  destruct (v =? 0)%Z; [done|]. destruct (Z.leb_spec v 9); [done|].
  unfold chr.
  destruct (Z.leb_spec 0 (65 + v - 10)), (Z.ltb_spec (65 + v - 10) 256); try lia. done.
Qed.

Lemma format_cells_texts (k : nat) (vals : list Z) : forall acc,
  Forall (fun v => (v <= 200)%Z) vals ->
  exists texts,
    Forall2 (fun v text => _format_value v k = Some text) vals texts /\
    foldl (fun result val =>
             result ← result; text ← _format_value val k; Some (result ++ text)%string)
          (Some acc) vals
    = Some (acc ++ foldr String.append ""%string texts)%string.
Proof.
  induction vals as [|v vals IH]; intros acc Hvals.
  { exists []. split; [constructor|]. simpl. by rewrite string_app_nil_r. }
  apply Forall_cons in Hvals as [Hv Hvals].
  destruct (format_value_defined v k Hv) as [text Htext].
  destruct (IH (acc ++ text)%string Hvals) as (texts & Hall & Hfold).
  exists (text :: texts). split; [by constructor|].
  cbn [foldl foldr]. rewrite Htext. cbn [mbind option_bind].
  rewrite Hfold. by rewrite string_app_assoc.
Qed.

(** X10.  [to_string] writes every cell as [_format_value] of the solver
    does and puts the texts one after the other, row by row: a dot for
    0, the decimal numeral of a value below 10 (a negative one
    included), and for a value from 10 to 200 the character with code
    point 55 more, which is a letter up to 35 and stays within Latin-1
    up to 200. *)
Theorem to_string_uses_format_value (g : Grid) (k : nat) :
  Forall (Forall (fun v => (v <= 200)%Z)) g ->
  exists texts,
    Forall2 (fun v text => _format_value v k = Some text) (mjoin g) texts /\
    to_string g = Some (foldr String.append ""%string texts) /\
    Forall2 (fun v text =>
               text = if (v =? 0)%Z then "."%string
                      else if (v <? 10)%Z then str v
                      else String (ascii_of_nat (Z.to_nat (55 + v))) ""%string)
            (mjoin g) texts.
Proof.
  intros Hg.
  assert (Hvals : Forall (fun v => (v <= 200)%Z) (mjoin g)).
  { apply Forall_forall. intros v (row & Hv & Hrow)%list_elem_of_join.
    rewrite Forall_forall in Hg. specialize (Hg row Hrow).
    rewrite Forall_forall in Hg. by apply Hg. }
  destruct (format_cells_texts k (mjoin g) ""%string Hvals) as (texts & Hall & Hfold).
  exists texts. split_and!; [done | |].
  - rewrite (to_string_format_cells g k). unfold format_cells. rewrite Hfold. done.
  - clear Hfold. induction Hall as [|v text vals texts Hv Hall IH]; [constructor|].
    apply Forall_cons in Hvals as [Hle Hvals].
    constructor; [|by apply IH].
    unfold _format_value in Hv. destruct (v =? 0)%Z; [congruence|].
    destruct (Z.leb_spec v 9), (Z.ltb_spec v 10); try lia; [congruence|].
    unfold chr in Hv.
    destruct (Z.leb_spec 0 (65 + v - 10)), (Z.ltb_spec (65 + v - 10) 256); try lia.
    simpl in Hv. replace (65 + v - 10)%Z with (55 + v)%Z in Hv by lia. congruence.
Qed.

Lemma to_string_uses_format_value_witness :
  exists texts,
    Forall2 (fun v text => _format_value v 2 = Some text) (mjoin puzzle_4x4) texts /\
    to_string puzzle_4x4 = Some (foldr String.append ""%string texts) /\
    Forall2 (fun v text =>
               text = if (v =? 0)%Z then "."%string
                      else if (v <? 10)%Z then str v
                      else String (ascii_of_nat (Z.to_nat (55 + v))) ""%string)
            (mjoin puzzle_4x4) texts.
Proof.
  apply to_string_uses_format_value.
  repeat (apply Forall_cons_2 || apply Forall_nil_2); lia.
Defined.

(** ** A load that fails half way *)

Section FillFails.
Variables (b : SudokuBoard) (puzzle : list ascii).
Hypothesis puzzle_ascii : Forall (fun c => is_ascii c = true) puzzle.

(** When the loops of [from_string] stop at a value that is too large,
    the cells visited before hold what was read for them and the others
    are as they were. *)
Lemma fill_fails cells : forall h e,
  wf_board h b -> NoDup cells ->
  (forall q, q ∈ cells -> in_grid b q /\ is_Some (puzzle !! (q.1 * board_size b + q.2))) ->
  (fill b puzzle cells h).2 = Raise e ->
  exists pre q post ch,
    cells = pre ++ q :: post /\
    puzzle !! (q.1 * board_size b + q.2) = Some ch /\
    (digit_value ch > Z.of_nat (board_size b))%Z /\
    e = ValueError_value (digit_value ch) /\
    (forall p, p ∈ pre ->
          exists ch', puzzle !! (p.1 * board_size b + p.2) = Some ch' /\
                 (digit_value ch' <= Z.of_nat (board_size b))%Z /\
                 cellp (view (fill b puzzle cells h).1 b) p = digit_value ch') /\
    (forall p, in_grid b p -> p ∉ pre ->
          cellp (view (fill b puzzle cells h).1 b) p = cellp (view h b) p).
Proof.
  induction cells as [|[i j] rest IH]; intros h e Hwf Hnd Hcells; cbn [fill]; [done|].
  apply NoDup_cons in Hnd as [Hnin Hnd].
  destruct (Hcells (i, j)) as [Hin [ch Hch]]; [left|]. simpl in Hch. rewrite Hch.
  assert (Hascii : is_ascii ch = true).
  { rewrite Forall_forall in puzzle_ascii. apply puzzle_ascii.
    by eapply list_elem_of_lookup_2. }
  destruct (read_digit_ascii ch Hascii) as (Hread & _ & _). rewrite Hread.
  destruct (Z.gtb_spec (digit_value ch) (Z.of_nat (board_size b))) as [Hgt|Hle].
  - simpl. intros [= <-]. exists [], (i, j), rest, ch.
    split_and!; [done | done | lia | done | by intros p ?%elem_of_nil | done].
  - assert (Hwf1 : wf_board (write h b i j (digit_value ch)) b) by by apply write_wf.
    assert (Hview : view (write h b i j (digit_value ch)) b
                    = grid_set (view h b) i j (digit_value ch))
      by (apply view_write; [done | apply Hin]).
    intros He.
    destruct (IH (write h b i j (digit_value ch)) e Hwf1 Hnd) as
      (pre & q & post & ch' & -> & Hq & Hgt & -> & Hpre & Hkeep); [|done|].
    { intros p Hp. apply Hcells. by right. }
    exists ((i, j) :: pre), q, post, ch'.
    split_and!; [done | done | done | done | |].
    + intros p [->|Hp]%elem_of_cons; [|by apply Hpre].
      exists ch. split_and!; [done | lia |]. rewrite Hkeep; [|done|].
      * rewrite Hview, (cellp_grid_set b) by (done || by apply view_wf).
        by rewrite decide_True.
      * intros Hp. apply Hnin. apply elem_of_app. by left.
    + intros p Hp [Hne Hnp]%not_elem_of_cons. rewrite Hkeep by done.
      rewrite Hview, (cellp_grid_set b) by (done || by apply view_wf).
      by rewrite decide_False.
Qed.

End FillFails.

(** X11.  A [from_string] that fails may leave the board half loaded.
    On a string of ASCII characters: when the length is wrong the board
    is untouched; when a value exceeds [board_size], at the first such
    cell in scan order, the cells before it already hold the values read
    from the string and the cells from it onwards hold what they held
    before the call. *)
Theorem from_string_failure_is_partial h b puzzle e :
  wf_board h b ->
  Forall (fun c => is_ascii c = true) (list_ascii_of_string puzzle) ->
  (from_string h b puzzle).2 = Raise e ->
  (e = ValueError_length /\ (from_string h b puzzle).1 = h) \/
  (exists i j ch,
      in_grid b (i, j) /\
      strip (list_ascii_of_string puzzle) !! (i * board_size b + j) = Some ch /\
      (digit_value ch > Z.of_nat (board_size b))%Z /\
      e = ValueError_value (digit_value ch) /\
      (forall p, in_grid b p -> row_major_lt p (i, j) ->
            exists ch', strip (list_ascii_of_string puzzle) !! (p.1 * board_size b + p.2)
                   = Some ch' /\
                   (digit_value ch' <= Z.of_nat (board_size b))%Z /\
                   cellp (view (from_string h b puzzle).1 b) p = digit_value ch') /\
      (forall p, in_grid b p -> ~ row_major_lt p (i, j) ->
            cellp (view (from_string h b puzzle).1 b) p = cellp (view h b) p)).
Proof.
  intros Hwf Hascii.
  assert (Hstrip : Forall (fun c => is_ascii c = true) (strip (list_ascii_of_string puzzle))).
  { apply Forall_forall. intros c Hc. by eapply strip_ascii. }
  unfold from_string.
  destruct (Nat.eqb_spec (length (strip (list_ascii_of_string puzzle)))
                         (board_size b * board_size b)) as [Hlen|Hlen]; simpl.
  2:{ intros [= <-]. by left. }
  intros He. right.
  assert (Hchars : forall q, q ∈ positions (board_size b) ->
            in_grid b q /\
            is_Some (strip (list_ascii_of_string puzzle) !! (q.1 * board_size b + q.2))).
  { intros [i j] [Hi Hj]%elem_of_positions. split; [by split|].
    apply lookup_lt_is_Some_2. simpl. rewrite Hlen. nia. }
  destruct (fill_fails b _ Hstrip (positions (board_size b)) h e Hwf (NoDup_positions _)
                       Hchars He)
    as (pre & [i j] & post & ch & Hsplit & Hch & Hgt & -> & Hpre & Hkeep).
  assert (Hin : in_grid b (i, j)).
  { apply elem_of_positions_in_grid. rewrite Hsplit. apply elem_of_app. right. left. }
  exists i, j, ch. split_and!; [done | done | done | done | |].
  - intros p Hp Hlt.
    assert (Hppre : p ∈ pre).
    { apply (positions_split _ _ _ _ p Hsplit). split; [|done].
      by apply elem_of_positions_in_grid. }
    apply (Hpre p Hppre).
  - intros p Hp Hnlt. apply Hkeep; [done|]. intros Hppre.
    apply Hnlt. by apply (positions_split _ _ _ _ p Hsplit).
Qed.

Lemma from_string_failure_is_partial_witness :
  (ValueError_value 5 = ValueError_length /\
   (from_string example_heap example_board "1234341221599999").1 = example_heap) \/
  (exists i j ch,
      in_grid example_board (i, j) /\
      strip (list_ascii_of_string "1234341221599999") !! (i * board_size example_board + j)
      = Some ch /\
      (digit_value ch > Z.of_nat (board_size example_board))%Z /\
      ValueError_value 5 = ValueError_value (digit_value ch) /\
      (forall p, in_grid example_board p -> row_major_lt p (i, j) ->
            exists ch', strip (list_ascii_of_string "1234341221599999")
                     !! (p.1 * board_size example_board + p.2) = Some ch' /\
                   (digit_value ch' <= Z.of_nat (board_size example_board))%Z /\
                   cellp (view (from_string example_heap example_board
                                            "1234341221599999").1 example_board) p
                   = digit_value ch') /\
      (forall p, in_grid example_board p -> ~ row_major_lt p (i, j) ->
            cellp (view (from_string example_heap example_board
                                     "1234341221599999").1 example_board) p
            = cellp (view example_heap example_board) p)).
Proof.
  apply from_string_failure_is_partial.
  - apply wf_boardb_true. vm_compute. reflexivity.
  - repeat constructor.
  - vm_compute. reflexivity.
Defined.

(** ** Selecting a cell without MRV *)

Lemma find_first {A} (f : A -> bool) (l : list A) x :
  List.find f l = Some x ->
  exists pre post, l = pre ++ x :: post /\ f x = true /\ forall y, y ∈ pre -> f y = false.
Proof.
  induction l as [|a l IH]; simpl; [done|].
  destruct (f a) eqn:Hfa.
  - intros [= <-]. exists [], l. split_and!; [done | done | by intros y ?%elem_of_nil].
  - intros (pre & post & -> & Hx & Hpre)%IH. exists (a :: pre), post.
    split_and!; [done | done |]. intros y [->|Hy]%elem_of_cons; [done | by apply Hpre].
Qed.

(** X12.  With MRV off, [_select_unassigned_variable] returns the first
    empty cell of the scan [for r in range(board_size): for c in
    range(board_size)], and [None] exactly when no cell is empty. *)
Theorem first_empty_cell_without_mrv s b g :
  use_mrv s = false ->
  match _select_unassigned_variable s b g with
  | Some p =>
      in_grid b p /\ cellp g p = 0%Z /\
      (forall q, in_grid b q -> row_major_lt q p -> cellp g q <> 0%Z)
  | None => is_complete b g = true /\ (forall q, in_grid b q -> cellp g q <> 0%Z)
  end.
Proof.
  intros Hmrv. unfold _select_unassigned_variable. rewrite Hmrv. simpl.
  destruct (List.find _ _) as [[r c]|] eqn:Hfind.
  - apply find_first in Hfind as (pre & post & Hsplit & Hz%Z.eqb_eq & Hpre).
    split_and!; [|done|].
    + apply elem_of_positions_in_grid. rewrite Hsplit. apply elem_of_app. right. left.
    + intros [r' c'] Hq Hlt.
      assert (Hin : (r', c') ∈ pre).
      { apply (positions_split _ _ _ _ (r', c') Hsplit). split; [|done].
        by apply elem_of_positions_in_grid. }
      specialize (Hpre _ Hin). simpl in Hpre. by apply Z.eqb_neq in Hpre.
  - assert (Hfull : forall q, in_grid b q -> cellp g q <> 0%Z).
    { intros [r' c'] Hp%elem_of_positions_in_grid%list_elem_of_In.
      apply (find_none _ _ Hfind) in Hp. by apply Z.eqb_neq in Hp. }
    split; [|done]. by apply is_complete_spec.
Qed.

Lemma first_empty_cell_without_mrv_witness :
  match _select_unassigned_variable plain example_board puzzle_4x4 with
  | Some p =>
      in_grid example_board p /\ cellp puzzle_4x4 p = 0%Z /\
      (forall q, in_grid example_board q -> row_major_lt q p -> cellp puzzle_4x4 q <> 0%Z)
  | None => is_complete example_board puzzle_4x4 = true /\
           (forall q, in_grid example_board q -> cellp puzzle_4x4 q <> 0%Z)
  end.
Proof. apply first_empty_cell_without_mrv. reflexivity. Defined.

(** ** Forward checking *)

Lemma forallb_false {A} (f : A -> bool) (l : list A) :
  forallb f l = false <-> exists x, x ∈ l /\ f x = false.
Proof.
  induction l as [|a l IH]; simpl.
  - split; [done|]. by intros (x & ?%elem_of_nil & _).
  - rewrite andb_false_iff, IH. split.
    + intros [Ha | (x & Hx & Hfx)]; [exists a; split; [left|done] | exists x; split; [by right|done]].
    + intros (x & [->|Hx]%elem_of_cons & Hfx); [by left | right; by exists x].
Qed.

(** X13.  The forward check [_is_consistent] fails exactly when some empty
    cell has no candidate left, and it never fails on a board that has a
    solution: the trial values it makes [_backtrack] skip lead to none. *)
Theorem forward_check_keeps_solutions h b :
  wf_board h b ->
  (_is_consistent b (view h b) = false <->
   exists p, in_grid b p /\ cellp (view h b) p = 0%Z /\
        get_candidates b (view h b) p.1 p.2 = []) /\
  (solvable b (view h b) -> _is_consistent b (view h b) = true).
Proof.
  intros Hwf. pose proof Hwf as (Hn & Hside & _).
  pose proof (view_wf _ _ Hwf) as Hwfg. split.
  - unfold _is_consistent. rewrite forallb_false. split.
    + intros ([r c] & Hin%elem_of_positions_in_grid & Hex).
      exists (r, c). unfold cellp. simpl.
      destruct (Z.eqb_spec (cell (view h b) r c) 0) as [Hz|]; [|done].
      by destruct (get_candidates b (view h b) r c).
    + intros ([r c] & Hin & Hz & Hnil). unfold cellp in Hz. simpl in Hz, Hnil.
      exists (r, c). split; [by apply elem_of_positions_in_grid|].
      by rewrite Hz, Hnil.
  - intros (F & Hc & Hvalid). by apply (solvable_is_consistent b Hn Hside _ F).
Qed.

Lemma forward_check_keeps_solutions_witness :
  (_is_consistent example_board (view example_heap example_board) = false <->
   exists p, in_grid example_board p /\ cellp (view example_heap example_board) p = 0%Z /\
        get_candidates example_board (view example_heap example_board) p.1 p.2 = []) /\
  (solvable example_board (view example_heap example_board) ->
   _is_consistent example_board (view example_heap example_board) = true).
Proof.
  apply forward_check_keeps_solutions.
  apply wf_boardb_true. vm_compute. reflexivity.
Defined.

(** ** What [solve] returns *)

(** X14.  The board [solve] returns on success is the input filled in:
    it has the side of the input, every cell that was filled holds what it
    held, and every cell that was empty holds a value in
    [1, board_size]; so when the puzzle has one solution only, that is the
    board returned, whatever the flags.  On failure no board is
    returned. *)
Theorem solve_returns_a_completion s h b :
  wf_board h b ->
  exists r, solve s h b = Some r /\
       (success r = false -> solved_board r = None) /\
       (success r = true ->
        exists wb, solved_board r = Some wb /\
              n wb = n b /\ board_size wb = board_size b /\
              (forall p, in_grid b p ->
                    (cellp (view h b) p <> 0%Z ->
                     cellp (view (heap (final r)) wb) p = cellp (view h b) p) /\
                    (cellp (view h b) p = 0%Z ->
                     (1 <= cellp (view (heap (final r)) wb) p
                      <= Z.of_nat (board_size b))%Z)) /\
              (forall F, (forall F', completes b (view h b) F' ->
                               is_valid_solution b F' = true -> F' = F) ->
                    view (heap (final r)) wb = F)).
Proof.
  intros Hwf.
  destruct (solve_runs s h b Hwf)
    as (h1 & wb & r & Hcopy & Hsolve & Hsb & Hwf1 & Hview & Hn & Hs & Hold & Hpost).
  exists r. split; [done|]. split.
  - intros Hfail. by rewrite Hfail in Hsb.
  - intros Hsucc.
    destruct (solve_success_valid s h b r Hwf Hsolve Hsucc)
      as (wb' & Hsb' & Hn' & Hs' & Hwfg & Hvalid & Hcompl).
    exists wb'. split_and!; [done | done | done | apply Hcompl |].
    intros F Huniq. apply Huniq; [done|].
    by rewrite <- (same_shape_valid b wb').
Qed.

Lemma solve_returns_a_completion_witness :
  exists r, solve mrv_fc example_heap example_board = Some r /\
       (success r = false -> solved_board r = None) /\
       (success r = true ->
        exists wb, solved_board r = Some wb /\
              n wb = n example_board /\ board_size wb = board_size example_board /\
              (forall p, in_grid example_board p ->
                    (cellp (view example_heap example_board) p <> 0%Z ->
                     cellp (view (heap (final r)) wb) p
                     = cellp (view example_heap example_board) p) /\
                    (cellp (view example_heap example_board) p = 0%Z ->
                     (1 <= cellp (view (heap (final r)) wb) p
                      <= Z.of_nat (board_size example_board))%Z)) /\
              (forall F, (forall F', completes example_board
                                          (view example_heap example_board) F' ->
                               is_valid_solution example_board F' = true -> F' = F) ->
                    view (heap (final r)) wb = F)).
Proof.
  apply solve_returns_a_completion.
  apply wf_boardb_true. vm_compute. reflexivity.
Defined.

(** ** Nodes and backtracks *)

Lemma bt_nodes s b g res g' dn db tr :
  wf_grid b g -> bt s b g res g' dn db tr ->
  dn + count_empty b g' <= S db + count_empty b g /\
  (use_forward_checking s = false -> dn + count_empty b g' = S db + count_empty b g).
Proof.
  intros Hwf Hbt.
  eapply (search_ind s b
            (fun g _ g' dn db _ =>
               dn + count_empty b g' <= S db + count_empty b g /\
               (use_forward_checking s = false ->
                dn + count_empty b g' = S db + count_empty b g))
            (fun _ _ cands g _ g' dn db _ =>
               (forall v, v ∈ cands -> v <> 0%Z) ->
               dn + count_empty b g' <= db + count_empty b g /\
               (use_forward_checking s = false ->
                dn + count_empty b g' = db + count_empty b g)));
    [..|exact Hwf|exact Hbt]; clear g res g' dn db tr Hwf Hbt.
  - intros g _ _. lia.
  - intros g row col _ _ _. lia.
  - intros g row col res g' dn db tr _ _ _ _ _ HQ.
    destruct HQ as [Hle Heq]; [apply get_candidates_nonzero|].
    split; [lia|]. intros Hfc. specialize (Heq Hfc). lia.
  - intros row col g _. lia.
  - intros row col num rest g res g' dn db tr _ _ _ Hfc HQ Hnz.
    destruct HQ as [Hle _]; [intros v Hv; apply Hnz; by right|].
    split; [lia|]. intros Hoff. unfold forward_check_fails in Hfc.
    by rewrite Hoff in Hfc.
  - intros row col num rest g g' dn db tr Hwf Hin Hz _ _ [Hle Heq] Hnz.
    pose proof (count_empty_grid_set_exact b g row col num Hwf Hin Hz) as Hce.
    specialize (Hce (Hnz num ltac:(left))).
    split; [lia|]. intros Hoff. specialize (Heq Hoff). lia.
  - intros row col num rest g res g' dn1 db1 tr1 dn2 db2 tr2 _ _ _ _ [Hle1 Heq1] HQ Hnz.
    destruct HQ as [Hle2 Heq2]; [intros v Hv; apply Hnz; by right|].
    split; [lia|]. intros Hoff. specialize (Heq1 Hoff). specialize (Heq2 Hoff). lia.
Qed.

(** X15.  The two statistics are tied to each other.  [nodes_explored]
    is at most [backtrack_count + 1], plus the number of empty cells of
    the input when the search succeeds; with forward checking off it is
    exactly that: every call of [_backtrack] but the first is either
    undone and counted as a backtrack, or fills a cell of the solution. *)
Theorem nodes_bounded_by_backtracks s h b :
  wf_board h b ->
  exists r, solve s h b = Some r /\
       1 <= nodes_explored (final r) /\
       nodes_explored (final r)
       <= backtrack_count (final r) + 1
          + (if success r then count_empty b (view h b) else 0) /\
       (use_forward_checking s = false ->
        nodes_explored (final r)
        = backtrack_count (final r) + 1
          + (if success r then count_empty b (view h b) else 0)).
Proof.
  intros Hwf.
  destruct (solve_runs s h b Hwf)
    as (h1 & wb & r & Hcopy & Hsolve & Hsb & Hwf1 & Hview & Hn & Hs & Hold & Hpost).
  destruct Hpost as (dn & db & tr & _ & _ & Hdn & Hdb & Htr & Hbt & Hres).
  simpl in Hdn, Hdb, Htr. change (heap (initial_state h1)) with h1 in Hbt, Hres.
  rewrite Hview in Hbt, Hres.
  assert (Hwfg : wf_grid wb (view h b)).
  { apply (same_shape_wf_grid b wb); [done|]. by apply view_wf. }
  destruct (bt_nodes _ _ _ _ _ _ _ _ Hwfg Hbt) as [Hle Heq].
  rewrite !(same_shape_count_empty b wb) in Hle, Heq by done.
  assert (Hpos : 1 <= dn) by (inversion Hbt; lia).
  assert (Hce : count_empty b (view (heap (final r)) wb)
                = if success r then 0 else count_empty b (view h b)).
  { destruct (success r) eqn:Hsucc.
    - destruct (bt_sound _ _ _ _ _ _ _ Hwfg Hbt) as [Hvalid _].
      rewrite <- (same_shape_count_empty b wb) by done. apply count_empty_complete.
      unfold is_valid_solution in Hvalid. by destruct (is_complete wb _).
    - by rewrite Hres. }
  exists r. rewrite Hdn, Hdb. split_and!; [done | lia | |].
  - rewrite Hce in Hle. destruct (success r); lia.
  - intros Hoff. specialize (Heq Hoff). rewrite Hce in Heq. destruct (success r); lia.
Qed.

Lemma nodes_bounded_by_backtracks_witness :
  exists r, solve plain example_heap example_board = Some r /\
       1 <= nodes_explored (final r) /\
       nodes_explored (final r)
       <= backtrack_count (final r) + 1
          + (if success r then count_empty example_board (view example_heap example_board)
             else 0) /\
       (use_forward_checking plain = false ->
        nodes_explored (final r)
        = backtrack_count (final r) + 1
          + (if success r then count_empty example_board (view example_heap example_board)
             else 0)).
Proof.
  apply nodes_bounded_by_backtracks.
  apply wf_boardb_true. vm_compute. reflexivity.
Defined.

(** ** Filtering the explanation log *)

Lemma prefix_app (needle hay : string) :
  String.prefix needle hay = true <-> exists post, hay = (needle ++ post)%string.
Proof.
  revert hay. induction needle as [|c needle IH]; intros hay.
  - split; [intros _; by exists hay|]. by destruct hay.
  - destruct hay as [|a hay]; cbn [String.prefix].
    + split; [done|]. by intros (post & ?).
    + destruct (ascii_dec c a) as [->|Hne].
      * rewrite IH. split; intros (post & Hpost); exists post.
        -- by rewrite Hpost.
        -- change (String a hay = String a (needle ++ post)%string) in Hpost.
           by injection Hpost.
      * split; [done|]. intros (post & Hpost).
        change (String a hay = String c (needle ++ post)%string) in Hpost.
        injection Hpost as -> _. done.
Qed.

(** [contains] is the substring test. *)
Lemma contains_substring (needle hay : string) :
  contains needle hay = true <->
  exists pre post, hay = (pre ++ needle ++ post)%string.
Proof.
  induction hay as [|a hay IH]; cbn [contains]; rewrite orb_true_iff, prefix_app.
  - split.
    + intros [(post & Hpost)|?]; [|done]. by exists ""%string, post.
    + intros (pre & post & Hpost). left. destruct pre; [|done]. by exists post.
  - rewrite IH. split.
    + intros [(post & Hpost) | (pre & post & ->)].
      * by exists ""%string, post.
      * by exists (String a pre), post.
    + intros (pre & post & Hpost). destruct pre as [|c pre].
      * left. by exists post.
      * right. exists pre, post.
        change (String a hay = String c (pre ++ needle ++ post)%string) in Hpost.
        by injection Hpost.
Qed.

Lemma contains_no_char (c : ascii) (needle hay : string) :
  c ∉ list_ascii_of_string hay -> contains (String c needle) hay = false.
Proof.
  induction hay as [|a hay IH]; intros Hc; [done|].
  change (list_ascii_of_string (String a hay)) with (a :: list_ascii_of_string hay) in Hc.
  apply not_elem_of_cons in Hc as [Hne Hc].
  cbn [contains String.prefix]. destruct (ascii_dec c a) as [->|_]; [done|].
  simpl. by apply IH.
Qed.

(** The numeral of an integer is made of digits and a minus sign. *)
Lemma str_chars z c :
  c ∈ list_ascii_of_string (str z) -> c = "-"%char \/ (48 <= code c <= 57).
Proof.
  assert (Hu : forall d, c ∈ list_ascii_of_string (NilEmpty.string_of_uint d) ->
                    48 <= code c <= 57).
  { induction d; cbn [NilEmpty.string_of_uint list_ascii_of_string];
      try (by intros ?%elem_of_nil);
      intros [->|Hin]%elem_of_cons; try (by apply IHd); vm_compute; lia. }
  assert (Hz : forall d, c ∈ list_ascii_of_string (NilZero.string_of_uint d) ->
                    48 <= code c <= 57).
  { intros d. unfold NilZero.string_of_uint. destruct d; try apply Hu.
    cbn [list_ascii_of_string]. intros [->|?%elem_of_nil]%elem_of_cons; [|done].
    vm_compute. lia. }
  unfold str, NilZero.string_of_int. destruct (Z.to_int z) as [d|d].
  - intros Hc. right. by apply (Hz d).
  - cbn [list_ascii_of_string]. intros [->|Hin]%elem_of_cons; [by left|].
    right. by apply (Hz d).
Qed.

Lemma milestone_chars i c :
  c ∈ list_ascii_of_string (milestone i) ->
  c ∈ list_ascii_of_string "... [Milestone: Step ] ..." \/ c = "-"%char
  \/ (48 <= code c <= 57).
Proof.
  unfold milestone. rewrite !list_ascii_of_string_app, !elem_of_app.
  intros [Hc | [Hc | Hc]].
  - left. change (list_ascii_of_string "... [Milestone: Step ] ...")
      with (list_ascii_of_string "... [Milestone: Step " ++ list_ascii_of_string "] ...").
    apply elem_of_app. by left.
  - right. by apply str_chars in Hc.
  - left. change (list_ascii_of_string "... [Milestone: Step ] ...")
      with (list_ascii_of_string "... [Milestone: Step " ++ list_ascii_of_string "] ...").
    apply elem_of_app. by right.
Qed.

(** A milestone marker does not count as a backtrack. *)
Lemma milestone_not_backtrack i : contains "Backtracking" (milestone i) = false.
Proof.
  apply contains_no_char. intros [Hc | [Hc | Hc]]%milestone_chars.
  - revert Hc. apply (bool_decide_eq_false_1 _). vm_compute. reflexivity.
  - discriminate Hc.
  - vm_compute in Hc. lia.
Qed.

(** The loop of [filter_key_steps], entry by entry. *)
Lemma filter_loop (items : list (nat * string)) : forall key_steps count,
  exists kept,
    (foldl (filter_step 30) (key_steps, count) items).1 = key_steps ++ kept /\
    length kept <= length items /\
    filter (fun exp => key_line exp = true) items.*2 `sublist_of` kept /\
    (forall exp, exp ∈ kept ->
            exp ∈ items.*2 \/
            exists i x, (i, x) ∈ items /\ i mod 50 = 0 /\ exp = milestone i) /\
    length (filter (fun exp => backtrack_line exp = true) kept) <= 30 - count.
Proof.
  induction items as [|[i exp] items IH]; intros key_steps count.
  { exists []. rewrite app_nil_r. split_and!; try done; [|simpl; lia].
    by intros exp ?%elem_of_nil. }
  cbn [foldl]. unfold filter_step at 2.
  assert (Hstep : forall kept0 count0 (pre : list string),
            (forall exp', exp' ∈ pre ->
                     exp' = exp \/ (i mod 50 = 0 /\ exp' = milestone i)) ->
            filter (fun e => key_line e = true) [exp] `sublist_of` pre ->
            length pre <= 1 ->
            length (filter (fun e => backtrack_line e = true) pre) + (30 - count0)
            <= 30 - count ->
            key_steps ++ pre = kept0 ->
            exists kept,
              (foldl (filter_step 30) (kept0, count0) items).1 = key_steps ++ kept /\
              length kept <= length ((i, exp) :: items) /\
              filter (fun exp => key_line exp = true) ((i, exp) :: items).*2
                `sublist_of` kept /\
              (forall exp0, exp0 ∈ kept ->
                       exp0 ∈ ((i, exp) :: items).*2 \/
                       exists i0 x, (i0, x) ∈ (i, exp) :: items /\ i0 mod 50 = 0 /\
                               exp0 = milestone i0) /\
              length (filter (fun exp => backtrack_line exp = true) kept) <= 30 - count).
  { intros kept0 count0 pre Hpre Hsub Hlen Hbt <-.
    destruct (IH (key_steps ++ pre) count0) as (kept & Hfold & Hl & Hs & Hfrom & Hb).
    exists (pre ++ kept). rewrite Hfold, app_assoc.
    split_and!; [done | | | |].
    - rewrite length_app. simpl. lia.
    - change (((i, exp) :: items).*2) with ([exp] ++ items.*2).
      rewrite filter_app. by apply sublist_app.
    - intros e [He|He]%elem_of_app.
      + destruct (Hpre e He) as [->|[Hmod ->]].
        * left. rewrite fmap_cons. left.
        * right. exists i, exp. split; [left | done].
      + destruct (Hfrom e He) as [Hin|(i0 & x & Hin & Hrest)].
        * left. rewrite fmap_cons. by right.
        * right. exists i0, x. split; [by right | done].
    - rewrite filter_app, length_app. lia. }
  assert (Hone : forall (P : string -> Prop) `{forall x, Decision (P x)} (e : string),
            length (filter P [e]) <= 1).
  { intros P Hdec e. etrans; [apply length_filter|]. done. }
  destruct (contains "[MRV]" exp) eqn:Hmrv.
  { apply (Hstep _ _ [exp]);
      [intros e ->%list_elem_of_singleton; by left | apply sublist_filter | simpl; lia
      | | done].
    rewrite filter_cons_False, filter_nil; [simpl; lia|].
    unfold backtrack_line, key_line. rewrite Hmrv. done. }
  destruct (contains "Forward checking failed" exp) eqn:Hfc.
  { apply (Hstep _ _ [exp]);
      [intros e ->%list_elem_of_singleton; by left | apply sublist_filter | simpl; lia
      | | done].
    rewrite filter_cons_False, filter_nil; [simpl; lia|].
    unfold backtrack_line, key_line. rewrite Hmrv, Hfc. done. }
  assert (Hkey : filter (fun e => key_line e = true) [exp] = []).
  { rewrite filter_cons_False, filter_nil; [done|].
    unfold key_line. rewrite Hmrv, Hfc. done. }
  destruct (contains "Backtracking" exp) eqn:Hbt.
  { destruct (Nat.leb_spec (count + 1) 30) as [Hle|Hgt].
    - apply (Hstep _ _ [exp]);
        [intros e ->%list_elem_of_singleton; by left
        | rewrite Hkey; apply sublist_nil_l | simpl; lia | | done].
      specialize (Hone (fun e => backtrack_line e = true) _ exp). lia.
    - apply (Hstep _ _ []);
        [by intros e ?%elem_of_nil | rewrite Hkey; apply sublist_nil_l
        | simpl; lia | simpl; lia | by rewrite app_nil_r]. }
  destruct (Nat.eqb_spec (i mod 50) 0) as [Hmod|Hmod].
  - apply (Hstep _ _ [milestone i]);
      [intros e ->%list_elem_of_singleton; by right
      | rewrite Hkey; apply sublist_nil_l | simpl; lia | | done].
    rewrite filter_cons_False, filter_nil; [simpl; lia|].
    unfold backtrack_line. rewrite milestone_not_backtrack, andb_false_r. done.
  - apply (Hstep _ _ []);
      [by intros e ?%elem_of_nil | rewrite Hkey; apply sublist_nil_l
      | simpl; lia | simpl; lia | by rewrite app_nil_r].
Qed.

Lemma enumerate_values {A} (l : list A) start : (enumerate l start).*2 = l.
Proof. unfold enumerate. apply snd_zip. by rewrite length_seq. Qed.

Lemma enumerate_index {A} (l : list A) start i x :
  (i, x) ∈ enumerate l start -> start <= i < start + length l.
Proof.
  unfold enumerate. intros Hin.
  assert (i ∈ (zip (seq start (length l)) l).*1) as Hi.
  { apply list_elem_of_fmap. by exists (i, x). }
  rewrite fst_zip in Hi by (by rewrite length_seq). apply elem_of_seq in Hi. lia.
Qed.

(** What [filter_key_steps] returns for more than 100 entries. *)
Lemma filter_key_steps_long (explanations : list string) :
  100 < length explanations ->
  exists kept,
    filter_key_steps explanations
    = take 5 explanations ++ kept ++ drop (length explanations - 5) explanations /\
    length kept <= length explanations - 10 /\
    filter (fun exp => key_line exp = true) (middle explanations) `sublist_of` kept /\
    (forall exp, exp ∈ kept ->
            exp ∈ middle explanations \/
            exists i, 5 <= i < length explanations - 5 /\ i mod 50 = 0 /\
                 exp = milestone i) /\
    length (filter (fun exp => backtrack_line exp = true) kept) <= 30.
Proof.
  intros Hlen. unfold filter_key_steps.
  destruct (Nat.leb_spec (length explanations) 100) as [|_]; [lia|].
  replace (Nat.min 5 (length explanations)) with 5 by lia.
  assert (Hfirst : slice explanations None (Some (Z.of_nat 5)) = take 5 explanations).
  { unfold slice, slice_bound. change (Z.of_nat 5 <? 0)%Z with false. cbv iota.
    rewrite Nat2Z.id, drop_0. f_equal. lia. }
  assert (Hmid : slice explanations (Some (Z.of_nat 5)) (Some (-5)%Z) = middle explanations).
  { unfold slice, slice_bound, middle.
    change (Z.of_nat 5 <? 0)%Z with false. change (-5 <? 0)%Z with true. cbv iota.
    rewrite Nat2Z.id. f_equal; [lia|]. f_equal. lia. }
  assert (Hlast : slice explanations (Some (-5)%Z) None
                  = drop (length explanations - 5) explanations).
  { unfold slice, slice_bound. change (-5 <? 0)%Z with true. cbv iota.
    rewrite firstn_all. f_equal. lia. }
  rewrite Hfirst, Hmid, Hlast.
  assert (Hml : length (middle explanations) = length explanations - 10).
  { unfold middle. rewrite length_drop, length_take. lia. }
  destruct (filter_loop (enumerate (middle explanations) 5) (take 5 explanations) 0)
    as (kept & Hfold & Hl & Hs & Hfrom & Hb).
  destruct (foldl _ _ _) as [key_steps count]. simpl in Hfold. subst key_steps.
  rewrite enumerate_values in Hs, Hfrom.
  exists kept. rewrite <- app_assoc. split_and!; [done | | done | | lia].
  - unfold enumerate in Hl. rewrite length_zip, length_seq in Hl. lia.
  - intros exp Hexp. destruct (Hfrom exp Hexp) as [Hin|(i & x & Hin & Hmod & ->)].
    + by left.
    + right. exists i. apply enumerate_index in Hin. rewrite Hml in Hin.
      split_and!; [lia | lia | done | done].
Qed.

(** X16.  [filter_key_steps] returns a log of at most 100 entries as it
    is.  Of a longer log it keeps the first five and the last five
    entries where they were, and what it returns is never longer than the
    log. *)
Theorem filter_key_steps_keeps_both_ends (explanations : list string) :
  (length explanations <= 100 -> filter_key_steps explanations = explanations) /\
  take 5 (filter_key_steps explanations) = take 5 explanations /\
  drop (length (filter_key_steps explanations) - 5) (filter_key_steps explanations)
  = drop (length explanations - 5) explanations /\
  length (filter_key_steps explanations) <= length explanations.
Proof.
  destruct (decide (length explanations <= 100)) as [Hshort|Hlong].
  - assert (filter_key_steps explanations = explanations) as ->.
    { unfold filter_key_steps. by destruct (Nat.leb_spec (length explanations) 100); [|lia]. }
    done.
  - destruct (filter_key_steps_long explanations) as (kept & -> & Hl & _); [lia|].
    assert (H5 : length (take 5 explanations) = 5) by (rewrite length_take; lia).
    assert (Hd : length (drop (length explanations - 5) explanations) = 5)
      by (rewrite length_drop; lia).
    split_and!; [lia | | |].
    + by rewrite take_app_length' by done.
    + rewrite !length_app, H5, Hd.
      replace (5 + (length kept + 5) - 5) with (length (take 5 explanations) + length kept)
        by lia.
      rewrite drop_app_add, drop_app_length. done.
    + rewrite !length_app, H5, Hd. lia.
Qed.

(** X17.  From the entries between the first five and the last five of a
    log of more than 100 entries, [filter_key_steps] keeps every MRV
    selection and every forward-checking failure, in their order; what
    else it returns from there is an entry of the log or the milestone
    marker of a position divisible by 50. *)
Theorem filter_key_steps_keeps_decisions (explanations : list string) :
  100 < length explanations ->
  exists kept,
    filter_key_steps explanations
    = take 5 explanations ++ kept ++ drop (length explanations - 5) explanations /\
    filter (fun exp => key_line exp = true) (middle explanations) `sublist_of` kept /\
    (forall exp, exp ∈ kept ->
            exp ∈ middle explanations \/
            exists i, 5 <= i < length explanations - 5 /\ i mod 50 = 0 /\
                 exp = milestone i).
Proof.
  intros Hlen.
  destruct (filter_key_steps_long explanations Hlen) as (kept & Heq & _ & Hs & Hfrom & _).
  by exists kept.
Qed.

Lemma filter_key_steps_keeps_decisions_witness :
  exists kept,
    filter_key_steps long_log
    = take 5 long_log ++ kept ++ drop (length long_log - 5) long_log /\
    filter (fun exp => key_line exp = true) (middle long_log) `sublist_of` kept /\
    (forall exp, exp ∈ kept ->
            exp ∈ middle long_log \/
            exists i, 5 <= i < length long_log - 5 /\ i mod 50 = 0 /\
                 exp = milestone i).
Proof. apply filter_key_steps_keeps_decisions. vm_compute. lia. Defined.

(** X18.  Of the entries between the first five and the last five that
    mention a backtrack (and are neither an MRV selection nor a
    forward-checking failure), [filter_key_steps] keeps at most 30. *)
Theorem filter_key_steps_limits_backtracks (explanations : list string) :
  100 < length explanations ->
  exists kept,
    filter_key_steps explanations
    = take 5 explanations ++ kept ++ drop (length explanations - 5) explanations /\
    length (filter (fun exp => backtrack_line exp = true) kept) <= 30.
Proof.
  intros Hlen.
  destruct (filter_key_steps_long explanations Hlen) as (kept & Heq & _ & _ & _ & Hb).
  by exists kept.
Qed.

Lemma filter_key_steps_limits_backtracks_witness :
  exists kept,
    filter_key_steps long_log
    = take 5 long_log ++ kept ++ drop (length long_log - 5) long_log /\
    length (filter (fun exp => backtrack_line exp = true) kept) <= 30.
Proof. apply filter_key_steps_limits_backtracks. vm_compute. lia. Defined.

(** ** The puzzle generator *)

Section Generated.
Variable rng : Type.
Variable shuffle : forall A : Type, rng -> list A -> list A * rng.
Hypothesis shuffle_permutes : forall A g (l : list A), (shuffle A g l).1 ≡ₚ l.

(** The inner loops of [_fill_diagonal_boxes] write [values] into
    [cells], in order. *)
Lemma fill_cells_spec b values cells : forall (idx : nat) h,
  wf_board h b -> NoDup cells -> (forall p, p ∈ cells -> in_grid b p) ->
  idx + length cells <= length values ->
  exists h', Generator.fill_cells b values cells (Z.of_nat idx) h = Ok h' /\
        wf_board h' b /\
        (forall l, l ∉ board b -> h' !! l = h !! l) /\
        (forall k p, cells !! k = Some p ->
                values !! (idx + k) = Some (cellp (view h' b) p)) /\
        (forall p, in_grid b p -> p ∉ cells -> cellp (view h' b) p = cellp (view h b) p).
Proof.
  induction cells as [|[r c] cells IH]; intros idx h Hwf Hnd Hin Hlen.
  { exists h. split_and!; try done. }
  apply NoDup_cons in Hnd as [Hnin Hnd]. cbn [Generator.fill_cells length] in *.
  destruct (Hin (r, c)) as [Hr Hc]; [left|]. simpl in Hr, Hc.
  destruct (lookup_lt_is_Some_2 values idx) as [v Hv]; [lia|].
  unfold py_getitem. rewrite py_index_nonneg, Hv by lia.
  rewrite set_in_range by done.
  pose proof (write_wf h b r c v Hwf) as Hwf1.
  pose proof (view_wf _ _ Hwf) as Hwfg.
  destruct (IH (S idx) (write h b r c v) Hwf1 Hnd) as (h' & Hfill & Hwf' & Hframe & Hset & Hkeep).
  { intros p Hp. apply Hin. by right. }
  { lia. }
  replace (Z.of_nat idx + 1)%Z with (Z.of_nat (S idx)) by lia.
  exists h'. split_and!; [done | done | | |].
  - intros l Hl. rewrite Hframe by done. by apply write_frame.
  - intros [|k] p Hk; simpl in Hk.
    + injection Hk as <-. rewrite Nat.add_0_r, Hv. f_equal.
      rewrite Hkeep by (done || by split).
      rewrite view_write, (cellp_grid_set b) by (done || by split).
      by rewrite decide_True.
    + replace (idx + S k) with (S idx + k) by lia. by apply Hset.
  - intros p Hp [Hne Hnp]%not_elem_of_cons. rewrite Hkeep by done.
    rewrite view_write, (cellp_grid_set b) by (done || by split).
    by rewrite decide_False.
Qed.


Lemma is_blank_spec b g :
  is_blank b g = true <-> (forall p, in_grid b p -> cellp g p = 0%Z).
Proof.
  unfold is_blank. rewrite forallb_forall. split.
  - intros H [r c] Hp%elem_of_positions_in_grid%list_elem_of_In.
    specialize (H _ Hp). simpl in H. by apply Z.eqb_eq in H.
  - intros H [r c] Hp%list_elem_of_In%elem_of_positions_in_grid.
    apply Z.eqb_eq. by apply (H (r, c)).
Qed.

Lemma box_in_grid b k p :
  0 < n b -> board_size b = n b * n b -> k < n b ->
  p ∈ box_positions (n b) (k * n b) (k * n b) -> in_grid b p.
Proof.
  intros Hn Hside Hk [Hp1 Hp2]%elem_of_box_positions. split; rewrite Hside; nia.
Qed.

(** The loop over the diagonal boxes: each box of [boxes] ends up with a
    permutation of [1 .. board_size], and no other cell is written. *)
Lemma fill_boxes_spec self b boxes : forall g h,
  wf_board h b -> Generator.n self = n b -> Generator.board_size self = board_size b ->
  NoDup boxes -> (forall k, k ∈ boxes -> k < n b) ->
  exists h' g',
    Generator.fill_boxes rng shuffle self b boxes g h = Ok (h', g') /\
    wf_board h' b /\
    (forall l, l ∉ board b -> h' !! l = h !! l) /\
    (forall k, k ∈ boxes ->
          box_cells b (view h' b) (k * n b) (k * n b) ≡ₚ values b) /\
    (forall p, in_grid b p -> ~ (p.1 / n b = p.2 / n b /\ p.1 / n b ∈ boxes) ->
          cellp (view h' b) p = cellp (view h b) p).
Proof.
  intros g h Hwf Hn Hs. revert g h Hwf.
  pose proof I as Hdummy.
  induction boxes as [|k boxes IH]; intros g h Hwf Hnd Hlt.
  { exists h, g. split_and!; try done. by intros k ?%elem_of_nil. }
  pose proof Hwf as (Hnpos & Hside & _).
  apply NoDup_cons in Hnd as [Hnin Hnd].
  assert (Hk : k < n b) by (apply Hlt; left).
  cbn [Generator.fill_boxes]. rewrite Hn, Hs.
  pose proof (shuffle_permutes Z g (Z.of_nat <$> seq 1 (board_size b))) as Hperm.
  destruct (shuffle Z g (Z.of_nat <$> seq 1 (board_size b))) as [vals g1]. simpl in Hperm.
  assert (Hvlen : length vals = n b * n b).
  { rewrite Hperm, length_fmap, length_seq. done. }
  destruct (fill_cells_spec b vals (box_positions (n b) (k * n b) (k * n b)) 0 h Hwf)
    as (h1 & Hfill & Hwf1 & Hframe1 & Hset1 & Hkeep1).
  { apply NoDup_box_positions. }
  { intros p Hp. by apply (box_in_grid b k). }
  { rewrite length_box_positions. lia. }
  change (Z.of_nat 0) with 0%Z in Hfill. rewrite Hfill.
  destruct (IH g1 h1 Hwf1 Hnd) as (h' & g' & Hboxes & Hwf' & Hframe & Hall & Hkeep).
  { intros k' Hk'. apply Hlt. by right. }
  exists h', g'. split_and!; [done | done | | |].
  - intros l Hl. rewrite Hframe by done. by apply Hframe1.
  - intros k' [->|Hk']%elem_of_cons; [|by apply Hall].
    rewrite <- Hperm. rewrite box_cells_positions.
    assert (cellp (view h' b) <$> box_positions (n b) (k * n b) (k * n b) = vals) as ->; [|done].
    apply list_eq_same_length with (n b * n b);
      [done | by rewrite length_fmap, length_box_positions |].
    intros j x y Hj Hx Hy. rewrite list_lookup_fmap in Hx.
    destruct (box_positions (n b) (k * n b) (k * n b) !! j) as [p|] eqn:Hp; [|done].
    simpl in Hx. injection Hx as <-.
    pose proof (Hset1 j p Hp) as Hv. simpl in Hv. rewrite Hy in Hv. injection Hv as ->.
    apply Hkeep.
    + apply (box_in_grid b k); try done. by eapply list_elem_of_lookup_2.
    + intros [_ Hin]. apply list_elem_of_lookup_2, elem_of_box in Hp as [Hp1 _]; [|done].
      rewrite Hp1 in Hin. done.
  - intros p Hp Hnot. rewrite Hkeep.
    + apply Hkeep1; [done|]. intros [Hp1 Hp2]%elem_of_box; [|done].
      apply Hnot. split; [congruence|]. rewrite Hp1. left.
    + done.
    + intros [Hd Hin]. apply Hnot. split; [done | by right].
Qed.

(** [_fill_diagonal_boxes] on a blank board. *)
Lemma fill_diagonal_spec self b g h :
  wf_board h b -> Generator.n self = n b -> Generator.board_size self = board_size b ->
  is_blank b (view h b) = true ->
  exists h' g',
    Generator._fill_diagonal_boxes rng shuffle self b g h = Ok (h', g') /\
    wf_board h' b /\
    (forall l, l ∉ board b -> h' !! l = h !! l) /\
    (forall k, k < n b -> box_cells b (view h' b) (k * n b) (k * n b) ≡ₚ values b) /\
    (forall p, in_grid b p -> p.1 / n b <> p.2 / n b -> cellp (view h' b) p = 0%Z) /\
    consistent b (view h' b) = true /\
    in_range b (view h' b) = true.
Proof.
  intros Hwf Hn Hs Hblank. rewrite is_blank_spec in Hblank.
  pose proof Hwf as (Hnpos & Hside & _).
  destruct (fill_boxes_spec self b (seq 0 (n b)) g h Hwf Hn Hs) as
    (h' & g' & Hfill & Hwf' & Hframe & Hall & Hkeep).
  { apply NoDup_seq. }
  { intros k Hk%elem_of_seq. lia. }
  assert (Hoff : forall p, in_grid b p -> p.1 / n b <> p.2 / n b -> cellp (view h' b) p = 0%Z).
  { intros p Hp Hne. rewrite Hkeep; [by apply Hblank | done | tauto]. }
  assert (Hdiag : forall p, in_grid b p -> p.1 / n b = p.2 / n b ->
            p ∈ box_positions (n b) (p.1 / n b * n b) (p.1 / n b * n b) /\
            p.1 / n b < n b /\
            (1 <= cellp (view h' b) p <= Z.of_nat (board_size b))%Z).
  { intros p [Hp1 Hp2] Heq.
    assert (Hk : p.1 / n b < n b) by (apply div_lt_square; lia).
    assert (Hin : p ∈ box_positions (n b) (p.1 / n b * n b) (p.1 / n b * n b))
      by (apply elem_of_box; [done | by split]).
    split; [done|]. split; [done|].
    assert (Hv : cellp (view h' b) p ∈ values b).
    { rewrite <- (Hall (p.1 / n b)) by (apply elem_of_seq; lia).
      rewrite box_cells_positions. apply list_elem_of_fmap. by exists p. }
    unfold values in Hv. apply list_elem_of_fmap in Hv as (v & -> & Hv%elem_of_seq). lia. }
  exists h', g'. unfold Generator._fill_diagonal_boxes. rewrite Hn.
  split_and!; [done | done | done | | done | |].
  - intros k Hk. apply Hall. apply elem_of_seq. lia.
  - apply consistent_spec; [done | done | by apply view_wf |].
    intros p q Hp Hq Hne Hrel Hnz.
    destruct (decide (p.1 / n b = p.2 / n b)) as [Hpd|Hpd]; [|by rewrite Hoff in Hnz].
    destruct (Hdiag p Hp Hpd) as (Hpin & Hk & Hprange).
    destruct (decide (q.1 / n b = q.2 / n b)) as [Hqd|Hqd];
      [|rewrite (Hoff q) by done; lia].
    assert (Hsame : q.1 / n b = p.1 / n b).
    { destruct Hrel as [Hrow | [Hcol | [Hb1 Hb2]]]; congruence. }
    destruct (Hdiag q Hq Hqd) as (Hqin & _ & _). rewrite Hsame in Hqin.
    assert (Hnd : NoDup (cellp (view h' b) <$>
                           box_positions (n b) (p.1 / n b * n b) (p.1 / n b * n b))).
    { rewrite <- box_cells_positions, (Hall (p.1 / n b)) by (apply elem_of_seq; lia).
      unfold values. apply NoDup_fmap_2; [apply _ | apply NoDup_seq]. }
    rewrite NoDup_fmap_iff in Hnd by apply NoDup_box_positions.
    by apply Hnd.
  - apply in_range_spec. intros p Hp.
    destruct (decide (p.1 / n b = p.2 / n b)) as [Hpd|Hpd].
    + destruct (Hdiag p Hp Hpd) as (_ & _ & ?). lia.
    + rewrite Hoff by done. lia.
Qed.

Lemma init_blank h k h' b :
  init h k = (h', b) -> is_blank b (view h' b) = true.
Proof.
  unfold init. destruct (alloc_rows _ _) as [ls h1] eqn:Hal. intros [= <- <-].
  apply is_blank_spec. intros [r c] [Hr Hc]. simpl in Hr, Hc.
  unfold view. simpl. rewrite (alloc_rows_view _ _ _ _ Hal).
  unfold cellp. simpl. erewrite cell_lookup by (by apply lookup_replicate_2).
  by rewrite lookup_replicate_2.
Qed.

(** The values of a grid that completes a grid with values in
    [0, board_size] are in that range. *)
Lemma completes_in_range b g F :
  in_range b g = true -> completes b g F -> in_range b F = true.
Proof.
  rewrite !in_range_spec. intros Hrange [_ Hext] p Hp.
  specialize (Hrange p Hp). destruct (Hext p Hp) as [Hkeep Hfill].
  destruct (decide (cellp g p = 0%Z)) as [Hz|Hnz].
  - specialize (Hfill Hz). lia.
  - by rewrite Hkeep.
Qed.

(** The loop of [_generate_solution]: it ends, with a solution or with
    the exception for too many attempts. *)
Lemma attempts_spec self todo : forall g h,
  0 < Generator.n self -> Generator.board_size self = Generator.n self * Generator.n self ->
  exists r, Generator.attempts rng shuffle self todo g h = Some r /\
       match r with
       | Generator.Generated (h', solution, _) =>
           wf_board h' solution /\ n solution = Generator.n self /\
           is_valid_solution solution (view h' solution) = true /\
           in_range solution (view h' solution) = true /\
           units_exactly_once solution (view h' solution) /\
           (forall l, is_Some (h !! l) -> h' !! l = h !! l /\ l ∉ board solution)
       | Generator.Failed _ => False
       | Generator.GaveUp => True
       end.
Proof.
  intros g h Hn Hs. revert g h.
  induction todo as [|attempt todo IH]; intros g h; cbn [Generator.attempts].
  { by exists Generator.GaveUp. }
  destruct (init h (Generator.n self)) as [h0 b] eqn:Hinit.
  destruct (init_wf _ _ _ _ Hn Hinit) as (Hwf0 & Hnb & Hold0 & Hnew0).
  pose proof (init_blank _ _ _ _ Hinit) as Hblank.
  pose proof Hwf0 as (_ & Hside & _).
  destruct (fill_diagonal_spec self b g h0 Hwf0) as
    (h1 & g1 & Hfill & Hwf1 & Hframe1 & _ & _ & _ & Hrange1); [done | congruence | done |].
  rewrite Hfill. cbv beta iota.
  destruct (solve_runs mrv_fc h1 b Hwf1)
    as (h2 & wb & r & Hcopy & Hsolve & Hsb & Hwf2 & Hview & Hnwb & Hswb & Hold2 & Hpost).
  rewrite Hsolve. cbv beta iota.
  assert (Hkeep : forall l, is_Some (h !! l) -> heap (final r) !! l = h !! l /\ l ∉ board wb).
  { intros l Hl.
    assert (Hl0 : h0 !! l = h !! l) by by apply Hold0.
    assert (Hnb0 : l ∉ board b).
    { intros Hin. apply Hnew0 in Hin. rewrite Hin in Hl. by destruct Hl. }
    assert (Hl1 : h1 !! l = h !! l) by (rewrite Hframe1 by done; done).
    destruct (Hold2 l) as [Hl2 Hnwb2]; [by rewrite Hl1|].
    destruct Hpost as (dn & db & tr & _ & Hframe & _).
    split; [|done]. rewrite Hframe by done. simpl. by rewrite Hl2, Hl1. }
  destruct (success r) eqn:Hsucc.
  - exists (Generator.Generated (heap (final r), wb, g1)). rewrite Hsb.
    split; [reflexivity|]. cbv beta iota.
    destruct (solve_success_valid mrv_fc h1 b r Hwf1 Hsolve Hsucc)
      as (wb' & Hsb' & Hn' & Hs' & Hwfg & Hvalid & Hcompl).
    rewrite Hsb in Hsb'. injection Hsb' as <-.
    destruct Hpost as (dn & db & tr & Hwf' & _).
    pose proof (completes_in_range _ _ _ Hrange1 Hcompl) as Hrange.
    rewrite <- (same_shape_in_range b wb) in Hrange by done.
    split_and!; [done | congruence | done | done | | done].
    apply valid_in_range_once; try done.
    + destruct Hwf' as (? & _). done.
    + by destruct Hwf' as (_ & ? & _).
    + by apply view_wf.
  - destruct (IH g1 (heap (final r))) as (r' & Hr' & Hpost').
    exists r'. split; [done|].
    destruct r' as [[[h' solution] g']|e|]; [|done|done].
    destruct Hpost' as (Hwf' & Hn' & Hvalid & Hrange & Honce & Hold').
    split_and!; try done.
    intros l Hl. destruct (Hkeep l Hl) as [Hl2 _].
    destruct (Hold' l) as [Hl' Hnin]; [by rewrite Hl2|].
    split; [by rewrite Hl', Hl2 | done].
Qed.

(** X19.  [_fill_diagonal_boxes] on a blank board of the generator's
    size writes every value of [1 .. board_size] exactly once into each
    box on the diagonal and leaves every other cell empty; the board it
    leaves has no value twice in a row, a column or a box. *)
Theorem fill_diagonal_boxes_is_consistent self b g h :
  wf_board h b -> Generator.n self = n b -> Generator.board_size self = board_size b ->
  is_blank b (view h b) = true ->
  exists h' g',
    Generator._fill_diagonal_boxes rng shuffle self b g h = Ok (h', g') /\
    wf_board h' b /\
    (forall k, k < n b ->
          exactly_once b (box_cells b (view h' b) (k * n b) (k * n b))) /\
    (forall p, in_grid b p -> p.1 / n b <> p.2 / n b -> cellp (view h' b) p = 0%Z) /\
    consistent b (view h' b) = true.
Proof.
  intros Hwf Hn Hs Hblank.
  destruct (fill_diagonal_spec self b g h Hwf Hn Hs Hblank)
    as (h' & g' & Hfill & Hwf' & _ & Hall & Hoff & Hcons & _).
  by exists h', g'.
Qed.

(** X20.  [_generate_solution] ends, and never with an exception of a
    board method: it returns a new board that [is_valid_solution]
    accepts, with each value of [1 .. board_size] once in every row,
    column and box, or gives up after ten attempts.  The boards that
    existed before are left as they were. *)
Theorem generate_solution_is_valid k g h :
  0 < k ->
  exists r, Generator._generate_solution rng shuffle (Generator.__init__ k) g h = Some r /\
       match r with
       | Generator.Generated (h', solution, _) =>
           wf_board h' solution /\ n solution = k /\
           is_valid_solution solution (view h' solution) = true /\
           units_exactly_once solution (view h' solution) /\
           (forall l, is_Some (h !! l) -> h' !! l = h !! l /\ l ∉ board solution)
       | Generator.Failed _ => False
       | Generator.GaveUp => True
       end.
Proof.
  intros Hk. unfold Generator._generate_solution.
  destruct (attempts_spec (Generator.__init__ k) (seq 0 10) g h) as (r & Hr & Hpost);
    [done | done |].
  exists r. split; [done|].
  destruct r as [[[h' solution] g']|e|]; [|done|done].
  destruct Hpost as (Hwf' & Hn' & Hvalid & _ & Honce & Hold). done.
Qed.

(** ** Removing cells *)

Lemma length_filter_permutation {A} (f : A -> bool) (l l' : list A) :
  l ≡ₚ l' -> length (List.filter f l) = length (List.filter f l').
Proof.
  induction 1 as [|x l l' _ IH|x y l|l l' l'' _ IH1 _ IH2]; simpl.
  - done.
  - destruct (f x); simpl; by rewrite IH.
  - by destruct (f x), (f y).
  - by rewrite IH1.
Qed.

Lemma filter_none {A} (f : A -> bool) (l : list A) :
  (forall x, x ∈ l -> f x = false) -> List.filter f l = [].
Proof.
  induction l as [|a l IH]; intros Hf; simpl; [done|].
  rewrite (Hf a) by left. apply IH. intros x Hx. apply Hf. by right.
Qed.

Lemma length_filter_take {A} (f : A -> bool) (l : list A) k :
  NoDup l -> (forall x, x ∈ l -> f x = true <-> x ∈ take k l) ->
  length (List.filter f l) = Nat.min k (length l).
Proof.
  intros Hnd Hf. rewrite <- (take_drop k l) at 1. rewrite <- (take_drop k l) in Hnd.
  apply NoDup_app in Hnd as (_ & Hdisj & _).
  rewrite List.filter_app, length_app.
  assert (List.filter f (take k l) = take k l) as ->.
  { apply forallb_filter_id, forallb_forall. intros x Hx%list_elem_of_In.
    apply Hf; [|done]. rewrite <- (take_drop k l). apply elem_of_app. by left. }
  assert (List.filter f (drop k l) = []) as ->.
  { apply filter_none. intros x Hx. apply not_true_iff_false. intros Hfx.
    apply Hf in Hfx; [by apply (Hdisj x)|].
    rewrite <- (take_drop k l). apply elem_of_app. by right. }
  rewrite length_take. simpl. lia.
Qed.

(** The loop of [_remove_cells] clears the first cells of
    [all_positions], as many as are still to be removed, and no other. *)
Lemma remove_loop_spec puzzle cells_to_remove all_positions : forall removed h,
  wf_board h puzzle -> NoDup all_positions ->
  (forall p, p ∈ all_positions -> in_grid puzzle p) ->
  exists h',
    Generator.remove_loop puzzle cells_to_remove all_positions removed h = Ok h' /\
    wf_board h' puzzle /\
    (forall l, l ∉ board puzzle -> h' !! l = h !! l) /\
    (forall p, p ∈ take (Z.to_nat (cells_to_remove - removed)) all_positions ->
          cellp (view h' puzzle) p = 0%Z) /\
    (forall p, in_grid puzzle p ->
          p ∉ take (Z.to_nat (cells_to_remove - removed)) all_positions ->
          cellp (view h' puzzle) p = cellp (view h puzzle) p).
Proof.
  induction all_positions as [|[row col] rest IH]; intros removed h Hwf Hnd Hin.
  { exists h. rewrite take_nil. split_and!; try done. by intros p ?%elem_of_nil. }
  apply NoDup_cons in Hnd as [Hnin Hnd]. cbn [Generator.remove_loop].
  destruct (Z.geb_spec removed cells_to_remove) as [Hge|Hlt].
  { exists h. replace (Z.to_nat (cells_to_remove - removed)) with 0 by lia.
    split_and!; try done. by intros p ?%elem_of_nil. }
  destruct (Hin (row, col)) as [Hr Hc]; [left|]. simpl in Hr, Hc.
  rewrite get_in_range, set_in_range by done.
  pose proof (write_wf h puzzle row col 0%Z Hwf) as Hwf1.
  pose proof (view_wf _ _ Hwf) as Hwfg.
  destruct (IH (removed + 1)%Z (write h puzzle row col 0%Z) Hwf1 Hnd)
    as (h' & Hloop & Hwf' & Hframe & Hzero & Hkeep).
  { intros p Hp. apply Hin. by right. }
  replace (Z.to_nat (cells_to_remove - removed))
    with (S (Z.to_nat (cells_to_remove - (removed + 1)))) by lia.
  cbn [take].
  exists h'. split_and!; [done | done | | |].
  - intros l Hl. rewrite Hframe by done. by apply write_frame.
  - intros p [->|Hp]%elem_of_cons; [|by apply Hzero].
    rewrite Hkeep; [| by split |].
    + rewrite view_write, (cellp_grid_set puzzle) by (done || by split).
      by rewrite decide_True.
    + intros (i & Hi & _)%elem_of_take. apply Hnin. by eapply list_elem_of_lookup_2.
  - intros p Hp [Hne Hnp]%not_elem_of_cons. rewrite Hkeep by done.
    rewrite view_write, (cellp_grid_set puzzle) by (done || by split).
    by rewrite decide_False.
Qed.

Section Removal.
Variable uniform_cells : rng -> nat -> nat -> nat -> Z * rng.

(** [_remove_cells]: the puzzle is a copy of the solution with the cells
    of [removed] cleared. *)
Lemma remove_cells_spec self solution difficulty g h :
  wf_board h solution -> Generator.board_size self = board_size solution ->
  exists h' puzzle g' removed,
    Generator._remove_cells rng shuffle uniform_cells self solution difficulty g h
    = Ok (h', puzzle, g') /\
    wf_board h' puzzle /\ n puzzle = n solution /\ board_size puzzle = board_size solution /\
    view h' solution = view h solution /\
    (forall l, is_Some (h !! l) -> h' !! l = h !! l /\ l ∉ board puzzle) /\
    NoDup removed /\ (forall p, p ∈ removed -> in_grid solution p) /\
    Z.of_nat (length removed)
    = Z.min (Z.of_nat (board_size solution * board_size solution))
            (Z.max 0 (Z.of_nat (board_size solution * board_size solution)
                      - (Generator.cells_to_keep rng uniform_cells self difficulty
                           (board_size solution * board_size solution) g).1)) /\
    (forall p, in_grid solution p ->
          cellp (view h' puzzle) p
          = if decide (p ∈ removed) then 0%Z else cellp (view h solution) p).
Proof.
  intros Hwf Hs. unfold Generator._remove_cells. rewrite Hs.
  destruct (copy h solution) as [h1 puzzle] eqn:Hcopy.
  destruct (copy_spec _ _ _ _ Hwf Hcopy) as (Hwf1 & Hview & Hn & Hsz & Hold).
  destruct (Generator.cells_to_keep rng uniform_cells self difficulty _ g) as [keep g1].
  pose proof (shuffle_permutes (nat * nat) g1 (positions (board_size solution))) as Hperm.
  destruct (shuffle (nat * nat) g1 (positions (board_size solution))) as [ps g2].
  simpl in Hperm. cbn [fst].
  assert (Hnd : NoDup ps) by (rewrite Hperm; apply NoDup_positions).
  assert (Hin : forall p, p ∈ ps -> in_grid puzzle p).
  { intros p Hp. rewrite Hperm in Hp. apply elem_of_positions_in_grid in Hp.
    unfold in_grid in *. by rewrite Hsz. }
  destruct (remove_loop_spec puzzle
              (Z.of_nat (board_size solution * board_size solution) - keep)%Z
              ps 0%Z h1 Hwf1 Hnd Hin) as (h' & Hloop & Hwf' & Hframe & Hzero & Hkeep).
  rewrite Hloop. rewrite Z.sub_0_r in Hzero, Hkeep.
  set (k := Z.to_nat (Z.of_nat (board_size solution * board_size solution) - keep)) in *.
  assert (Hrows : forall l, l ∈ board solution -> is_Some (h !! l)).
  { intros l Hl. destruct Hwf as (_ & _ & _ & _ & Hall). rewrite Forall_forall in Hall.
    destruct (Hall l Hl) as (row & -> & _). done. }
  assert (Hlenps : length ps = board_size solution * board_size solution).
  { rewrite Hperm. unfold positions. rewrite (length_bind_const _ _ (board_size solution)).
    - by rewrite length_seq.
    - intros r. by rewrite length_fmap, length_seq. }
  exists h', puzzle, g2, (take k ps).
  split_and!; [done | done | done | done | | | | | |].
  - rewrite <- Hview. transitivity (view h1 solution).
    + apply view_ext. intros l Hl. apply Hframe. by apply Hold, Hrows.
    + rewrite Hview. apply view_ext. intros l Hl. by apply Hold, Hrows.
  - intros l Hl. destruct (Hold l Hl) as [Hl1 Hnin]. split; [|done].
    by rewrite Hframe.
  - rewrite <- (take_drop k ps) in Hnd. by apply NoDup_app in Hnd as (? & _).
  - intros p (i & Hi & _)%elem_of_take.
    assert (Hp : in_grid puzzle p) by (apply Hin; by eapply list_elem_of_lookup_2).
    unfold in_grid in *. by rewrite <- Hsz.
  - rewrite length_take, Hlenps. unfold k. lia.
  - intros p Hp.
    assert (Hp' : in_grid puzzle p) by (unfold in_grid in *; by rewrite Hsz).
    destruct (decide (p ∈ take k ps)) as [Hrem|Hrem].
    + by apply Hzero.
    + rewrite Hkeep by done. unfold cellp. by rewrite Hview.
Qed.

(** A solution with cells cleared is a puzzle that has it as a solution. *)
Lemma cleared_cells_complete b (F g : Grid) (removed : list (nat * nat)) :
  0 < n b -> board_size b = n b * n b -> wf_grid b F ->
  is_valid_solution b F = true -> in_range b F = true ->
  (forall p, in_grid b p -> cellp g p = if decide (p ∈ removed) then 0%Z else cellp F p) ->
  completes b g F.
Proof.
  intros Hn Hside HwfF Hvalid Hrange Hg. split; [done|]. intros p Hp.
  apply is_valid_solution_spec in Hvalid as [Hfull _]; [|done..].
  rewrite in_range_spec in Hrange. specialize (Hrange p Hp). specialize (Hfull p Hp).
  rewrite (Hg p Hp). destruct (decide (p ∈ removed)); (split; [done|]); intros; lia.
Qed.

Lemma count_empty_removed b (F g : Grid) (removed : list (nat * nat)) :
  is_complete b F = true -> NoDup removed -> (forall p, p ∈ removed -> in_grid b p) ->
  (forall p, in_grid b p -> cellp g p = if decide (p ∈ removed) then 0%Z else cellp F p) ->
  count_empty b g = length removed.
Proof.
  intros Hfull Hnd Hin Hg. rewrite is_complete_spec in Hfull. unfold count_empty.
  assert (Hperm : positions (board_size b)
                  ≡ₚ removed ++ filter (fun p => p ∉ removed) (positions (board_size b))).
  { apply NoDup_Permutation.
    - apply NoDup_positions.
    - apply NoDup_app. split_and!; [done | | apply NoDup_filter, NoDup_positions].
      intros p Hp [Hnp _]%list_elem_of_filter. done.
    - intros p. rewrite elem_of_app, list_elem_of_filter.
      destruct (decide (p ∈ removed)) as [Hp|Hp].
      + split; [by left|]. intros _. apply elem_of_positions_in_grid. by apply Hin.
      + split; [by right|]. by intros [?|[_ ?]]. }
  rewrite (length_filter_permutation _ _ _ Hperm), List.filter_app, length_app.
  rewrite forallb_filter_id.
  2:{ apply forallb_forall. intros [r c] Hp%list_elem_of_In.
      specialize (Hg (r, c) (Hin _ Hp)). rewrite decide_True in Hg by done.
      unfold cellp in Hg. simpl in Hg. by apply Z.eqb_eq. }
  rewrite filter_none; [simpl; lia|].
  intros [r c] [Hnp Hp%elem_of_positions_in_grid]%list_elem_of_filter.
  specialize (Hg (r, c) Hp). rewrite decide_False in Hg by done.
  apply Z.eqb_neq. unfold cellp in Hg. simpl in Hg. rewrite Hg. by apply (Hfull (r, c)).
Qed.

(** X21.  [_remove_cells] works on a copy: the solution it is given is
    left as it was, and every cell of the puzzle it returns is empty or
    holds what the solution holds.  The puzzle of a valid solution has
    that solution, so [solve] succeeds on it under every setting of the
    flags. *)
Theorem remove_cells_keeps_solvable self solution difficulty g h :
  wf_board h solution -> Generator.board_size self = board_size solution ->
  exists h' puzzle g',
    Generator._remove_cells rng shuffle uniform_cells self solution difficulty g h
    = Ok (h', puzzle, g') /\
    wf_board h' puzzle /\ n puzzle = n solution /\ board_size puzzle = board_size solution /\
    view h' solution = view h solution /\
    (forall p, in_grid solution p ->
          cellp (view h' puzzle) p = 0%Z \/
          cellp (view h' puzzle) p = cellp (view h solution) p) /\
    (is_valid_solution solution (view h solution) = true ->
     in_range solution (view h solution) = true ->
     completes puzzle (view h' puzzle) (view h solution) /\
     forall s, exists r, solve s h' puzzle = Some r /\ success r = true).
Proof.
  intros Hwf Hs.
  destruct (remove_cells_spec self solution difficulty g h Hwf Hs)
    as (h' & puzzle & g' & removed & Hrun & Hwf' & Hn & Hsz & Hview & _ & _ & _ & _ & Hcells).
  exists h', puzzle, g'. split_and!; [done | done | done | done | done | |].
  - intros p Hp. rewrite (Hcells p Hp). destruct (decide (p ∈ removed)); [by left | by right].
  - intros Hvalid Hrange. pose proof Hwf' as (Hnpos & Hside & _).
    assert (Hc : completes puzzle (view h' puzzle) (view h solution)).
    { apply (cleared_cells_complete puzzle _ _ removed); try done.
      - apply (same_shape_wf_grid solution puzzle); [done | by apply view_wf].
      - by rewrite (same_shape_valid solution puzzle).
      - by rewrite (same_shape_in_range solution puzzle).
      - intros p Hp. apply Hcells. by apply (same_shape_in_grid solution puzzle). }
    split; [done|]. intros s.
    destruct (solve_success_iff s h' puzzle Hwf') as (r & Hr & Hiff).
    exists r. split; [done|]. apply Hiff. exists (view h solution).
    split; [done|]. by rewrite (same_shape_valid solution puzzle).
Qed.

(** X22.  The number of cells [_remove_cells] clears: from a solution
    without an empty cell the puzzle has [total_cells - cells_to_keep]
    empty cells, at least none and at most all; so a 9x9 puzzle keeps at
    least 17 clues and a 4x4 puzzle at least 6, whatever the difficulty
    and the random numbers drawn. *)
Theorem remove_cells_counts self solution difficulty g h :
  wf_board h solution -> Generator.board_size self = board_size solution ->
  is_complete solution (view h solution) = true ->
  exists h' puzzle g',
    Generator._remove_cells rng shuffle uniform_cells self solution difficulty g h
    = Ok (h', puzzle, g') /\
    Z.of_nat (count_empty puzzle (view h' puzzle))
    = Z.min (Z.of_nat (board_size solution * board_size solution))
            (Z.max 0 (Z.of_nat (board_size solution * board_size solution)
                      - (Generator.cells_to_keep rng uniform_cells self difficulty
                           (board_size solution * board_size solution) g).1)) /\
    (board_size solution = 9 -> count_empty puzzle (view h' puzzle) <= 81 - 17) /\
    (board_size solution = 4 -> count_empty puzzle (view h' puzzle) <= 16 - 6).
Proof.
  intros Hwf Hs Hfull.
  destruct (remove_cells_spec self solution difficulty g h Hwf Hs)
    as (h' & puzzle & g' & removed & Hrun & Hwf' & Hn & Hsz & Hview & _ & Hnd & Hin & Hlen
        & Hcells).
  exists h', puzzle, g'.
  assert (Hce : count_empty puzzle (view h' puzzle) = length removed).
  { apply (count_empty_removed puzzle (view h solution)).
    - unfold is_complete in *. by rewrite Hsz.
    - done.
    - intros p Hp. apply (same_shape_in_grid solution puzzle); [done | by apply Hin].
    - intros p Hp. apply Hcells. by apply (same_shape_in_grid solution puzzle). }
  rewrite Hce. split_and!; [done | done | |].
  - intros H9. revert Hlen. unfold Generator.cells_to_keep.
    destruct (Generator.draw_cells_to_keep _ _ _ _ _ _) as [keep g1]. cbn [fst].
    rewrite Hs, H9. simpl. lia.
  - intros H4. revert Hlen. unfold Generator.cells_to_keep.
    destruct (Generator.draw_cells_to_keep _ _ _ _ _ _) as [keep g1]. cbn [fst].
    rewrite Hs, H4. simpl. lia.
Qed.

(** ** Counting the clues *)

Lemma length_filter_negb {A} (f : A -> bool) (l : list A) :
  length (List.filter (fun x => negb (f x)) l) + length (List.filter f l) = length l.
Proof. induction l as [|a l IH]; simpl; [done|]. destruct (f a); simpl; lia. Qed.

Lemma count_clues_spec puzzle h cells :
  wf_board h puzzle -> (forall p, p ∈ cells -> in_grid puzzle p) ->
  Generator.count_clues puzzle h cells
  = Ok (length (List.filter (fun '(r, c) => negb (cell (view h puzzle) r c =? 0)%Z) cells)).
Proof.
  intros Hwf. induction cells as [|[r c] cells IH]; intros Hin; [done|].
  cbn [Generator.count_clues List.filter].
  destruct (Hin (r, c)) as [Hr Hc]; [left|]. simpl in Hr, Hc.
  rewrite is_empty_in_range by done. rewrite IH by (intros p Hp; apply Hin; by right).
  by destruct (cell (view h puzzle) r c =? 0)%Z.
Qed.

(** X23.  [generate_with_stats] from start to end.  It ends without an
    exception of a board method: it gives up after ten failed attempts,
    or returns a puzzle on which [solve] succeeds under every setting of
    the flags, together with statistics in which [clues] is the number of
    filled cells and [empty_cells] the number of empty ones.  A 9x9
    puzzle has at least 17 clues and a 4x4 puzzle at least 6. *)
Theorem generate_with_stats_counts k level g h :
  0 < k ->
  exists r,
    Generator.generate_with_stats rng shuffle uniform_cells (Generator.__init__ k) level g h
    = Some r /\
    match r with
    | Generator.Generated (h', puzzle, _, stats) =>
        wf_board h' puzzle /\ n puzzle = k /\
        Generator.stats_n stats = k /\ Generator.stats_board_size stats = k * k /\
        Generator.difficulty stats = level /\
        Generator.clues stats + count_empty puzzle (view h' puzzle) = k * k * (k * k) /\
        Generator.empty_cells stats = Z.of_nat (count_empty puzzle (view h' puzzle)) /\
        (k = 3 -> 17 <= Generator.clues stats) /\
        (k = 2 -> 6 <= Generator.clues stats) /\
        (forall s, exists r, solve s h' puzzle = Some r /\ success r = true) /\
        (forall l, is_Some (h !! l) -> h' !! l = h !! l)
    | Generator.Failed _ => False
    | Generator.GaveUp => True
    end.
Proof.
  intros Hk.
  unfold Generator.generate_with_stats, Generator.generate, Generator._generate_solution.
  destruct (attempts_spec (Generator.__init__ k) (seq 0 10) g h) as (r & -> & Hpost);
    [done | done |].
  destruct r as [[[h1 solution] g1]|e|]; [|done|by exists Generator.GaveUp].
  destruct Hpost as (Hwf1 & Hn1 & Hvalid & Hrange & Honce & Hold1).
  simpl in Hn1. pose proof Hwf1 as (_ & Hside1 & _).
  assert (Hs1 : Generator.board_size (Generator.__init__ k) = board_size solution).
  { simpl. by rewrite Hside1, Hn1. }
  destruct (remove_cells_spec (Generator.__init__ k) solution level g1 h1 Hwf1 Hs1)
    as (h' & puzzle & g' & removed & Hrun & Hwf' & Hn & Hsz & Hview & Hold & Hnd & Hin & Hlen
        & Hcells).
  rewrite Hrun. cbv beta iota.
  pose proof Hwf' as (Hnpos & Hside & _).
  assert (Hgrid : forall p, in_grid puzzle p <-> in_grid solution p)
    by (intros p; by apply (same_shape_in_grid solution puzzle)).
  assert (Hsk : board_size puzzle = k * k) by (rewrite Hsz, Hside1, Hn1; done).
  cbn [Generator.board_size Generator.n Generator.__init__].
  rewrite (count_clues_spec puzzle h');
    [|done|intros p Hp; apply elem_of_positions_in_grid; by rewrite Hsk].
  eexists. split; [reflexivity|]. cbv beta iota. cbn [Generator.clues Generator.empty_cells
    Generator.stats_n Generator.stats_board_size Generator.difficulty].
  assert (Hfull : is_complete puzzle (view h1 solution) = true).
  { unfold is_valid_solution in Hvalid. unfold is_complete in *. rewrite Hsz.
    by destruct (forallb _ _). }
  assert (Hce : count_empty puzzle (view h' puzzle) = length removed).
  { apply (count_empty_removed puzzle (view h1 solution)); try done.
    - intros p Hp. by apply Hgrid, Hin.
    - intros p Hp. by apply Hcells, Hgrid. }
  assert (Hsum : length (List.filter (fun '(r, c) => negb (cell (view h' puzzle) r c =? 0)%Z)
                                     (positions (k * k)))
                 + count_empty puzzle (view h' puzzle) = k * k * (k * k)).
  { unfold count_empty. rewrite Hsk.
    pose proof (length_filter_negb (fun '(r, c) => (cell (view h' puzzle) r c =? 0)%Z)
                                   (positions (k * k))) as Hl.
    assert (Hlp : length (positions (k * k)) = k * k * (k * k)).
    { unfold positions. rewrite (length_bind_const _ _ (k * k)); [by rewrite length_seq|].
      intros r. by rewrite length_fmap, length_seq. }
    rewrite Hlp in Hl. rewrite <- Hl. f_equal. f_equal.
    apply List.filter_ext. by intros [r c]. }
  assert (Hkeep : Z.of_nat (length removed)
                  = Z.min (Z.of_nat (k * k * (k * k)))
                          (Z.max 0 (Z.of_nat (k * k * (k * k))
                                    - (Generator.cells_to_keep rng uniform_cells
                                         (Generator.__init__ k) level
                                         (k * k * (k * k)) g1).1))).
  { rewrite Hlen. by rewrite Hside1, Hn1. }
  assert (Hclues : forall m, Generator.board_size (Generator.__init__ k) = k * k ->
            (k * k =? 4) || (k * k =? 9) = true ->
            m = (if k * k =? 4 then 6 else 17) ->
            m <= length (List.filter
                           (fun '(r, c) => negb (cell (view h' puzzle) r c =? 0)%Z)
                           (positions (k * k)))).
  { intros m _ Hsmall ->. rewrite Hce in Hsum. revert Hkeep Hsum.
    generalize (length (List.filter
                          (fun '(r, c) => negb (cell (view h' puzzle) r c =? 0)%Z)
                          (positions (k * k)))) as C.
    generalize (length removed) as E. unfold Generator.cells_to_keep.
    destruct (Generator.draw_cells_to_keep _ _ _ _ _ _) as [keep g2].
    cbn [fst Generator.board_size Generator.__init__].
    intros E C Hkeep Hsum.
    destruct (Nat.eqb_spec (k * k) 4) as [H4|H4].
    - rewrite H4 in *. lia.
    - destruct (Nat.eqb_spec (k * k) 9) as [H9|H9]; [|done]. rewrite H9 in *. lia. }
  split_and!; [done | congruence | done | done | done | done | | | | |].
  - rewrite <- Hsk. unfold count_empty in Hsum |- *. rewrite Hsk in Hsum |- *. lia.
  - intros ->. by apply Hclues.
  - intros ->. by apply Hclues.
  - intros s.
    assert (Hc : completes puzzle (view h' puzzle) (view h1 solution)).
    { apply (cleared_cells_complete puzzle _ _ removed); try done.
      - apply (same_shape_wf_grid solution puzzle); [done | by apply view_wf].
      - by rewrite (same_shape_valid solution puzzle).
      - by rewrite (same_shape_in_range solution puzzle).
      - intros p Hp. by apply Hcells, Hgrid. }
    destruct (solve_success_iff s h' puzzle Hwf') as (r & Hr & Hiff).
    exists r. split; [done|]. apply Hiff. exists (view h1 solution).
    split; [done|]. by rewrite (same_shape_valid solution puzzle).
  - intros l Hl. destruct (Hold1 l Hl) as [Hl1 _].
    destruct (Hold l) as [Hl' _]; [by rewrite Hl1|]. by rewrite Hl', Hl1.
Qed.

End Removal.
End Generated.

Lemma shuffle_id_permutes A g (l : list A) : (shuffle_id A g l).1 ≡ₚ l.
Proof. done. Qed.

Lemma fill_diagonal_boxes_is_consistent_witness :
  exists h' g',
    Generator._fill_diagonal_boxes unit shuffle_id (Generator.__init__ 2) (init ∅ 2).2 tt
                                   (init ∅ 2).1 = Ok (h', g') /\
    wf_board h' (init ∅ 2).2 /\
    (forall k, k < n (init ∅ 2).2 ->
          exactly_once (init ∅ 2).2
            (box_cells (init ∅ 2).2 (view h' (init ∅ 2).2)
                       (k * n (init ∅ 2).2) (k * n (init ∅ 2).2))) /\
    (forall p, in_grid (init ∅ 2).2 p -> p.1 / n (init ∅ 2).2 <> p.2 / n (init ∅ 2).2 ->
          cellp (view h' (init ∅ 2).2) p = 0%Z) /\
    consistent (init ∅ 2).2 (view h' (init ∅ 2).2) = true.
Proof.
  apply (fill_diagonal_boxes_is_consistent unit shuffle_id shuffle_id_permutes).
  - apply wf_boardb_true. vm_compute. reflexivity.
  - reflexivity.
  - reflexivity.
  - vm_compute. reflexivity.
Defined.

Lemma generate_solution_is_valid_witness :
  exists r, Generator._generate_solution unit shuffle_id (Generator.__init__ 2) tt ∅ = Some r /\
       match r with
       | Generator.Generated (h', solution, _) =>
           wf_board h' solution /\ n solution = 2 /\
           is_valid_solution solution (view h' solution) = true /\
           units_exactly_once solution (view h' solution) /\
           (forall l, is_Some ((∅ : Heap) !! l) -> h' !! l = (∅ : Heap) !! l /\ l ∉ board solution)
       | Generator.Failed _ => False
       | Generator.GaveUp => True
       end.
Proof.
  apply (generate_solution_is_valid unit shuffle_id shuffle_id_permutes). lia.
Defined.

Lemma remove_cells_keeps_solvable_witness :
  exists h' puzzle g',
    Generator._remove_cells unit shuffle_id uniform_low (Generator.__init__ 2)
                            (load 2 solved_4x4).2 "easy" tt (load 2 solved_4x4).1
    = Ok (h', puzzle, g') /\
    wf_board h' puzzle /\ n puzzle = n (load 2 solved_4x4).2 /\
    board_size puzzle = board_size (load 2 solved_4x4).2 /\
    view h' (load 2 solved_4x4).2 = view (load 2 solved_4x4).1 (load 2 solved_4x4).2 /\
    (forall p, in_grid (load 2 solved_4x4).2 p ->
          cellp (view h' puzzle) p = 0%Z \/
          cellp (view h' puzzle) p
          = cellp (view (load 2 solved_4x4).1 (load 2 solved_4x4).2) p) /\
    (is_valid_solution (load 2 solved_4x4).2
                       (view (load 2 solved_4x4).1 (load 2 solved_4x4).2) = true ->
     in_range (load 2 solved_4x4).2
              (view (load 2 solved_4x4).1 (load 2 solved_4x4).2) = true ->
     completes puzzle (view h' puzzle) (view (load 2 solved_4x4).1 (load 2 solved_4x4).2) /\
     forall s, exists r, solve s h' puzzle = Some r /\ success r = true).
Proof.
  apply (remove_cells_keeps_solvable unit shuffle_id shuffle_id_permutes uniform_low).
  - apply wf_boardb_true. vm_compute. reflexivity.
  - reflexivity.
Defined.

Lemma remove_cells_counts_witness :
  exists h' puzzle g',
    Generator._remove_cells unit shuffle_id uniform_low (Generator.__init__ 2)
                            (load 2 solved_4x4).2 "easy" tt (load 2 solved_4x4).1
    = Ok (h', puzzle, g') /\
    Z.of_nat (count_empty puzzle (view h' puzzle))
    = Z.min (Z.of_nat (board_size (load 2 solved_4x4).2 * board_size (load 2 solved_4x4).2))
            (Z.max 0 (Z.of_nat (board_size (load 2 solved_4x4).2
                                * board_size (load 2 solved_4x4).2)
                      - (Generator.cells_to_keep unit uniform_low (Generator.__init__ 2) "easy"
                           (board_size (load 2 solved_4x4).2
                            * board_size (load 2 solved_4x4).2) tt).1)) /\
    (board_size (load 2 solved_4x4).2 = 9 -> count_empty puzzle (view h' puzzle) <= 81 - 17) /\
    (board_size (load 2 solved_4x4).2 = 4 -> count_empty puzzle (view h' puzzle) <= 16 - 6).
Proof.
  apply (remove_cells_counts unit shuffle_id shuffle_id_permutes uniform_low).
  - apply wf_boardb_true. vm_compute. reflexivity.
  - reflexivity.
  - vm_compute. reflexivity.
Defined.

Lemma generate_with_stats_counts_witness :
  exists r,
    Generator.generate_with_stats unit shuffle_id uniform_low (Generator.__init__ 2) "hard" tt ∅
    = Some r /\
    match r with
    | Generator.Generated (h', puzzle, _, stats) =>
        wf_board h' puzzle /\ n puzzle = 2 /\
        Generator.stats_n stats = 2 /\ Generator.stats_board_size stats = 2 * 2 /\
        Generator.difficulty stats = "hard"%string /\
        Generator.clues stats + count_empty puzzle (view h' puzzle) = 2 * 2 * (2 * 2) /\
        Generator.empty_cells stats = Z.of_nat (count_empty puzzle (view h' puzzle)) /\
        (2 = 3 -> 17 <= Generator.clues stats) /\
        (2 = 2 -> 6 <= Generator.clues stats) /\
        (forall s, exists r, solve s h' puzzle = Some r /\ success r = true) /\
        (forall l, is_Some ((∅ : Heap) !! l) -> h' !! l = (∅ : Heap) !! l)
    | Generator.Failed _ => False
    | Generator.GaveUp => True
    end.
Proof.
  apply (generate_with_stats_counts unit shuffle_id shuffle_id_permutes uniform_low). lia.
Defined.

(** ** The corner of a box *)

(** X24.  [get_box_index] returns the top-left corner of the box of a
    cell: both coordinates are multiples of [n], the cell lies in the
    [n x n] cells from there, and two cells have the same corner exactly
    when they lie in the same box. *)
Theorem get_box_index_is_the_corner b row col :
  0 < n b ->
  (get_box_index b row col).1 mod n b = 0 /\
  (get_box_index b row col).2 mod n b = 0 /\
  (get_box_index b row col).1 <= row < (get_box_index b row col).1 + n b /\
  (get_box_index b row col).2 <= col < (get_box_index b row col).2 + n b /\
  (forall row' col',
      get_box_index b row' col' = get_box_index b row col <->
      row' / n b = row / n b /\ col' / n b = col / n b) /\
  (forall p, p ∈ box_positions (n b) (get_box_index b row col).1 (get_box_index b row col).2
        <-> get_box_index b p.1 p.2 = get_box_index b row col).
Proof.
  intros Hn. unfold get_box_index. simpl.
  assert (Hiff : forall row' col',
            (row' / n b * n b, col' / n b * n b) = (row / n b * n b, col / n b * n b) <->
            row' / n b = row / n b /\ col' / n b = col / n b).
  { intros row' col'. split.
    - intros [= H1 H2]. split; nia.
    - intros [-> ->]. done. }
  split_and!.
  - apply Nat.Div0.mod_mul.
  - apply Nat.Div0.mod_mul.
  - pose proof (Nat.div_mod_eq row (n b)). pose proof (Nat.mod_upper_bound row (n b)). lia.
  - pose proof (Nat.div_mod_eq row (n b)). pose proof (Nat.mod_upper_bound row (n b)). lia.
  - pose proof (Nat.div_mod_eq col (n b)). pose proof (Nat.mod_upper_bound col (n b)). lia.
  - pose proof (Nat.div_mod_eq col (n b)). pose proof (Nat.mod_upper_bound col (n b)). lia.
  - exact Hiff.
  - intros p. rewrite elem_of_box by done. by rewrite Hiff.
Qed.

Lemma get_box_index_is_the_corner_witness :
  (get_box_index example_board 3 2).1 mod n example_board = 0 /\
  (get_box_index example_board 3 2).2 mod n example_board = 0 /\
  (get_box_index example_board 3 2).1 <= 3 < (get_box_index example_board 3 2).1
                                             + n example_board /\
  (get_box_index example_board 3 2).2 <= 2 < (get_box_index example_board 3 2).2
                                             + n example_board /\
  (forall row' col',
      get_box_index example_board row' col' = get_box_index example_board 3 2 <->
      row' / n example_board = 3 / n example_board /\
      col' / n example_board = 2 / n example_board) /\
  (forall p, p ∈ box_positions (n example_board) (get_box_index example_board 3 2).1
                          (get_box_index example_board 3 2).2
        <-> get_box_index example_board p.1 p.2 = get_box_index example_board 3 2).
Proof. apply get_box_index_is_the_corner. vm_compute. lia. Defined.

(** ** [solve] on a board without an empty cell, and on a board with a
    duplicate *)

(** X25.  On a board without an empty cell [solve] only validates: it
    makes one call of [_backtrack] and no backtrack, reports what
    [is_valid_solution] says of the board and, on success, returns a
    board with the same contents. *)
Theorem solve_validates_a_complete_board s h b :
  wf_board h b -> is_complete b (view h b) = true ->
  exists r, solve s h b = Some r /\
       success r = is_valid_solution b (view h b) /\
       nodes_explored (final r) = 1 /\ backtrack_count (final r) = 0 /\
       (forall wb, solved_board r = Some wb -> view (heap (final r)) wb = view h b).
Proof.
  intros Hwf Hfull.
  destruct (solve_runs s h b Hwf)
    as (h1 & wb & r & Hcopy & Hsolve & Hsb & Hwf1 & Hview & Hn & Hs & Hold & Hpost).
  destruct Hpost as (dn & db & tr & _ & _ & Hdn & Hdb & _ & Hbt & _).
  simpl in Hdn, Hdb. change (heap (initial_state h1)) with h1 in Hbt. rewrite Hview in Hbt.
  assert (Hsel : _select_unassigned_variable s wb (view h b) = None).
  { apply select_complete. intros p Hp. rewrite is_complete_spec in Hfull.
    apply Hfull. by apply (same_shape_in_grid b wb). }
  exists r. split; [done|]. rewrite Hdn, Hdb.
  assert (Hrun : success r = is_valid_solution wb (view h b) /\
                 view (heap (final r)) wb = view h b /\ dn = 1 /\ db = 0).
  { inversion Hbt as [g Hsel' Hres Hg' | g row col Hsel' | g row col res g' dn' db' tr' Hsel'];
      [done | congruence | congruence]. }
  destruct Hrun as (Hres & Hg & -> & ->).
  split_and!; [|done|done|].
  - rewrite Hres. by apply (same_shape_valid b wb).
  - intros wb' Hwb'. rewrite Hsb in Hwb'. destruct (success r); [|done].
    by injection Hwb' as <-.
Qed.

Lemma solve_validates_a_complete_board_witness :
  exists r, solve mrv_fc (load 2 grid_with_5).1 (load 2 grid_with_5).2 = Some r /\
       success r = is_valid_solution (load 2 grid_with_5).2
                     (view (load 2 grid_with_5).1 (load 2 grid_with_5).2) /\
       nodes_explored (final r) = 1 /\ backtrack_count (final r) = 0 /\
       (forall wb, solved_board r = Some wb ->
              view (heap (final r)) wb
              = view (load 2 grid_with_5).1 (load 2 grid_with_5).2).
Proof.
  apply solve_validates_a_complete_board.
  - apply wf_boardb_true. vm_compute. reflexivity.
  - vm_compute. reflexivity.
Defined.

(** X26.  [solve] never reports success on a board that already holds a
    value twice in a row, a column or a box: the board it would return
    keeps the filled cells, and [is_valid_solution] accepts no board with
    such a pair. *)
Theorem solve_rejects_a_board_with_a_duplicate s h b :
  wf_board h b -> consistent b (view h b) = false ->
  exists r, solve s h b = Some r /\ success r = false /\ solved_board r = None.
Proof.
  intros Hwf Hdup. pose proof Hwf as (Hn & Hside & _).
  pose proof (view_wf _ _ Hwf) as Hwfg.
  destruct (solve_runs s h b Hwf)
    as (h1 & wb & r & Hcopy & Hsolve & Hsb & Hwf1 & Hview & Hnwb & Hswb & Hold & Hpost).
  exists r. split; [done|].
  destruct (success r) eqn:Hsucc; [|by rewrite Hsb].
  exfalso. apply not_true_iff_false in Hdup. apply Hdup.
  destruct (solve_success_valid s h b r Hwf Hsolve Hsucc)
    as (wb' & _ & Hn' & Hs' & Hwfg' & Hvalid & [_ Hext]).
  rewrite (same_shape_valid b wb') in Hvalid by done.
  apply is_valid_solution_spec in Hvalid as [_ Hdiff]; [|done..].
  apply consistent_spec; [done..|].
  intros p q Hp Hq Hne Hrel Hnz Heq.
  destruct (Hext p Hp) as [Hkp _]. destruct (Hext q Hq) as [Hkq _].
  apply (Hdiff p q Hp Hq Hne Hrel). rewrite Hkp, Hkq by congruence. done.
Qed.

Lemma solve_rejects_a_board_with_a_duplicate_witness :
  exists r, solve plain (load 2 [[1; 1; 0; 0]; [0; 0; 0; 0]; [0; 0; 0; 0]; [0; 0; 0; 0]]%Z).1
                  (load 2 [[1; 1; 0; 0]; [0; 0; 0; 0]; [0; 0; 0; 0]; [0; 0; 0; 0]]%Z).2
       = Some r /\
       success r = false /\ solved_board r = None.
Proof.
  apply solve_rejects_a_board_with_a_duplicate.
  - apply wf_boardb_true. vm_compute. reflexivity.
  - vm_compute. reflexivity.
Defined.

(** ** Printing a board *)

Lemma length_string_app (s t : string) :
  String.length (s ++ t) = String.length s + String.length t.
Proof.
  induction s as [|c s IH]; [done|].
  change (S (String.length (s ++ t)) = S (String.length s) + String.length t).
  by rewrite IH.
Qed.

Lemma length_concat_replicate (sep s : string) k :
  String.length (String.concat sep (replicate (S k) s))
  = S k * String.length s + k * String.length sep.
Proof.
  induction k as [|k IH]; [simpl; lia|].
  change (replicate (S (S k)) s) with (s :: replicate (S k) s).
  change (String.concat sep (s :: replicate (S k) s))
    with (s ++ sep ++ String.concat sep (replicate (S k) s))%string.
  rewrite !length_string_app, IH. lia.
Qed.

Lemma length_times (s : string) k : String.length (times s k) = k * String.length s.
Proof.
  unfold times. destruct k as [|k]; [done|]. rewrite length_concat_replicate. simpl. lia.
Qed.

Lemma length_h_line b :
  0 < n b -> String.length (h_line b) = 2 * (n b * n b) + 2 * n b + 1.
Proof.
  intros Hn. unfold h_line. destruct (n b) as [|k] eqn:Hk; [lia|].
  rewrite !length_string_app, length_concat_replicate, length_times. simpl. lia.
Qed.

Lemma div_succ m k :
  0 < k -> 0 < m -> m / k = (m - 1) / k + (if m mod k =? 0 then 1 else 0).
Proof.
  intros Hk Hm.
  pose proof (Nat.div_mod_eq (m - 1) k) as Hdm.
  pose proof (Nat.mod_upper_bound (m - 1) k ltac:(lia)) as Hub.
  destruct (decide ((m - 1) mod k = k - 1)) as [Hr|Hr].
  - assert (Hmod : m mod k = 0)
      by (symmetry; apply (Nat.mod_unique m k ((m - 1) / k + 1)); lia).
    assert (Hdiv : m / k = (m - 1) / k + 1)
      by (symmetry; apply (Nat.div_unique m k _ 0); lia).
    rewrite Hdiv, Hmod. done.
  - assert (Hmod : m mod k = (m - 1) mod k + 1)
      by (symmetry; apply (Nat.mod_unique m k ((m - 1) / k)); lia).
    assert (Hdiv : m / k = (m - 1) / k)
      by (symmetry; apply (Nat.div_unique m k _ ((m - 1) mod k + 1)); lia).
    rewrite Hdiv, Hmod. destruct (Nat.eqb_spec ((m - 1) mod k + 1) 0); lia.
Qed.

Section Printing.
Variables (b : SudokuBoard) (g : Grid).
Hypothesis n_pos : 0 < n b.
Hypothesis cells_one_char :
  forall r c, r < board_size b -> c < board_size b -> (0 <= cell g r c <= 200)%Z.

(** The line of a row after [m] cells: the bar, two characters for each
    cell, and a bar before every [n] cells but the first. *)
Lemma row_str_length i m :
  i < board_size b -> m <= board_size b ->
  exists row_str,
    foldl (row_step b g i) (Some "|"%string) (seq 0 m) = Some row_str /\
    String.length row_str = 1 + 2 * m + (m - 1) / n b.
Proof.
  intros Hi. induction m as [|m IH]; intros Hm.
  { exists "|"%string. split; [done|]. simpl. rewrite Nat.Div0.div_0_l. done. }
  destruct IH as (row_str & Hrow & Hlen); [lia|].
  rewrite seq_S, foldl_app, Hrow. cbn [foldl]. change (0 + m) with m.
  unfold row_step. cbn [mbind option_bind].
  set (row_str' := if (m mod n b =? 0) && (0 <? m) then (row_str ++ "|")%string else row_str).
  assert (Hlen' : String.length row_str' = 1 + 2 * m + (S m - 1) / n b).
  { unfold row_str'. replace (S m - 1) with m by lia.
    destruct (Nat.ltb_spec 0 m) as [Hpos|Hz].
    - rewrite (div_succ m (n b)) by done. rewrite andb_true_r.
      destruct (m mod n b =? 0); [rewrite length_string_app; simpl|]; lia.
    - assert (m = 0) as -> by lia. rewrite andb_false_r, Hlen. simpl.
      rewrite Nat.Div0.div_0_l. done. }
  specialize (cells_one_char i m Hi ltac:(lia)).
  destruct (Z.eqb_spec (cell g i m) 0) as [Hz|Hnz].
  { eexists. split; [reflexivity|]. rewrite length_string_app, Hlen'. simpl. lia. }
  destruct (Z.ltb_spec (cell g i m) 10) as [Hlt|Hge].
  { eexists. split; [reflexivity|]. rewrite str_digit by lia.
    rewrite length_string_app, Hlen'. simpl. lia. }
  unfold chr. destruct (Z.leb_spec 0 (55 + cell g i m)); [|lia].
  destruct (Z.ltb_spec (55 + cell g i m) 256); [|lia]. cbn [andb mbind option_bind].
  eexists. split; [reflexivity|]. rewrite length_string_app, Hlen'. simpl. lia.
Qed.

(** The lines after [m] rows. *)
Lemma lines_after m :
  m <= board_size b -> board_size b = n b * n b ->
  exists lines,
    foldl (lines_step b g) (Some []) (seq 0 m) = Some lines /\
    length lines = m + (m + n b - 1) / n b /\
    Forall (fun line => line = h_line b \/
                     String.length line = 2 * board_size b + n b + 2) lines /\
    (0 < m -> head lines = Some (h_line b)).
Proof.
  intros Hm Hside. induction m as [|m IH].
  { exists []. split_and!; [done | | done | lia]. simpl.
    symmetry. apply Nat.div_small. lia. }
  destruct IH as (lines & Hlines & Hlen & Hall & Hhead); [lia|].
  rewrite seq_S, foldl_app, Hlines. cbn [foldl]. change (0 + m) with m. unfold lines_step.
  cbn [mbind option_bind].
  destruct (row_str_length m (board_size b)) as (row_str & -> & Hrow); [lia | lia |].
  cbn [mbind option_bind]. eexists. split; [reflexivity|].
  assert (Hw : String.length (row_str ++ " |") = 2 * board_size b + n b + 2).
  { rewrite length_string_app, Hrow. simpl.
    assert ((board_size b - 1) / n b = n b - 1) as ->; [|lia].
    rewrite Hside. symmetry. apply (Nat.div_unique _ (n b) (n b - 1) (n b - 1)); nia. }
  assert (Hdiv : (S m + n b - 1) / n b
                 = (m + n b - 1) / n b + (if m mod n b =? 0 then 1 else 0)).
  { replace (S m + n b - 1) with (m + n b) by lia.
    rewrite (div_succ (m + n b) (n b)) by lia.
    replace (m + n b - 1) with (m + n b - 1) by lia. f_equal.
    replace (m + n b) with (m + 1 * n b) by lia. by rewrite Nat.Div0.mod_add. }
  split_and!.
  - rewrite length_app, Hdiv. destruct (m mod n b =? 0);
      [rewrite length_app|]; simpl; lia.
  - apply Forall_app. split; [|apply Forall_singleton; by right].
    destruct (m mod n b =? 0); [|done].
    apply Forall_app. split; [done|]. apply Forall_singleton. by left.
  - intros _. destruct m as [|m'].
    + injection Hlines as <-. by rewrite Nat.Div0.mod_0_l.
    + specialize (Hhead ltac:(lia)). destruct lines as [|line lines]; [done|].
      by destruct (S m' mod n b =? 0).
Qed.

End Printing.

(** X27.  The picture [__str__] draws of a board with values in
    [0, board_size]: [board_size + n + 1] lines, each of them the
    separator [h_line], first and last among them, or the line of a row.
    The separator has [2 * board_size + 2 * n + 1] characters and the line
    of a row [2 * board_size + n + 2], so from [n = 2] on the right edges
    do not line up: a bar inside a row is written without the blank that
    the separator allows for. *)
Theorem str_lines_have_two_widths h b :
  wf_board h b -> in_range b (view h b) = true -> board_size b <= 200 ->
  exists lines,
    str_lines b (view h b) = Some lines /\
    __str__ b (view h b) = Some (String.concat (String "010" "") lines) /\
    length lines = board_size b + n b + 1 /\
    Forall (fun line => line = h_line b \/
                     String.length line = 2 * board_size b + n b + 2) lines /\
    head lines = Some (h_line b) /\ last lines = Some (h_line b) /\
    String.length (h_line b) = 2 * board_size b + 2 * n b + 1.
Proof.
  intros Hwf Hrange Hsmall. pose proof Hwf as (Hn & Hside & _).
  rewrite in_range_spec in Hrange.
  destruct (lines_after b (view h b) Hn) with (m := board_size b)
    as (lines & Hlines & Hlen & Hall & Hhead); [|done|done|].
  { intros r c Hr Hc. specialize (Hrange (r, c) (conj Hr Hc)).
    unfold cellp in Hrange. simpl in Hrange. lia. }
  exists (lines ++ [h_line b]). unfold __str__, str_lines. rewrite Hlines.
  cbn [mbind option_bind fmap option_fmap option_map].
  split_and!; [done | done | | | | |].
  - rewrite length_app, Hlen. simpl.
    assert ((board_size b + n b - 1) / n b = n b) as ->; [|lia].
    rewrite Hside. symmetry. apply (Nat.div_unique _ (n b) (n b) (n b - 1)); nia.
  - apply Forall_app. split; [done|]. apply Forall_singleton. by left.
  - assert (Hpos : 0 < board_size b) by (rewrite Hside; nia).
    specialize (Hhead Hpos). by destruct lines.
  - by rewrite last_snoc.
  - rewrite Hside. rewrite length_h_line by done. lia.
Qed.

Lemma str_lines_have_two_widths_witness :
  exists lines,
    str_lines example_board (view example_heap example_board) = Some lines /\
    __str__ example_board (view example_heap example_board)
    = Some (String.concat (String "010" "") lines) /\
    length lines = board_size example_board + n example_board + 1 /\
    Forall (fun line => line = h_line example_board \/
                     String.length line
                     = 2 * board_size example_board + n example_board + 2) lines /\
    head lines = Some (h_line example_board) /\ last lines = Some (h_line example_board) /\
    String.length (h_line example_board)
    = 2 * board_size example_board + 2 * n example_board + 1.
Proof.
  apply str_lines_have_two_widths.
  - apply wf_boardb_true. vm_compute. reflexivity.
  - vm_compute. reflexivity.
  - vm_compute. lia.
Defined.

(** ** Dead ends under forward checking *)

Lemma dead_cell_fails_forward_check b g row col :
  in_grid b (row, col) -> cell g row col = 0%Z -> get_candidates b g row col = [] ->
  _is_consistent b g = false.
Proof.
  intros Hin Hz Hnil. unfold _is_consistent. apply forallb_false.
  exists (row, col). split; [by apply elem_of_positions_in_grid|].
  by rewrite Hz, Hnil.
Qed.

(** A call of [_backtrack] on a board that passes the forward check
    never takes the dead-end return when forward checking is on, nor does
    any call below it. *)
Lemma bt_no_dead_end s b g res g' dn db tr :
  use_forward_checking s = true ->
  wf_grid b g -> bt s b g res g' dn db tr ->
  (_is_consistent b g = true -> forall e, e ∈ tr -> is_dead_end e = false) /\
  (forall e, e ∈ tr -> is_dead_end e = true -> tr = [Node g; e]).
Proof.
  intros Hfc Hwf Hbt.
  eapply (search_ind s b
            (fun g _ _ _ _ tr =>
               (_is_consistent b g = true -> forall e, e ∈ tr -> is_dead_end e = false) /\
               (forall e, e ∈ tr -> is_dead_end e = true -> tr = [Node g; e]))
            (fun _ _ _ _ _ _ _ _ tr => forall e, e ∈ tr -> is_dead_end e = false));
    [..|exact Hwf|exact Hbt]; clear g res g' dn db tr Hwf Hbt.
  - intros g _ _. split.
    + by intros _ e ->%list_elem_of_singleton.
    + by intros e ->%list_elem_of_singleton.
  - intros g row col Hwf Hsel Hnil. split.
    + intros Hcons. destruct (select_Some _ _ _ _ _ Hsel) as [Hin Hz].
      by rewrite (dead_cell_fails_forward_check b g row col) in Hcons.
    + intros e [->|[->|?%elem_of_nil]%elem_of_cons]%elem_of_cons; done.
  - intros g row col res g' dn db tr _ _ _ _ _ HQ.
    assert (Hnone : forall e, e ∈ Node g :: tr -> is_dead_end e = false).
    { intros e [->|He]%elem_of_cons; [done | by apply HQ]. }
    split; [done|]. intros e He Hd. by rewrite (Hnone e He) in Hd.
  - intros row col g e ?%elem_of_nil. done.
  - intros row col num rest g res g' dn db tr _ _ _ _ HQ e.
    intros [->|[->|He]%elem_of_cons]%elem_of_cons; [done | done | by apply HQ].
  - intros row col num rest g g' dn db tr _ _ _ Hpass _ [HP _] e.
    unfold forward_check_fails in Hpass. rewrite Hfc in Hpass.
    apply negb_false_iff in Hpass.
    intros [->|He]%elem_of_cons; [done | by apply HP].
  - intros row col num rest g res g' dn1 db1 tr1 dn2 db2 tr2 _ _ _ Hpass [HP _] HQ e.
    unfold forward_check_fails in Hpass. rewrite Hfc in Hpass.
    apply negb_false_iff in Hpass.
    intros [->|[He|[->|He]%elem_of_cons]%elem_of_app]%elem_of_cons;
      [done | by apply HP | done | by apply HQ].
Qed.

(** X28.  With forward checking on, the dead-end return of [_backtrack]
    (the selected cell has no candidate) is taken by the first call or
    not at all: a recursive call is only made on a board where every
    empty cell has a candidate.  If it is taken, the search consists of
    that one call. *)
Theorem forward_checking_confines_dead_ends s h b :
  wf_board h b -> use_forward_checking s = true ->
  exists r, solve s h b = Some r /\
       (forall e, e ∈ trace (final r) -> is_dead_end e = true ->
             trace (final r) = [Node (view h b); e] /\
             nodes_explored (final r) = 1 /\ success r = false) /\
       (_is_consistent b (view h b) = true ->
        forall e, e ∈ trace (final r) -> is_dead_end e = false).
Proof.
  intros Hwf Hfc.
  destruct (solve_runs s h b Hwf)
    as (h1 & wb & r & Hcopy & Hsolve & Hsb & Hwf1 & Hview & Hn & Hs & Hold & Hpost).
  destruct Hpost as (dn & db & tr & _ & _ & Hdn & _ & Htr & Hbt & _).
  simpl in Hdn, Htr. change (heap (initial_state h1)) with h1 in Hbt. rewrite Hview in Hbt.
  assert (Hwfg : wf_grid wb (view h b)).
  { apply (same_shape_wf_grid b wb); [done|]. by apply view_wf. }
  destruct (bt_no_dead_end s wb _ _ _ _ _ _ Hfc Hwfg Hbt) as [Hnone Hroot].
  exists r. rewrite Htr. split_and!; [done | |].
  - intros e He Hd. specialize (Hroot e He Hd). split; [done|]. rewrite Hdn.
    destruct e as [| row col | | |]; try done.
    rewrite Hroot in Hbt. clear -Hbt.
    inversion Hbt as [ | | ? ? ? ? ? ? ? ? ? ? Hloop]; subst; [done | inversion Hloop].
  - intros Hcons. apply Hnone.
    assert (_is_consistent wb (view h b) = _is_consistent b (view h b)) as ->; [|done].
    clear -Hn Hs. destruct b, wb; simpl in *; subst; reflexivity.
Qed.

Lemma forward_checking_confines_dead_ends_witness :
  exists r, solve mrv_fc (load 2 dead_end_4x4).1 (load 2 dead_end_4x4).2 = Some r /\
       (forall e, e ∈ trace (final r) -> is_dead_end e = true ->
             trace (final r)
             = [Node (view (load 2 dead_end_4x4).1 (load 2 dead_end_4x4).2); e] /\
             nodes_explored (final r) = 1 /\ success r = false) /\
       (_is_consistent (load 2 dead_end_4x4).2
                       (view (load 2 dead_end_4x4).1 (load 2 dead_end_4x4).2) = true ->
        forall e, e ∈ trace (final r) -> is_dead_end e = false).
Proof.
  apply forward_checking_confines_dead_ends.
  - apply wf_boardb_true. vm_compute. reflexivity.
  - reflexivity.
Defined.
